(** * JSON editor block: the editor synchronisation engine

    A shallow embedding of the block's frontend:

    - [markersMatch], [loadMonacoAsync] and the [Monaco] component,
    - the [useDebounced] hook,
    - the change handler that [EditorGuard] debounces.

    JavaScript values are modelled as follows.  Numbers that the code only
    uses as integers (line and column numbers, the generation counter, timer
    deadlines in milliseconds) are [Z] or [nat]; strings are [string]; arrays
    are lists, indexed with [!!]; a property read on [undefined] raises a
    [TypeError], which is the [None] of an [option] result.  Functions passed
    as props are opaque: a callback is an identity ([FnId]) and each of its
    invocations is appended to a trace.

    Execution is single-threaded and event-driven.  An event (a render of
    the owner, a keystroke, a resource that arrives, a timer that expires)
    is handled to completion, together with the renders and effects that
    React derives from it, before the next event is looked at. *)

From stdpp Require Import base numbers list strings gmap.

Local Open Scope Z_scope.

(** ** MarkerDiff: [markersMatch] *)

Module MarkerDiff.

(** A Monaco marker.  The widget attaches more attributes to a marker than
    the five that [markersMatch] reads; [severity] and [owner] stand for
    them. *)
Record Marker := mkMarker {
  startLineNumber : Z;
  startColumn : Z;
  endLineNumber : Z;
  endColumn : Z;
  message : string;
  severity : Z;
  owner : string
}.

(** The body of the arrow function handed to [every], once [bMarker] is
    known to be an object: five strict equalities joined by [&&]. *)
Definition fieldsMatch (aMarker bMarker : Marker) : bool :=
  (startLineNumber aMarker =? startLineNumber bMarker) &&
  (startColumn aMarker =? startColumn bMarker) &&
  (endLineNumber aMarker =? endLineNumber bMarker) &&
  (endColumn aMarker =? endColumn bMarker) &&
  String.eqb (message aMarker) (message bMarker).

(** [(aMarker, index) => { const bMarker = bMarkers[index]; ... }].
    Reading a property of [undefined] throws. *)
Definition matchAt (bMarkers : list Marker) (aMarker : Marker) (index : nat)
  : option bool :=
  match bMarkers !! index with
  | Some bMarker => Some (fieldsMatch aMarker bMarker)
  | None => None
  end.

(** [Array.prototype.every] with the two-argument callback: elements are
    visited by increasing index, the first falsy answer stops the visit and
    an exception of the callback propagates. *)
Fixpoint everyFrom {A} (f : A → nat → option bool) (index : nat) (l : list A)
  : option bool :=
  match l with
  | [] => Some true
  | x :: rest =>
      match f x index with
      | None => None
      | Some false => Some false
      | Some true => everyFrom f (S index) rest
      end
  end.

Definition every {A} (f : A → nat → option bool) (l : list A) : option bool :=
  everyFrom f 0%nat l.

Definition markersMatch (aMarkers bMarkers : list Marker) : option bool :=
  if negb (length aMarkers =? length bMarkers)%nat then Some false
  else every (matchAt bMarkers) aMarkers.

(** The specification's reading of equality: agreement on the five
    attributes. *)
Definition agree (a b : Marker) : Prop :=
  startLineNumber a = startLineNumber b ∧
  startColumn a = startColumn b ∧
  endLineNumber a = endLineNumber b ∧
  endColumn a = endColumn b ∧
  message a = message b.

Definition listsAgree (a b : list Marker) : Prop :=
  length a = length b ∧
  ∀ i ma mb, a !! i = Some ma → b !! i = Some mb → agree ma mb.

End MarkerDiff.

(** ** DebounceGate: the [useDebounced] hook *)

Module DebounceGate.

(** Identity of a function value ([fn], [onChange], ...). *)
Definition FnId := nat.

Section Hook.

Context {Args Dep : Type} `{EqDecision Dep}.

(** Modelled from the spec: the [pending] slot, which is the timer of
    [debounce].  [debounce] is the lodash.debounce package, an external
    dependency whose code is not part of the sources; after section 4.1 a
    call schedules the wrapped function to run after the delay, resets the
    wait window and supersedes the previously scheduled call, so that only
    the most recent arguments are delivered.

    The other fields of a function returned by [debounce] are from the
    source: the closure's immutable [id] and [fn] bindings and the wait it
    was created with. *)
Record DebouncedFn := mkDebouncedFn {
  id : nat;
  fn : FnId;
  wait : Z;
  pending : option (Z * Args)
}.

(** The state of one hook instance, together with what it can observe:
    [count] is [count.current]; [memo] is the cell of [useMemo], holding the
    dependency array of the last computation and the function it produced
    (as an index into [fns], the debounced functions created so far, which
    stay alive while a timer or a subscriber refers to them); [now] is the
    clock in milliseconds; [invoked] lists the invocations of the wrapped
    functions, oldest first.

    [count] is a JavaScript number that starts at 0 and only ever grows by
    one; such additions are exact below 2^53, a number of renders that no
    session reaches, and the model does not bound it. *)
Record Hook := mkHook {
  count : nat;
  memo : option (list (Z + Dep) * nat);
  fns : list DebouncedFn;
  now : Z;
  invoked : list (FnId * Args)
}.

Definition init : Hook :=
  {| count := 0%nat; memo := None; fns := []; now := 0; invoked := [] |}.

(** React's comparison of two dependency arrays: element by element with
    [Object.is], over the common prefix. *)
Fixpoint areHookInputsEqual (nextDeps prevDeps : list (Z + Dep)) : bool :=
  match nextDeps, prevDeps with
  | x :: nextRest, y :: prevRest =>
      bool_decide (x = y) && areHookInputsEqual nextRest prevRest
  | _, _ => true
  end.

(** The callback of [useMemo]: [const id = (count.current += 1)] and the
    creation of the debounced closure.  Returns the new function's index. *)
Definition create (fnArg : FnId) (changeDelay : Z) (key : list (Z + Dep))
    (h : Hook) : Hook * nat :=
  let newId := S (count h) in
  let handle := length (fns h) in
  ({| count := newId;
      memo := Some (key, handle);
      fns := fns h ++ [ {| id := newId; fn := fnArg; wait := changeDelay;
                           pending := None |} ];
      now := now h;
      invoked := invoked h |},
   handle).

(** [useDebounced(fn, changeDelay, deps)], called during a render: the
    memoised function is returned unless [[changeDelay, ...deps]] changed. *)
Definition useDebounced (fnArg : FnId) (changeDelay : Z) (deps : list Dep)
    (h : Hook) : Hook * nat :=
  let key := inl changeDelay :: (inr <$> deps) in
  match memo h with
  | Some (prevKey, handle) =>
      if areHookInputsEqual key prevKey then (h, handle)
      else create fnArg changeDelay key h
  | None => create fnArg changeDelay key h
  end.

(** The function wrapped by [debounce]:
    [(...args) => { if (id !== count.current) { return; } return fn(...args); }] *)
Definition inner (f : DebouncedFn) (args : Args) (h : Hook) : Hook :=
  if negb (id f =? count h)%nat then h
  else {| count := count h; memo := memo h; fns := fns h; now := now h;
          invoked := invoked h ++ [(fn f, args)] |}.

(** Modelled from the spec: a call of the debounced function (section 4.1)
    replaces the scheduled call by one that is due [wait] milliseconds from
    now; a zero or negative delay is due at once. *)
Definition schedule (t : Z) (args : Args) (f : DebouncedFn) : DebouncedFn :=
  {| id := id f; fn := fn f; wait := wait f;
     pending := Some (t + Z.max (wait f) 0, args) |}.

(** Modelled from the spec: somebody calls the debounced function at index
    [handle], now. *)
Definition call (handle : nat) (args : Args) (h : Hook) : Hook :=
  {| count := count h; memo := memo h;
     fns := alter (schedule (now h) args) handle (fns h);
     now := now h; invoked := invoked h |}.

(** Modelled from the spec: the scheduled call of [f] that is due at time
    [t], if any. *)
Definition due (t : Z) (f : DebouncedFn) : option Args :=
  match pending f with
  | Some (deadline, args) => if bool_decide (deadline ≤ t) then Some args else None
  | None => None
  end.

(** Modelled from the spec: a scheduled call that is due leaves its
    slot. *)
Definition expire (t : Z) (f : DebouncedFn) : DebouncedFn :=
  match due t f with
  | Some _ => {| id := id f; fn := fn f; wait := wait f; pending := None |}
  | None => f
  end.

(** Modelled from the spec: a scheduled call that is due runs the function
    wrapped by [debounce], which is [inner], with its arguments. *)
Definition fire (t : Z) (h : Hook) (f : DebouncedFn) : Hook :=
  match due t f with
  | Some args => inner f args h
  | None => h
  end.

(** Modelled from the spec: the clock reaches [t]; every scheduled call
    that is due leaves its slot and runs its wrapped function.  Due calls
    are visited in the order in which their functions were created. *)
Definition advance (t : Z) (h : Hook) : Hook :=
  foldl (fire t)
        {| count := count h; memo := memo h; fns := expire t <$> fns h;
           now := Z.max (now h) t; invoked := invoked h |}
        (fns h).

(** What can happen to a hook instance: its owner renders, somebody calls
    one of the functions it ever returned, time passes. *)
Inductive Event :=
  | Render (fnArg : FnId) (changeDelay : Z) (deps : list Dep)
  | Call (handle : nat) (args : Args)
  | Advance (t : Z).

Definition step (h : Hook) (e : Event) : Hook :=
  match e with
  | Render fnArg changeDelay deps => fst (useDebounced fnArg changeDelay deps h)
  | Call handle args => call handle args h
  | Advance t => advance t h
  end.

Definition run (es : list Event) (h : Hook) : Hook := foldl step h es.

(** The function the last render returned. *)
Definition current (h : Hook) : option nat := snd <$> memo h.

(** A burst of calls of one debounced function, each at its own time. *)
Definition burst (handle : nat) (calls : list (Z * Args)) : list Event :=
  calls ≫= λ c, [Advance c.1; Call handle c.2].

(** Consecutive calls are less than [d] milliseconds apart, and none is
    earlier than [t0]. *)
Fixpoint closelySpaced (d t0 : Z) (calls : list (Z * Args)) : Prop :=
  match calls with
  | [] => True
  | c :: rest =>
      t0 ≤ c.1 ∧
      match rest with
      | [] => True
      | c' :: _ => c'.1 - c.1 < d
      end ∧
      closelySpaced d c.1 rest
  end.

(** Generations are handed out in order: the function at index [k] of the
    store carries id [k + 1], the counter is the number of functions created
    and the memo cell holds the youngest of them, under a dependency array
    that starts with the delay it was created with. *)
Record Inv (h : Hook) : Prop := mkInv {
  inv_count : count h = length (fns h);
  inv_ids : ∀ k f, fns h !! k = Some f → id f = S k;
  inv_current : current h =
                match length (fns h) with O => None | S k => Some k end;
  inv_memo : ∀ key k, memo h = Some (key, k) →
             ∃ f, fns h !! k = Some f ∧ head key = Some (inl (wait f))
}.

(** The invocations that one pass over the due timers of [l] appends when
    the counter is [c]. *)
Definition fired (t : Z) (c : nat) (l : list DebouncedFn) : list (FnId * Args) :=
  omap (λ f, if (id f =? c)%nat then (λ a, (fn f, a)) <$> due t f else None) l.

(** The hook's youngest function sits at index [k]; it has the closure
    bindings of [f0] and its scheduled call is [p]. *)
Record Armed (h : Hook) (k : nat) (f0 : DebouncedFn)
    (p : option (Z * Args)) : Prop := mkArmed {
  armed_inv : Inv h;
  armed_current : current h = Some k;
  armed_fn : fns h !! k =
             Some {| id := id f0; fn := fn f0; wait := wait f0; pending := p |}
}.

(** The scheduled call [p] is not yet due at time [t]. *)
Definition notDue (p : option (Z * Args)) (t : Z) : Prop :=
  match p with
  | Some (deadline, _) => t < deadline
  | None => True
  end.

(** An event that leaves the function of a render with delay [d] and
    dependencies [deps] in place: a call, the passing of time, or a render
    with the same delay and dependencies, whatever function it passes. *)
Definition keeps (d : Z) (deps : list Dep) (e : Event) : Prop :=
  match e with
  | Render _ d' deps' => d' = d ∧ deps' = deps
  | _ => True
  end.

(** The calls and clock ticks of a list of events. *)
Fixpoint withoutRenders (es : list Event) : list Event :=
  match es with
  | [] => []
  | Render _ _ _ :: rest => withoutRenders rest
  | e :: rest => e :: withoutRenders rest
  end.

(** The memo cell holds the function at index [k], created by a render
    that passed [fnArg], the delay [d] and the dependencies [deps]. *)
Record Bound (h : Hook) (k : nat) (fnArg : FnId) (d : Z) (deps : list Dep)
  : Prop := mkBound {
  bd_inv : Inv h;
  bd_memo : memo h = Some (inl d :: (inr <$> deps), k);
  bd_fn : ∃ f, fns h !! k = Some f ∧ fn f = fnArg ∧ wait f = d
}.

End Hook.

Arguments DebouncedFn : clear implicits.
Arguments Hook : clear implicits.
Arguments Event : clear implicits.

End DebounceGate.

(** ** The owner: the change handler of [EditorGuard] *)

Module EditorGuard.

(** What the handler sees of the base.  [cells] maps a record id and a field
    id to the cell's value as a string; a deleted record has no entry.
    [updates] lists the calls of [table.updateRecordAsync], oldest first, as
    (record id, field id, value). *)
Record Base := mkBase {
  cells : gmap string (gmap string string);
  updates : list (string * string * string)
}.

(** [record.getCellValueAsString(field)] for a text field, a method of the
    blocks SDK.  It throws for a deleted record; an empty cell reads as the
    empty string. *)
Definition getCellValueAsString (b : Base) (recordId fieldId : string)
  : option string :=
  match cells b !! recordId with
  | Some row => Some (default EmptyString (row !! fieldId))
  | None => None
  end.

(** [table.updateRecordAsync(record, {[field.id]: value})], a method of
    the blocks SDK: the request is recorded and applied to the local copy
    of the base at once. *)
Definition updateRecordAsync (b : Base) (recordId fieldId value : string)
  : Base :=
  {| cells := <[recordId := <[fieldId := value]> (default ∅ (cells b !! recordId))]>
                (cells b);
     updates := updates b ++ [(recordId, fieldId, value)] |}.

(** The function that [EditorGuard] hands to [useDebounced].
    [selectedRecord] and [selectedField] are the bindings of the render that
    created it; either may be [null], and then the call throws. *)
Definition onChange (selectedRecord selectedField : option string)
    (value : string) (b : Base) : option Base :=
  match selectedRecord, selectedField with
  | Some recordId, Some fieldId =>
      match getCellValueAsString b recordId fieldId with
      | Some current =>
          if String.eqb value current then Some b
          else Some (updateRecordAsync b recordId fieldId value)
      | None => None
      end
  | _, _ => None
  end.

End EditorGuard.

(** ** EditorSync: [loadMonacoAsync] and the [Monaco] component *)

Module Monaco.
Import MarkerDiff.

Definition FnId := nat.

(** The props of the component ([style] only reaches the rendered [Box]). *)
Record Props := mkProps {
  value : string;
  language : string;
  onChange : FnId;
  onLoad : FnId;
  onSyntaxError : FnId;
  readOnly : bool;
  renderSignal : Z
}.

(** Everything the component does to its surroundings, in order: calls of
    the owner's callbacks, resource fetches and calls into the widget
    library. *)
Inductive Action :=
  | OnLoad (f : FnId)
  | OnChange (f : FnId) (newValue : string)
  | OnSyntaxError (f : FnId) (errs : list Marker)
  | LoadCSS
  | LoadScript (n : nat)
  | EditorCreate (editorId : nat) (initial : string)
  | EditorSetValue (editorId : nat) (newValue : string)
  | EditorLayout (editorId : nat) (collapsed : bool)
  | EditorDispose (editorId : nat)
  | SetModelLanguage (editorId : nat) (lang : string)
  | UpdateOptions (editorId : nat) (ro : bool).

(** Process-wide state: whether [window.monaco] is defined, how many times
    [loadMonacoAsync] has been called, and the trace. *)
Record World := mkWorld {
  windowMonaco : bool;
  loadCalls : nat;
  trace : list Action
}.

(** One editor widget.  A listener is a subscription id with what its
    closure captured: the [onChange] prop for a content listener, the
    [errors] state for a decorations listener. *)
Record Editor := mkEditor {
  buffer : string;
  cursor : nat;
  modeId : string;
  readOnlyOption : bool;
  changeListeners : list (nat * FnId);
  decorationListeners : list (nat * list Marker);
  nextListener : nat;
  disposed : bool
}.

(** What one render sees: its props and the values of the three state
    hooks.  [editor] is an index into the instance's widgets; an [errors]
    array is compared by identity, which [r_errorsId] stands for. *)
Record Snapshot := mkSnapshot {
  r_props : Props;
  r_monaco : bool;
  r_editor : option nat;
  r_errors : list Marker;
  r_errorsId : nat
}.

(** One mounted component.  The [next*] fields are state updates queued by
    [setMonaco], [setEditor] and [setErrors] for the next render; [loading]
    holds, for each call of [loadMonacoAsync] that has not returned, the
    number of resources it has received; [prev] is the last committed
    render, against which dependency arrays are compared; the [*Cleanup]
    fields are what the cleanup functions of the last effects refer to. *)
Record Inst := mkInst {
  mounted : bool;
  monaco : bool;
  editor : option nat;
  errors : list Marker;
  errorsId : nat;
  rootRef : bool;
  valueRef : string;
  editors : list Editor;
  loading : list nat;
  prev : option Snapshot;
  createCleanup : option nat;
  changeCleanup : option (nat * nat);
  decorationsCleanup : option (nat * nat);
  nextMonaco : option bool;
  nextEditor : option nat;
  nextErrors : option (list Marker)
}.

Definition St : Type := Inst * World.

Definition log (a : Action) (w : World) : World :=
  {| windowMonaco := windowMonaco w; loadCalls := loadCalls w;
     trace := trace w ++ [a] |}.

Definition withInst (f : Inst → Inst) (s : St) : St := (f s.1, s.2).
Definition withWorld (f : World → World) (s : St) : St := (s.1, f s.2).

Definition setValueRef (v : string) (i : Inst) : Inst :=
  {| mounted := mounted i; monaco := monaco i; editor := editor i;
     errors := errors i; errorsId := errorsId i; rootRef := rootRef i;
     valueRef := v; editors := editors i; loading := loading i;
     prev := prev i; createCleanup := createCleanup i;
     changeCleanup := changeCleanup i;
     decorationsCleanup := decorationsCleanup i; nextMonaco := nextMonaco i;
     nextEditor := nextEditor i; nextErrors := nextErrors i |}.

Definition setEditors (l : list Editor) (i : Inst) : Inst :=
  {| mounted := mounted i; monaco := monaco i; editor := editor i;
     errors := errors i; errorsId := errorsId i; rootRef := rootRef i;
     valueRef := valueRef i; editors := l; loading := loading i;
     prev := prev i; createCleanup := createCleanup i;
     changeCleanup := changeCleanup i;
     decorationsCleanup := decorationsCleanup i; nextMonaco := nextMonaco i;
     nextEditor := nextEditor i; nextErrors := nextErrors i |}.

Definition setLoading (l : list nat) (i : Inst) : Inst :=
  {| mounted := mounted i; monaco := monaco i; editor := editor i;
     errors := errors i; errorsId := errorsId i; rootRef := rootRef i;
     valueRef := valueRef i; editors := editors i; loading := l;
     prev := prev i; createCleanup := createCleanup i;
     changeCleanup := changeCleanup i;
     decorationsCleanup := decorationsCleanup i; nextMonaco := nextMonaco i;
     nextEditor := nextEditor i; nextErrors := nextErrors i |}.

Definition setCreateCleanup (c : option nat) (i : Inst) : Inst :=
  {| mounted := mounted i; monaco := monaco i; editor := editor i;
     errors := errors i; errorsId := errorsId i; rootRef := rootRef i;
     valueRef := valueRef i; editors := editors i; loading := loading i;
     prev := prev i; createCleanup := c;
     changeCleanup := changeCleanup i;
     decorationsCleanup := decorationsCleanup i; nextMonaco := nextMonaco i;
     nextEditor := nextEditor i; nextErrors := nextErrors i |}.

Definition setChangeCleanup (c : option (nat * nat)) (i : Inst) : Inst :=
  {| mounted := mounted i; monaco := monaco i; editor := editor i;
     errors := errors i; errorsId := errorsId i; rootRef := rootRef i;
     valueRef := valueRef i; editors := editors i; loading := loading i;
     prev := prev i; createCleanup := createCleanup i;
     changeCleanup := c;
     decorationsCleanup := decorationsCleanup i; nextMonaco := nextMonaco i;
     nextEditor := nextEditor i; nextErrors := nextErrors i |}.

Definition setDecorationsCleanup (c : option (nat * nat)) (i : Inst) : Inst :=
  {| mounted := mounted i; monaco := monaco i; editor := editor i;
     errors := errors i; errorsId := errorsId i; rootRef := rootRef i;
     valueRef := valueRef i; editors := editors i; loading := loading i;
     prev := prev i; createCleanup := createCleanup i;
     changeCleanup := changeCleanup i;
     decorationsCleanup := c; nextMonaco := nextMonaco i;
     nextEditor := nextEditor i; nextErrors := nextErrors i |}.

(** [setMonaco(loaded)]: React drops an update to the value the state
    already has. *)
Definition setMonaco (loaded : bool) (i : Inst) : Inst :=
  if negb (mounted i) || Bool.eqb loaded (monaco i) then i else
  {| mounted := mounted i; monaco := monaco i; editor := editor i;
     errors := errors i; errorsId := errorsId i; rootRef := rootRef i;
     valueRef := valueRef i; editors := editors i; loading := loading i;
     prev := prev i; createCleanup := createCleanup i;
     changeCleanup := changeCleanup i;
     decorationsCleanup := decorationsCleanup i; nextMonaco := Some loaded;
     nextEditor := nextEditor i; nextErrors := nextErrors i |}.

(** [setEditor(newEditor)] with a widget that was just created. *)
Definition setEditor (k : nat) (i : Inst) : Inst :=
  if negb (mounted i) then i else
  {| mounted := mounted i; monaco := monaco i; editor := editor i;
     errors := errors i; errorsId := errorsId i; rootRef := rootRef i;
     valueRef := valueRef i; editors := editors i; loading := loading i;
     prev := prev i; createCleanup := createCleanup i;
     changeCleanup := changeCleanup i;
     decorationsCleanup := decorationsCleanup i; nextMonaco := nextMonaco i;
     nextEditor := Some k; nextErrors := nextErrors i |}.

(** [setErrors(newErrors)] with the fresh array of [getModelMarkers]. *)
Definition setErrors (newErrors : list Marker) (i : Inst) : Inst :=
  if negb (mounted i) then i else
  {| mounted := mounted i; monaco := monaco i; editor := editor i;
     errors := errors i; errorsId := errorsId i; rootRef := rootRef i;
     valueRef := valueRef i; editors := editors i; loading := loading i;
     prev := prev i; createCleanup := createCleanup i;
     changeCleanup := changeCleanup i;
     decorationsCleanup := decorationsCleanup i; nextMonaco := nextMonaco i;
     nextEditor := nextEditor i; nextErrors := Some newErrors |}.

(** *** The widget *)

(** [monaco.editor.create(rootRef.current, {scrollBeyondLastLine: false,
    value})]: a widget on a fresh model in the default language, with the
    cursor at the start. *)
Definition newEditor (initial : string) : Editor :=
  {| buffer := initial; cursor := 0; modeId := "plaintext";
     readOnlyOption := false; changeListeners := [];
     decorationListeners := []; nextListener := 0; disposed := false |}.

Definition alterEditor (k : nat) (f : Editor → Editor) (i : Inst) : Inst :=
  setEditors (alter f k (editors i)) i.

Definition writeBuffer (content : string) (pos : nat) (e : Editor) : Editor :=
  {| buffer := content; cursor := pos; modeId := modeId e;
     readOnlyOption := readOnlyOption e;
     changeListeners := changeListeners e;
     decorationListeners := decorationListeners e;
     nextListener := nextListener e; disposed := disposed e |}.

Definition writeModeId (lang : string) (e : Editor) : Editor :=
  {| buffer := buffer e; cursor := cursor e; modeId := lang;
     readOnlyOption := readOnlyOption e;
     changeListeners := changeListeners e;
     decorationListeners := decorationListeners e;
     nextListener := nextListener e; disposed := disposed e |}.

Definition writeReadOnly (ro : bool) (e : Editor) : Editor :=
  {| buffer := buffer e; cursor := cursor e; modeId := modeId e;
     readOnlyOption := ro;
     changeListeners := changeListeners e;
     decorationListeners := decorationListeners e;
     nextListener := nextListener e; disposed := disposed e |}.

(** [editor.onDidChangeModelContent(listener)] *)
Definition addChangeListener (cb : FnId) (e : Editor) : Editor :=
  {| buffer := buffer e; cursor := cursor e; modeId := modeId e;
     readOnlyOption := readOnlyOption e;
     changeListeners := changeListeners e ++ [(nextListener e, cb)];
     decorationListeners := decorationListeners e;
     nextListener := S (nextListener e); disposed := disposed e |}.

(** [editor.onDidChangeModelDecorations(listener)] *)
Definition addDecorationListener (captured : list Marker) (e : Editor)
  : Editor :=
  {| buffer := buffer e; cursor := cursor e; modeId := modeId e;
     readOnlyOption := readOnlyOption e;
     changeListeners := changeListeners e;
     decorationListeners :=
       decorationListeners e ++ [(nextListener e, captured)];
     nextListener := S (nextListener e); disposed := disposed e |}.

(** [subscription.dispose()] *)
Definition removeListener (sub : nat) (e : Editor) : Editor :=
  {| buffer := buffer e; cursor := cursor e; modeId := modeId e;
     readOnlyOption := readOnlyOption e;
     changeListeners :=
       filter (λ l, l.1 ≠ sub) (changeListeners e);
     decorationListeners :=
       filter (λ l, l.1 ≠ sub) (decorationListeners e);
     nextListener := nextListener e; disposed := disposed e |}.

(** [editor.dispose()] *)
Definition disposeEditor (e : Editor) : Editor :=
  {| buffer := buffer e; cursor := cursor e; modeId := modeId e;
     readOnlyOption := readOnlyOption e;
     changeListeners := []; decorationListeners := [];
     nextListener := nextListener e; disposed := true |}.

(** The listener of the third effect, as subscribed with [onChange = cb]:
    [const newValue = editor.getValue(); valueRef.current = newValue;
     onChange(newValue);] *)
Definition changeHandler (k : nat) (cb : FnId) (s : St) : St :=
  match editors s.1 !! k with
  | Some e => (setValueRef (buffer e) s.1, log (OnChange cb (buffer e)) s.2)
  | None => s
  end.

(** The widget tells its content listeners, in subscription order. *)
Definition emitChange (k : nat) (s : St) : St :=
  match editors s.1 !! k with
  | Some e => foldl (λ s l, changeHandler k l.2 s) s (changeListeners e)
  | None => s
  end.

(** [editor.setValue(v)]: the content is replaced, the cursor returns to
    the start and the content listeners are told. *)
Definition editorSetValue (k : nat) (v : string) (s : St) : St :=
  emitChange k
    (alterEditor k (writeBuffer v 0) s.1, log (EditorSetValue k v) s.2).

(** The listener of the fourth effect, as subscribed when the [errors]
    state was [captured]; [markers] is what
    [monaco.editor.getModelMarkers({owner: modeId})] returns at that
    moment.  A disposed widget has no model. *)
Definition decorationsHandler (k : nat) (captured markers : list Marker)
    (s : St) : St :=
  match editors s.1 !! k with
  | Some e =>
      if disposed e || negb (String.eqb (modeId e) "json") then s
      else match markersMatch captured markers with
           | Some false => withInst (setErrors markers) s
           | _ => s
           end
  | None => s
  end.

Definition emitDecorations (k : nat) (markers : list Marker) (s : St) : St :=
  match editors s.1 !! k with
  | Some e =>
      foldl (λ s l, decorationsHandler k l.2 markers s) s
            (decorationListeners e)
  | None => s
  end.

(** A keystroke in widget [k]: the widget changes its content and cursor
    and tells its content listeners.  A read-only or disposed widget takes
    no input. *)
Definition edit (k : nat) (content : string) (pos : nat) (s : St) : St :=
  match editors s.1 !! k with
  | Some e =>
      if disposed e || readOnlyOption e then s
      else emitChange k (alterEditor k (writeBuffer content pos) s.1, s.2)
  | None => s
  end.

(** *** [loadMonacoAsync] *)

(** The call itself runs up to the first [await]: the style sheet is
    requested.  (The assignment to [window.require] only configures the
    loader.) *)
Definition loadMonacoAsync (s : St) : St :=
  (setLoading (loading s.1 ++ [0%nat]) s.1,
   {| windowMonaco := windowMonaco s.2; loadCalls := S (loadCalls s.2);
      trace := trace s.2 ++ [LoadCSS] |}).

(** The resource awaited by the [j]-th unfinished call arrives.  After the
    style sheet come [loader.js], [editor.main.nls.js] and [editor.main.js];
    the last one defines [window.monaco], the call returns it and the
    [then] callback passes it to [setMonaco]. *)
Definition resourceLoaded (j : nat) (s : St) : St :=
  match loading s.1 !! j with
  | Some 3%nat =>
      (setMonaco true (setLoading (delete j (loading s.1)) s.1),
       {| windowMonaco := true; loadCalls := loadCalls s.2;
          trace := trace s.2 |})
  | Some stage =>
      (setLoading (<[j := S stage]> (loading s.1)) s.1,
       log (LoadScript stage) s.2)
  | None => s
  end.

(** *** The effects of the component, in source order *)

(** First effect, dependencies [[monaco, onLoad]]. *)
Definition loadEffect (r : Snapshot) (s : St) : St :=
  if r_monaco r then withWorld (log (OnLoad (onLoad (r_props r)))) s
  else loadMonacoAsync s.

(** Second effect, dependencies [[monaco]]: create the widget from
    [valueRef.current] and keep it with [setEditor]; the cleanup disposes
    of it. *)
Definition createEffect (r : Snapshot) (s : St) : St :=
  if negb (r_monaco r) || negb (rootRef s.1) then
    withInst (setCreateCleanup None) s
  else
    let k := length (editors s.1) in
    (setCreateCleanup (Some k)
       (setEditor k
          (setEditors (editors s.1 ++ [newEditor (valueRef s.1)]) s.1)),
     log (EditorCreate k (valueRef s.1)) s.2).

Definition createCleanupRun (s : St) : St :=
  match createCleanup s.1 with
  | Some k => (alterEditor k disposeEditor s.1, log (EditorDispose k) s.2)
  | None => s
  end.

(** Third effect, dependencies [[editor, monaco, onChange]]. *)
Definition changeEffect (r : Snapshot) (s : St) : St :=
  match r_editor r with
  | Some k =>
      if negb (r_monaco r) then withInst (setChangeCleanup None) s
      else
        let sub := default 0%nat (nextListener <$> editors s.1 !! k) in
        withInst
          (λ i, setChangeCleanup (Some (k, sub))
                  (alterEditor k (addChangeListener (onChange (r_props r))) i))
          s
  | None => withInst (setChangeCleanup None) s
  end.

Definition changeCleanupRun (s : St) : St :=
  match changeCleanup s.1 with
  | Some (k, sub) => withInst (alterEditor k (removeListener sub)) s
  | None => s
  end.

(** Fourth effect, dependencies [[editor, monaco, errors]]. *)
Definition decorationsEffect (r : Snapshot) (s : St) : St :=
  match r_editor r with
  | Some k =>
      if negb (r_monaco r) then withInst (setDecorationsCleanup None) s
      else
        let sub := default 0%nat (nextListener <$> editors s.1 !! k) in
        withInst
          (λ i, setDecorationsCleanup (Some (k, sub))
                  (alterEditor k (addDecorationListener (r_errors r)) i))
          s
  | None => withInst (setDecorationsCleanup None) s
  end.

Definition decorationsCleanupRun (s : St) : St :=
  match decorationsCleanup s.1 with
  | Some (k, sub) => withInst (alterEditor k (removeListener sub)) s
  | None => s
  end.

(** Fifth effect, dependencies [[errors, onSyntaxError]]. *)
Definition syntaxErrorEffect (r : Snapshot) (s : St) : St :=
  withWorld (log (OnSyntaxError (onSyntaxError (r_props r)) (r_errors r))) s.

(** Sixth effect, dependencies [[editor, renderSignal]]:
    [editor.layout({height: 0, width: 0}); editor.layout();] *)
Definition layoutEffect (r : Snapshot) (s : St) : St :=
  match r_editor r with
  | Some k =>
      withWorld (λ w, log (EditorLayout k false) (log (EditorLayout k true) w)) s
  | None => s
  end.

(** The layout effect, dependencies [[editor, value]]: the external value
    reaches the widget unless it is what [valueRef.current] holds. *)
Definition syncEffect (r : Snapshot) (s : St) : St :=
  match r_editor r with
  | Some k =>
      if String.eqb (valueRef s.1) (value (r_props r)) then s
      else editorSetValue k (value (r_props r)) s
  | None => s
  end.

(** Eighth effect, dependencies [[editor, monaco, language]]. *)
Definition languageEffect (r : Snapshot) (s : St) : St :=
  match r_editor r with
  | Some k =>
      if negb (r_monaco r) then s
      else (alterEditor k (writeModeId (language (r_props r))) s.1,
            log (SetModelLanguage k (language (r_props r))) s.2)
  | None => s
  end.

(** Ninth effect, dependencies [[editor, readOnly]]. *)
Definition readOnlyEffect (r : Snapshot) (s : St) : St :=
  match r_editor r with
  | Some k =>
      (alterEditor k (writeReadOnly (readOnly (r_props r))) s.1,
       log (UpdateOptions k (readOnly (r_props r))) s.2)
  | None => s
  end.

(** *** Rendering *)

(** The dependency arrays. *)
Definition depsLoad (r : Snapshot) := (r_monaco r, onLoad (r_props r)).
Definition depsCreate (r : Snapshot) := r_monaco r.
Definition depsChange (r : Snapshot) :=
  (r_editor r, r_monaco r, onChange (r_props r)).
Definition depsDecorations (r : Snapshot) :=
  (r_editor r, r_monaco r, r_errorsId r).
Definition depsSyntaxError (r : Snapshot) :=
  (r_errorsId r, onSyntaxError (r_props r)).
Definition depsLayout (r : Snapshot) := (r_editor r, renderSignal (r_props r)).
Definition depsSync (r : Snapshot) := (r_editor r, value (r_props r)).
Definition depsLanguage (r : Snapshot) :=
  (r_editor r, r_monaco r, language (r_props r)).
Definition depsReadOnly (r : Snapshot) := (r_editor r, readOnly (r_props r)).

(** An effect runs at the first render and whenever one of its
    dependencies differs from the previous render's. *)
Definition changed {A} `{EqDecision A} (deps : Snapshot → A)
    (old : option Snapshot) (cur : Snapshot) : bool :=
  match old with
  | Some r => negb (bool_decide (deps r = deps cur))
  | None => true
  end.

Definition when (b : bool) (f : St → St) (s : St) : St :=
  if b then f s else s.

(** The queued state updates take effect, and the anchor element is
    attached to [rootRef] before any effect runs. *)
Definition applyQueued (i : Inst) : Inst :=
  {| mounted := mounted i;
     monaco := default (monaco i) (nextMonaco i);
     editor := match nextEditor i with Some k => Some k | None => editor i end;
     errors := default (errors i) (nextErrors i);
     errorsId := match nextErrors i with
                 | Some _ => S (errorsId i)
                 | None => errorsId i
                 end;
     rootRef := true; valueRef := valueRef i; editors := editors i;
     loading := loading i; prev := prev i;
     createCleanup := createCleanup i; changeCleanup := changeCleanup i;
     decorationsCleanup := decorationsCleanup i;
     nextMonaco := None; nextEditor := None; nextErrors := None |}.

Definition snapshot (p : Props) (i : Inst) : Snapshot :=
  {| r_props := p; r_monaco := monaco i; r_editor := editor i;
     r_errors := errors i; r_errorsId := errorsId i |}.

Definition setPrev (r : Snapshot) (i : Inst) : Inst :=
  {| mounted := mounted i; monaco := monaco i; editor := editor i;
     errors := errors i; errorsId := errorsId i; rootRef := rootRef i;
     valueRef := valueRef i; editors := editors i; loading := loading i;
     prev := Some r; createCleanup := createCleanup i;
     changeCleanup := changeCleanup i;
     decorationsCleanup := decorationsCleanup i; nextMonaco := nextMonaco i;
     nextEditor := nextEditor i; nextErrors := nextErrors i |}.

(** The commit of one render: the layout effect, then the cleanups of the
    passive effects whose dependencies changed, then their bodies, each
    group in source order. *)
Definition commit (old : option Snapshot) (cur : Snapshot) (s : St) : St :=
  let s := when (changed depsSync old cur) (syncEffect cur) s in
  let s := when (changed depsCreate old cur) createCleanupRun s in
  let s := when (changed depsChange old cur) changeCleanupRun s in
  let s := when (changed depsDecorations old cur) decorationsCleanupRun s in
  let s := when (changed depsLoad old cur) (loadEffect cur) s in
  let s := when (changed depsCreate old cur) (createEffect cur) s in
  let s := when (changed depsChange old cur) (changeEffect cur) s in
  let s := when (changed depsDecorations old cur) (decorationsEffect cur) s in
  let s := when (changed depsSyntaxError old cur) (syntaxErrorEffect cur) s in
  let s := when (changed depsLayout old cur) (layoutEffect cur) s in
  let s := when (changed depsLanguage old cur) (languageEffect cur) s in
  let s := when (changed depsReadOnly old cur) (readOnlyEffect cur) s in
  withInst (setPrev cur) s.

(** One render of a mounted component with props [p]. *)
Definition render (p : Props) (s : St) : St :=
  if negb (mounted s.1) then s
  else
    let i := applyQueued s.1 in
    commit (prev i) (snapshot p i) (i, s.2).

Definition dirty (i : Inst) : bool :=
  bool_decide (is_Some (nextMonaco i)) || bool_decide (is_Some (nextEditor i))
  || bool_decide (is_Some (nextErrors i)).

(** React renders again, with the props of the last render, as long as a
    state update is queued. *)
Fixpoint flush (fuel : nat) (s : St) : St :=
  match fuel with
  | O => s
  | S fuel' =>
      match prev s.1 with
      | Some r => if dirty s.1 then flush fuel' (render (r_props r) s) else s
      | None => s
      end
  end.

(** No sequence of state updates of this component is longer than two
    renders (the library arrives, then the widget is created). *)
Definition settle (s : St) : St := flush 4 s.

(** The first render: [useState(window.monaco)], [useState(null)],
    [useState([])], [useRef(null)] and [useRef(value)]. *)
Definition initial (p : Props) (w : World) : Inst :=
  {| mounted := true; monaco := windowMonaco w; editor := None;
     errors := []; errorsId := 0; rootRef := false; valueRef := value p;
     editors := []; loading := []; prev := None; createCleanup := None;
     changeCleanup := None; decorationsCleanup := None;
     nextMonaco := None; nextEditor := None; nextErrors := None |}.

Definition mount (p : Props) (w : World) : St :=
  settle (render p (initial p w, w)).

Definition setUnmounted (i : Inst) : Inst :=
  {| mounted := false; monaco := monaco i; editor := editor i;
     errors := errors i; errorsId := errorsId i; rootRef := false;
     valueRef := valueRef i; editors := editors i; loading := loading i;
     prev := prev i; createCleanup := None; changeCleanup := None;
     decorationsCleanup := None; nextMonaco := None; nextEditor := None;
     nextErrors := None |}.

(** Unmounting runs the cleanup of every effect. *)
Definition unmount (s : St) : St :=
  if negb (mounted s.1) then s
  else withInst setUnmounted
         (decorationsCleanupRun (changeCleanupRun (createCleanupRun s))).

(** What can happen to a mounted component. *)
Inductive Event :=
  | Rerender (p : Props)
  | ResourceLoaded (j : nat)
  | Edit (k : nat) (content : string) (pos : nat)
  | Decorations (k : nat) (markers : list Marker)
  | Unmount.

Definition step (s : St) (e : Event) : St :=
  match e with
  | Rerender p => settle (render p s)
  | ResourceLoaded j => settle (resourceLoaded j s)
  | Edit k content pos => settle (edit k content pos s)
  | Decorations k markers => settle (emitDecorations k markers s)
  | Unmount => unmount s
  end.

Definition run (es : list Event) (s : St) : St := foldl step s es.

(** The state of a component that mounted with props [p] in [w] and then
    went through the events [es]. *)
Definition execution (p : Props) (w : World) (es : list Event) : St :=
  run es (mount p w).

(** The owner passes another [value], or another [onLoad] function, and
    keeps the other props. *)
Definition withValue (v : string) (p : Props) : Props :=
  {| value := v; language := language p; onChange := onChange p;
     onLoad := onLoad p; onSyntaxError := onSyntaxError p;
     readOnly := readOnly p; renderSignal := renderSignal p |}.

Definition withOnLoad (f : FnId) (p : Props) : Props :=
  {| value := value p; language := language p; onChange := onChange p;
     onLoad := f; onSyntaxError := onSyntaxError p;
     readOnly := readOnly p; renderSignal := renderSignal p |}.

(** *** What the properties observe *)

(** The callbacks that [onLoad] invocations of a trace went to, and the
    widgets a trace created, with their initial content. *)
Definition onLoads (t : list Action) : list FnId :=
  omap (λ a, match a with OnLoad f => Some f | _ => None end) t.

Definition creates (t : list Action) : list (nat * string) :=
  omap (λ a, match a with EditorCreate k v => Some (k, v) | _ => None end) t.

(** The part of a state that the lifecycle depends on. *)
Record View := mkView {
  v_mounted : bool;
  v_monaco : bool;
  v_prev : option Snapshot;
  v_nextMonaco : option bool;
  v_nextEditor : option nat;
  v_nextErrors : option (list Marker);
  v_rootRef : bool;
  v_valueRef : string;
  v_size : nat;
  v_loadCalls : nat;
  v_onLoads : list FnId;
  v_creates : list (nat * string)
}.

Definition view (s : St) : View :=
  {| v_mounted := mounted s.1; v_monaco := monaco s.1; v_prev := prev s.1;
     v_nextMonaco := nextMonaco s.1; v_nextEditor := nextEditor s.1;
     v_nextErrors := nextErrors s.1; v_rootRef := rootRef s.1;
     v_valueRef := valueRef s.1; v_size := length (editors s.1);
     v_loadCalls := loadCalls s.2; v_onLoads := onLoads (trace s.2);
     v_creates := creates (trace s.2) |}.

Definition viewValueRef (x : string) (v : View) : View :=
  {| v_mounted := v_mounted v; v_monaco := v_monaco v; v_prev := v_prev v;
     v_nextMonaco := v_nextMonaco v; v_nextEditor := v_nextEditor v;
     v_nextErrors := v_nextErrors v; v_rootRef := v_rootRef v;
     v_valueRef := x; v_size := v_size v;
     v_loadCalls := v_loadCalls v; v_onLoads := v_onLoads v;
     v_creates := v_creates v |}.

Definition viewPrev (r : Snapshot) (v : View) : View :=
  {| v_mounted := v_mounted v; v_monaco := v_monaco v; v_prev := Some r;
     v_nextMonaco := v_nextMonaco v; v_nextEditor := v_nextEditor v;
     v_nextErrors := v_nextErrors v; v_rootRef := v_rootRef v;
     v_valueRef := v_valueRef v; v_size := v_size v;
     v_loadCalls := v_loadCalls v; v_onLoads := v_onLoads v;
     v_creates := v_creates v |}.

(** The first effect, on the view. *)
Definition viewLoad (r : Snapshot) (v : View) : View :=
  {| v_mounted := v_mounted v; v_monaco := v_monaco v; v_prev := v_prev v;
     v_nextMonaco := v_nextMonaco v; v_nextEditor := v_nextEditor v;
     v_nextErrors := v_nextErrors v; v_rootRef := v_rootRef v;
     v_valueRef := v_valueRef v; v_size := v_size v;
     v_loadCalls := if r_monaco r then v_loadCalls v else S (v_loadCalls v);
     v_onLoads := if r_monaco r then v_onLoads v ++ [onLoad (r_props r)]
                  else v_onLoads v;
     v_creates := v_creates v |}.

(** The second effect, on the view. *)
Definition viewCreate (r : Snapshot) (v : View) : View :=
  if negb (r_monaco r) || negb (v_rootRef v) then v
  else
    {| v_mounted := v_mounted v; v_monaco := v_monaco v; v_prev := v_prev v;
       v_nextMonaco := v_nextMonaco v;
       v_nextEditor := if v_mounted v then Some (v_size v)
                       else v_nextEditor v;
       v_nextErrors := v_nextErrors v; v_rootRef := v_rootRef v;
       v_valueRef := v_valueRef v; v_size := S (v_size v);
       v_loadCalls := v_loadCalls v; v_onLoads := v_onLoads v;
       v_creates := v_creates v ++ [(v_size v, v_valueRef v)] |}.

Definition viewNextMonaco (x : option bool) (v : View) : View :=
  {| v_mounted := v_mounted v; v_monaco := v_monaco v; v_prev := v_prev v;
     v_nextMonaco := x; v_nextEditor := v_nextEditor v;
     v_nextErrors := v_nextErrors v; v_rootRef := v_rootRef v;
     v_valueRef := v_valueRef v; v_size := v_size v;
     v_loadCalls := v_loadCalls v; v_onLoads := v_onLoads v;
     v_creates := v_creates v |}.

Definition viewNextErrors (x : option (list Marker)) (v : View) : View :=
  {| v_mounted := v_mounted v; v_monaco := v_monaco v; v_prev := v_prev v;
     v_nextMonaco := v_nextMonaco v; v_nextEditor := v_nextEditor v;
     v_nextErrors := x; v_rootRef := v_rootRef v;
     v_valueRef := v_valueRef v; v_size := v_size v;
     v_loadCalls := v_loadCalls v; v_onLoads := v_onLoads v;
     v_creates := v_creates v |}.

(** [applyQueued], on the view. *)
Definition viewQueued (v : View) : View :=
  {| v_mounted := v_mounted v;
     v_monaco := default (v_monaco v) (v_nextMonaco v);
     v_prev := v_prev v;
     v_nextMonaco := None; v_nextEditor := None; v_nextErrors := None;
     v_rootRef := true; v_valueRef := v_valueRef v; v_size := v_size v;
     v_loadCalls := v_loadCalls v; v_onLoads := v_onLoads v;
     v_creates := v_creates v |}.

(** [setUnmounted], on the view. *)
Definition viewUnmounted (v : View) : View :=
  {| v_mounted := false; v_monaco := v_monaco v; v_prev := v_prev v;
     v_nextMonaco := None; v_nextEditor := None; v_nextErrors := None;
     v_rootRef := false; v_valueRef := v_valueRef v; v_size := v_size v;
     v_loadCalls := v_loadCalls v; v_onLoads := v_onLoads v;
     v_creates := v_creates v |}.

(** The library never goes away: a queued [setMonaco] can only announce
    it, and the [monaco] state is the one of the last commit. *)
Record MonacoSound (v : View) : Prop := mkMonacoSound {
  ms_next : v_nextMonaco v = None ∨ v_nextMonaco v = Some true;
  ms_prev : ∀ r, v_prev v = Some r → r_monaco r = v_monaco v
}.

(** Readiness has been signalled to [f], once, exactly if the component has
    the library; [before] is what the trace held at mount. *)
Record ReadyOnce (f : FnId) (before : list FnId) (v : View) : Prop :=
  mkReadyOnce {
  ro_sound : MonacoSound v;
  ro_prev : ∃ r, v_prev v = Some r ∧ onLoad (r_props r) = f;
  ro_onLoads : v_onLoads v = before ++ if v_monaco v then [f] else []
}.

(** Until a widget exists [valueRef.current] is the [value] prop of the
    first render, [initialValue]; the only widget ever created is seeded
    with it, and with a widget the component has the library for good. *)
Record SeededAtMount (initialValue : string) (before : list (nat * string))
    (v : View) : Prop := mkSeededAtMount {
  sm_sound : MonacoSound v;
  sm_creates : v_creates v =
               before ++ match v_size v with
                         | O => []
                         | S _ => [(0%nat, initialValue)]
                         end;
  sm_valueRef : v_size v = 0%nat → v_valueRef v = initialValue;
  sm_monaco : v_size v ≠ 0%nat → v_monaco v = true ∧ is_Some (v_prev v)
}.

(** Between the renders that React adds on its own, with the props of the
    previous render and no [setMonaco] queued, nothing calls
    [loadMonacoAsync] and the [monaco] state stays: the count is [n] and
    the state is [m]. *)
Record LoadsKept (n : nat) (m : bool) (v : View) : Prop := mkLoadsKept {
  lk_next : v_nextMonaco v = None;
  lk_prev : ∃ r, v_prev v = Some r ∧ r_monaco r = m;
  lk_monaco : v_monaco v = m;
  lk_loadCalls : v_loadCalls v = n
}.

(** No state update is queued. *)
Definition clean (v : View) : Prop :=
  v_nextMonaco v = None ∧ v_nextEditor v = None ∧ v_nextErrors v = None.

(** The component has rendered, and its [monaco] state is the one of its
    last commit. *)
Definition Committed (v : View) : Prop :=
  ∃ r, v_prev v = Some r ∧ r_monaco r = v_monaco v.

(** *** The wiring of the widget *)

(** An instance without what the effects of a commit rewrite: the contents
    of its widgets, [valueRef.current], the unfinished loads and the
    subscriptions its cleanups refer to. *)
Definition skeleton (i : Inst) : Inst :=
  {| mounted := mounted i; monaco := monaco i; editor := editor i;
     errors := errors i; errorsId := errorsId i; rootRef := rootRef i;
     valueRef := ""; editors := []; loading := [];
     prev := prev i; createCleanup := createCleanup i;
     changeCleanup := None; decorationsCleanup := None;
     nextMonaco := nextMonaco i; nextEditor := nextEditor i;
     nextErrors := nextErrors i |}.

(** Widget [k] is in use, with read-only option [ro], content listeners
    [lc], decoration listeners [ld] and [n] as its next subscription id. *)
Definition widgetAt (k : nat) (ro : bool) (lc : list (nat * FnId))
    (ld : list (nat * list Marker)) (n : nat) (i : Inst) : Prop :=
  ∃ e, editors i !! k = Some e ∧ disposed e = false ∧
       readOnlyOption e = ro ∧ changeListeners e = lc ∧
       decorationListeners e = ld ∧ nextListener e = n.

(** Two instances differ at most in [valueRef.current] and in their
    unfinished loads. *)
Definition sameWiring (i i' : Inst) : Prop :=
  skeleton i' = skeleton i ∧ editors i' = editors i ∧
  changeCleanup i' = changeCleanup i ∧
  decorationsCleanup i' = decorationsCleanup i.

(** The state of the wiring in the middle of a commit. *)
Record Wired (sk : Inst) (k : nat) (ro : bool) (lc : list (nat * FnId))
    (ld : list (nat * list Marker)) (n : nat) (cc dc : option (nat * nat))
    (i : Inst) : Prop := mkWired {
  wd_skeleton : skeleton i = sk;
  wd_widget : widgetAt k ro lc ld n i;
  wd_change : changeCleanup i = cc;
  wd_decorations : decorationsCleanup i = dc
}.

(** The component is mounted, has rendered with props [p] and drives
    widget [k]: the widget has exactly one content listener, which calls
    the [onChange] of [p], and exactly one decoration listener, which holds
    the [errors] state.  Nothing is queued, except [queued] by
    [setErrors]. *)
Record Live (p : Props) (k : nat) (queued : option (list Marker))
    (i : Inst) : Prop := mkLive {
  lv_mounted : mounted i = true;
  lv_monaco : monaco i = true;
  lv_editor : editor i = Some k;
  lv_rootRef : rootRef i = true;
  lv_prev : prev i = Some (snapshot p i);
  lv_nextMonaco : nextMonaco i = None;
  lv_nextEditor : nextEditor i = None;
  lv_nextErrors : nextErrors i = queued;
  lv_wired : ∃ c d n,
      c ≠ d ∧ (c < n)%nat ∧ (d < n)%nat ∧
      widgetAt k (readOnly p) [(c, onChange p)] [(d, errors i)] n i ∧
      changeCleanup i = Some (k, c) ∧ decorationsCleanup i = Some (k, d)
}.

(** The component is mounted, has rendered with props [p] and has neither
    the library nor a widget.  [arriving] tells whether [setMonaco] is
    queued. *)
Record Waiting (p : Props) (arriving : bool) (i : Inst) : Prop := mkWaiting {
  wt_mounted : mounted i = true;
  wt_monaco : monaco i = false;
  wt_editor : editor i = None;
  wt_rootRef : rootRef i = true;
  wt_prev : prev i = Some (snapshot p i);
  wt_nextMonaco : nextMonaco i = if arriving then Some true else None;
  wt_nextEditor : nextEditor i = None;
  wt_nextErrors : nextErrors i = None;
  wt_editors : editors i = [];
  wt_change : changeCleanup i = None;
  wt_decorations : decorationsCleanup i = None
}.

(** The component has rendered with props [p] and just created its
    widget; [setEditor] is queued. *)
Record Created (p : Props) (i : Inst) : Prop := mkCreated {
  cr_mounted : mounted i = true;
  cr_monaco : monaco i = true;
  cr_editor : editor i = None;
  cr_rootRef : rootRef i = true;
  cr_prev : prev i = Some (snapshot p i);
  cr_nextMonaco : nextMonaco i = None;
  cr_nextEditor : nextEditor i = Some 0%nat;
  cr_nextErrors : nextErrors i = None;
  cr_editors : ∃ v, editors i = [newEditor v];
  cr_change : changeCleanup i = None;
  cr_decorations : decorationsCleanup i = None
}.

(** A mounted component without a widget in use, in the middle of a
    commit: [m] is its [monaco] state, [es] its widgets, [ne] the queued
    [setEditor]. *)
Record Bare (m : bool) (es : list Editor) (ne : option nat) (i : Inst)
  : Prop := mkBare {
  br_mounted : mounted i = true;
  br_monaco : monaco i = m;
  br_editor : editor i = None;
  br_rootRef : rootRef i = true;
  br_nextMonaco : nextMonaco i = None;
  br_nextEditor : nextEditor i = ne;
  br_nextErrors : nextErrors i = None;
  br_editors : editors i = es;
  br_change : changeCleanup i = None;
  br_decorations : decorationsCleanup i = None
}.

(** Where a component can be between two events. *)
Definition Phase (i : Inst) : Prop :=
  mounted i = false ∨ ∃ p, Waiting p false i ∨ ∃ k, Live p k None i.

(** The renders of an execution keep passing the same [onLoad] function. *)
Definition keepsOnLoad (f : FnId) (e : Event) : Prop :=
  match e with
  | Rerender p => onLoad p = f
  | _ => True
  end.

End Monaco.

(** ** What a component shows to the outside *)

Module Observation.
Import MarkerDiff Monaco.

(** What a widget shows: its content, its cursor position and the language
    of its model. *)
Definition face (e : Editor) : string * nat * string :=
  (buffer e, cursor e, modeId e).

(** What can be seen of a component from outside: the trace, the content
    of [valueRef] and the faces of its widgets. *)
Record Obs := mkObs {
  o_trace : list Action;
  o_valueRef : string;
  o_faces : list (string * nat * string)
}.

Definition obs (s : St) : Obs :=
  {| o_trace := trace s.2; o_valueRef := valueRef s.1;
     o_faces := face <$> editors s.1 |}.

Definition obsLog (l : list Action) (o : Obs) : Obs :=
  {| o_trace := o_trace o ++ l; o_valueRef := o_valueRef o;
     o_faces := o_faces o |}.

(** The layout effect on widget [k], whose content listeners call [cbs]. *)
Definition obsSync (k : nat) (v : string) (cbs : list FnId) (o : Obs) : Obs :=
  if String.eqb (o_valueRef o) v then o
  else {| o_trace := o_trace o ++ EditorSetValue k v :: ((λ cb, OnChange cb v) <$> cbs);
          o_valueRef := match cbs with [] => o_valueRef o | _ :: _ => v end;
          o_faces := alter (λ x, (v, 0%nat, x.2)) k (o_faces o) |}.

Definition obsLanguage (k : nat) (lang : string) (o : Obs) : Obs :=
  {| o_trace := o_trace o ++ [SetModelLanguage k lang];
     o_valueRef := o_valueRef o;
     o_faces := alter (λ x, (x.1, lang)) k (o_faces o) |}.

(** The second effect, when it creates a widget. *)
Definition obsCreate (o : Obs) : Obs :=
  {| o_trace := o_trace o ++ [EditorCreate (length (o_faces o)) (o_valueRef o)];
     o_valueRef := o_valueRef o;
     o_faces := o_faces o ++ [(o_valueRef o, 0%nat, "plaintext")] |}.

Definition obsWhen (b : bool) (f : Obs → Obs) (o : Obs) : Obs :=
  if b then f o else o.

(** The widget in use is the only one the component has, the second
    effect's cleanup refers to it and its model has the language of the
    last render. *)
Record Tuned (p : Props) (k : nat) (i : Inst) : Prop := mkTuned {
  tn_only : length (editors i) = 1%nat;
  tn_first : k = 0%nat;
  tn_mode : modeId <$> editors i !! k = Some (language p);
  tn_cleanup : createCleanup i = Some k
}.

(** A widget that has been disposed of. *)
Definition gone (e : Editor) : Prop :=
  disposed e = true ∧ changeListeners e = [] ∧ decorationListeners e = [].

(** Where a component can be between two events, in full. *)
Definition Settled (i : Inst) : Prop :=
  (mounted i = false ∧ Forall gone (editors i)) ∨
  ∃ p, (Waiting p false i ∧ createCleanup i = None) ∨
       ∃ k, Live p k None i ∧ Tuned p k i.

(** What a re-render from props [p] to props [p'] adds to the trace of a
    component that drives widget [k], when [valueRef.current] holds [ref]
    and the [errors] state is [errs]: the operations of the effects with a
    changed dependency, the layout effect first. *)
Definition rerenderTrace (k : nat) (ref : string) (errs : list Marker)
    (p p' : Props) : list Action :=
  (if bool_decide (value p = value p') || String.eqb ref (value p') then []
   else [EditorSetValue k (value p'); OnChange (onChange p) (value p')]) ++
  (if bool_decide (onLoad p = onLoad p') then []
   else [OnLoad (onLoad p')]) ++
  (if bool_decide (onSyntaxError p = onSyntaxError p') then []
   else [OnSyntaxError (onSyntaxError p') errs]) ++
  (if bool_decide (renderSignal p = renderSignal p') then []
   else [EditorLayout k true; EditorLayout k false]) ++
  (if bool_decide (language p = language p') then []
   else [SetModelLanguage k (language p')]) ++
  (if bool_decide (readOnly p = readOnly p') then []
   else [UpdateOptions k (readOnly p')]).


End Observation.

(** ** The render signal: [useRenderSignal] *)

Module RenderSignal.

(** The state hook of [useRenderSignal]: its value and the updater
    functions that [setValue] has queued for the next render.  The value is
    a JavaScript number that starts at 0 and only grows by one; such
    additions are exact below 2^53, a number of renders that no session
    reaches, and the model does not bound it. *)
Record Hook := mkHook {
  value : Z;
  queued : list (Z → Z)
}.

(** [useState(0)] at the first render. *)
Definition init : Hook := {| value := 0; queued := [] |}.

(** [forceRerender]: [setValue(v => v + 1)]. *)
Definition forceRerender (h : Hook) : Hook :=
  {| value := value h; queued := queued h ++ [λ v, v + 1] |}.

(** A render: React applies the queued updaters in the order of the calls;
    the hook returns the resulting value (with [forceRerender], whose
    identity [useCallback] keeps). *)
Definition render (h : Hook) : Hook :=
  {| value := foldl (λ v f, f v) (value h) (queued h); queued := [] |}.

Inductive Event :=
  | Force
  | Render.

Definition step (h : Hook) (e : Event) : Hook :=
  match e with
  | Force => forceRerender h
  | Render => render h
  end.

Definition run (es : list Event) (h : Hook) : Hook := foldl step h es.

(** The number of [forceRerender] calls among the events. *)
Fixpoint forces (es : list Event) : nat :=
  match es with
  | [] => 0
  | Force :: es => S (forces es)
  | Render :: es => forces es
  end.

End RenderSignal.

(** ** The application component: [JsonEditorApp] *)

Module JsonEditorApp.

(** What the watch callbacks read of the cursor. *)
Record Cursor := mkCursor {
  selectedRecordIds : list string;
  selectedFieldIds : list string
}.

(** The two state hooks; [None] is [null]. *)
Record State := mkState {
  selectedRecordId : option string;
  selectedFieldId : option string
}.

(** [useState(null)], twice. *)
Definition initial : State :=
  {| selectedRecordId := None; selectedFieldId := None |}.

(** The callback of the watch on [selectedRecordIds] and
    [selectedFieldIds]. *)
Definition onSelectionChange (c : Cursor) (s : State) : State :=
  {| selectedRecordId :=
       match selectedRecordIds c with
       | id :: _ => Some id
       | [] => selectedRecordId s
       end;
     selectedFieldId :=
       match selectedFieldIds c with
       | id :: _ => Some id
       | [] => selectedFieldId s
       end |}.

(** The callback of the watch on [activeTableId] and [activeViewId]. *)
Definition onActiveChange (s : State) : State :=
  {| selectedRecordId := None; selectedFieldId := None |}.

Inductive Event :=
  | SelectionChanged (c : Cursor)
  | ActiveChanged.

Definition step (s : State) (e : Event) : State :=
  match e with
  | SelectionChanged c => onSelectionChange c s
  | ActiveChanged => onActiveChange s
  end.

Definition run (es : list Event) (s : State) : State := foldl step s es.

(** What the component renders: nothing while the active table does not
    exist, otherwise [EditorGuard] with the table and the cached ids. *)
Definition render {Table} (table : option Table) (s : State)
  : option (Table * option string * option string) :=
  match table with
  | Some t => Some (t, selectedRecordId s, selectedFieldId s)
  | None => None
  end.

(** A selection event that names no record, and one that names no
    field. *)
Definition keepsRecord (e : Event) : Prop :=
  match e with
  | SelectionChanged c => selectedRecordIds c = []
  | ActiveChanged => False
  end.

Definition keepsField (e : Event) : Prop :=
  match e with
  | SelectionChanged c => selectedFieldIds c = []
  | ActiveChanged => False
  end.

(** A selection event that names neither. *)
Definition selectsNothing (e : Event) : Prop :=
  match e with
  | SelectionChanged c => selectedRecordIds c = [] ∧ selectedFieldIds c = []
  | ActiveChanged => True
  end.

End JsonEditorApp.

(** ** Sample executions *)

Module Samples.
Import MarkerDiff.

(** A marker and a copy of it that differs only in its severity. *)
Definition unexpectedToken : Marker :=
  {| startLineNumber := 1; startColumn := 2; endLineNumber := 1;
     endColumn := 3; message := "Expected comma"; severity := 8;
     owner := "json" |}.

Definition unexpectedTokenAgain : Marker :=
  {| startLineNumber := 1; startColumn := 2; endLineNumber := 1;
     endColumn := 3; message := "Expected comma"; severity := 4;
     owner := "json" |}.

Definition trailingComma : Marker :=
  {| startLineNumber := 2; startColumn := 1; endLineNumber := 2;
     endColumn := 2; message := "Trailing comma"; severity := 8;
     owner := "json" |}.

(** The same marker, one column further. *)
Definition trailingCommaMoved : Marker :=
  {| startLineNumber := 2; startColumn := 1; endLineNumber := 2;
     endColumn := 3; message := "Trailing comma"; severity := 8;
     owner := "json" |}.

(** A hook whose owner rendered once, called the function it got and then
    rendered with a changed dependency. *)
Definition superseding : list (DebounceGate.Event string nat) :=
  [DebounceGate.Render 1%nat 500 [0%nat];
   DebounceGate.Call 0%nat "a";
   DebounceGate.Render 2%nat 500 [1%nat]].

Definition firstGeneration : DebounceGate.DebouncedFn string :=
  {| DebounceGate.id := 1; DebounceGate.fn := 1%nat;
     DebounceGate.wait := 500; DebounceGate.pending := Some (500, "a") |}.

(** The owner rendered once. *)
Definition firstRender : list (DebounceGate.Event string nat) :=
  [DebounceGate.Render 1%nat 500 [0%nat]].

(** Two keystrokes 100 ms apart, under a 500 ms delay. *)
Definition typing : list (Z * string) := [(0, "a"); (100, "ab")].

(** After [firstRender] the owner renders with another dependency, which
    creates the second function; what follows is a render that passes yet
    another function with the same dependency, and one call of the second
    function, delivered 500 ms later. *)
Definition afterFirstCall : list (DebounceGate.Event string nat) :=
  [DebounceGate.Render 3%nat 500 [1%nat]; DebounceGate.Advance 0;
   DebounceGate.Call 1%nat "x"; DebounceGate.Advance 600].

(** Two later keystrokes 100 ms apart, and the same keystrokes with the
    owner rendering after each of them. *)
Definition typingLater : list (Z * string) := [(700, "a"); (800, "ab")].

Definition typingAndRendering : list (DebounceGate.Event string nat) :=
  [DebounceGate.Advance 700; DebounceGate.Call 1%nat "a";
   DebounceGate.Render 5%nat 500 [1%nat];
   DebounceGate.Advance 800; DebounceGate.Call 1%nat "ab";
   DebounceGate.Render 6%nat 500 [1%nat]].

(** A base with one record and one text cell. *)
Definition base : EditorGuard.Base :=
  {| EditorGuard.cells := {[ "rec1" := {[ "fld1" := "{}" ]} ]};
     EditorGuard.updates := [] |}.

Import Monaco.

Definition props : Props :=
  {| value := "a"; language := "json"; onChange := 1%nat; onLoad := 2%nat;
     onSyntaxError := 3%nat; readOnly := false; renderSignal := 0 |}.

(** A process without the library, and one in which it is loaded. *)
Definition freshWorld : World :=
  {| windowMonaco := false; loadCalls := 0; trace := [] |}.

Definition readyWorld : World :=
  {| windowMonaco := true; loadCalls := 0; trace := [] |}.

(** The four resources of one load arrive. *)
Definition loadCompletes : list Event :=
  [ResourceLoaded 0; ResourceLoaded 0; ResourceLoaded 0; ResourceLoaded 0].

(** A component mounted where the library is loaded, and the same
    component once its widget has shown [unexpectedToken]. *)
Definition ready : St := mount props readyWorld.

Definition reporting : St := run [Decorations 0 [unexpectedToken]] ready.

(** A component mounted before the library is loaded; its owner renders it
    again with another value; then the load completes. *)
Definition lateValue : list Event :=
  Rerender (withValue "b" props) :: loadCompletes.

(** The widget of a component mounted with [props] in [readyWorld]. *)
Definition mountedEditor : Editor :=
  {| buffer := "a"; cursor := 0; modeId := "json"; readOnlyOption := false;
     changeListeners := [(0%nat, 1%nat)];
     decorationListeners := [(1%nat, [])];
     nextListener := 2; disposed := false |}.

(** The owner changes the value, the language, the read-only flag and the
    render signal at once. *)
Definition restyled : Props :=
  {| value := "b"; language := "plaintext"; onChange := 1%nat;
     onLoad := 2%nat; onSyntaxError := 3%nat; readOnly := true;
     renderSignal := 1 |}.

(** Before the load completes the owner passes another value; three of
    the four resources have arrived. *)
Definition loadAlmostComplete : list Event :=
  Rerender (withValue "b" props) :: take 3 loadCompletes.

(** A record and a field are selected; the user then clicks away, twice. *)
Definition selected : JsonEditorApp.Cursor :=
  {| JsonEditorApp.selectedRecordIds := ["rec1"; "rec2"];
     JsonEditorApp.selectedFieldIds := ["fld1"] |}.

Definition deselected : JsonEditorApp.Cursor :=
  {| JsonEditorApp.selectedRecordIds := [];
     JsonEditorApp.selectedFieldIds := [] |}.

End Samples.

(** * Properties *)

Module MarkerDiffFacts.
Import MarkerDiff.

Lemma fieldsMatch_agree a b : fieldsMatch a b = true ↔ agree a b.
Proof.
  unfold fieldsMatch, agree.
  rewrite !andb_true_iff, !Z.eqb_eq, String.eqb_eq. tauto.
Qed.

Lemma fieldsMatch_refl a : fieldsMatch a a = true.
Proof. apply fieldsMatch_agree. by repeat split. Qed.

(** The visit from position [k] of a suffix [l] of the first list, against a
    second list [b] that is long enough. *)
Lemma everyFrom_matchAt b l k :
  (k + length l ≤ length b)%nat →
  (everyFrom (matchAt b) k l = Some true ↔
     ∀ j ma mb, l !! j = Some ma → b !! (k + j)%nat = Some mb → agree ma mb) ∧
  (everyFrom (matchAt b) k l = Some false ↔
     ¬ ∀ j ma mb, l !! j = Some ma → b !! (k + j)%nat = Some mb → agree ma mb).
Proof.
  revert k. induction l as [|x l IH]; intros k Hlen; simpl in *.
  - assert (Hall : ∀ j ma mb, @nil Marker !! j = Some ma →
                     b !! (k + j)%nat = Some mb → agree ma mb)
      by (intros j ma mb Hj; by destruct j).
    split; [tauto|]. split; [discriminate|tauto].
  - unfold matchAt at 1 3.
    destruct (lookup_lt_is_Some_2 b k) as [bk Hbk]; [lia|].
    rewrite Hbk.
    destruct (fieldsMatch x bk) eqn:Hf.
    + destruct (IH (S k)) as [IHt IHf]; [lia|].
      assert (Hshift :
        (∀ j ma mb, (x :: l) !! j = Some ma → b !! (k + j)%nat = Some mb →
                    agree ma mb) ↔
        (∀ j ma mb, l !! j = Some ma → b !! (S k + j)%nat = Some mb →
                    agree ma mb)).
      { split.
        - intros H j ma mb Hj Hb. apply (H (S j) ma mb); [done|].
          by replace (k + S j)%nat with (S k + j)%nat by lia.
        - intros H [|j] ma mb Hj Hb; simpl in Hj.
          + injection Hj as <-. rewrite Nat.add_0_r, Hbk in Hb.
            injection Hb as <-. by apply fieldsMatch_agree.
          + apply (H j ma mb); [done|].
            by replace (S k + j)%nat with (k + S j)%nat by lia. }
      rewrite Hshift. by split.
    + assert (Hno : ¬ ∀ j ma mb, (x :: l) !! j = Some ma →
                      b !! (k + j)%nat = Some mb → agree ma mb).
      { intros H.
        assert (agree x bk) as Ha.
        { apply (H 0%nat x bk); [done|]. by rewrite Nat.add_0_r. }
        apply fieldsMatch_agree in Ha. congruence. }
      split; [split; [discriminate|tauto]|tauto].
Qed.

(** C9.  [markersMatch] never throws, answers [true] exactly when the two
    lists have the same length and agree, index by index, on
    [startLineNumber], [startColumn], [endLineNumber], [endColumn] and
    [message], and answers [false] in every other case. *)
Theorem markersMatch_iff (a b : list Marker) :
  (markersMatch a b = Some true ↔ listsAgree a b) ∧
  (markersMatch a b = Some false ↔ ¬ listsAgree a b).
Proof.
  unfold markersMatch, listsAgree, every.
  destruct (Nat.eqb_spec (length a) (length b)) as [Hlen|Hlen]; simpl.
  - destruct (everyFrom_matchAt b a 0) as [Ht Hf]; [lia|].
    simpl in Ht, Hf. rewrite Ht, Hf. split; [tauto|].
    split; [tauto|]. intros Hn H. apply Hn. by split.
  - split; split; try done; try tauto.
Qed.

End MarkerDiffFacts.

Module DebounceGateFacts.
Import DebounceGate.

Section Hook.

Context {Args Dep : Type} `{EqDecision Dep}.

Local Abbreviation DebouncedFn := (DebouncedFn Args).
Local Abbreviation Hook := (Hook Args Dep).
Local Abbreviation Event := (Event Args Dep).
Local Abbreviation init := (@init Args Dep).

Lemma Inv_init : Inv init.
Proof. split; done. Qed.

Lemma Inv_create fnArg d key (h : Hook) :
  head key = Some (inl d) → Inv h → Inv (create fnArg d key h).1.
Proof.
  intros Hkey [Hc Hi Hm _]. split; simpl.
  - rewrite length_app, Hc. simpl. lia.
  - intros k f Hk. apply lookup_app_Some in Hk as [Hk|[Hge Hk]].
    + by apply Hi.
    + apply list_lookup_singleton_Some in Hk as [Hk <-]. simpl. lia.
  - unfold current. simpl. rewrite length_app. simpl.
    by replace (length (fns h) + 1)%nat with (S (length (fns h))) by lia.
  - intros key' k [= <- <-].
    exists {| id := S (count h); fn := fnArg; wait := d; pending := None |}.
    split; [|done]. by rewrite lookup_app_r, Nat.sub_diag by lia.
Qed.

Lemma Inv_useDebounced fnArg d deps (h : Hook) :
  Inv h → Inv (useDebounced fnArg d deps h).1.
Proof.
  intros HI. unfold useDebounced.
  destruct (memo h) as [[prevKey handle]|]; [|by apply (Inv_create _ d)].
  destruct (areHookInputsEqual _ _); [done|by apply (Inv_create _ d)].
Qed.

Lemma Inv_call handle args (h : Hook) : Inv h → Inv (call handle args h).
Proof.
  intros [Hc Hi Hm Hkey]. split; simpl.
  - by rewrite length_alter.
  - intros k f Hk. destruct (decide (handle = k)) as [->|Hne].
    + rewrite list_lookup_alter_eq in Hk.
      destruct (fns h !! k) as [g|] eqn:Hg; [|done].
      injection Hk as <-. simpl. by apply Hi.
    + rewrite list_lookup_alter_ne in Hk by done. by apply Hi.
  - unfold current in *. simpl. by rewrite length_alter.
  - intros key k Hmemo. destruct (Hkey key k Hmemo) as (f & Hf & Hhd).
    destruct (decide (handle = k)) as [->|Hne].
    + exists (schedule (now h) args f).
      by rewrite list_lookup_alter_eq, Hf.
    + exists f. by rewrite list_lookup_alter_ne.
Qed.

Lemma id_expire t (f : DebouncedFn) : id (expire t f) = id f.
Proof. unfold expire. by destruct (due t f). Qed.

Lemma wait_expire t (f : DebouncedFn) : wait (expire t f) = wait f.
Proof. unfold expire. by destruct (due t f). Qed.

Lemma foldl_fire t (l : list DebouncedFn) (h : Hook) :
  foldl (fire t) h l =
  {| count := count h; memo := memo h; fns := fns h; now := now h;
     invoked := invoked h ++ fired t (count h) l |}.
Proof.
  revert h. induction l as [|f l IH]; intros h; simpl.
  - unfold fired. simpl. rewrite app_nil_r. by destruct h.
  - rewrite IH. unfold fire, inner, fired. simpl.
    destruct (due t f) as [a|]; simpl.
    + destruct (id f =? count h)%nat; simpl; [|done].
      by rewrite <- app_assoc.
    + by destruct (id f =? count h)%nat.
Qed.

Lemma fired_none t c (l : list DebouncedFn) :
  Forall (λ f, id f ≠ c) l → fired t c l = [].
Proof.
  induction 1 as [|f l Hf _ IH]; [done|]. unfold fired in *. simpl.
  apply Nat.eqb_neq in Hf. by rewrite Hf.
Qed.

Lemma advance_fields t (h : Hook) :
  count (advance t h) = count h ∧ memo (advance t h) = memo h ∧
  fns (advance t h) = expire t <$> fns h ∧
  now (advance t h) = Z.max (now h) t ∧
  invoked (advance t h) = invoked h ++ fired t (count h) (fns h).
Proof. unfold advance. by rewrite foldl_fire. Qed.

Lemma Inv_advance t (h : Hook) : Inv h → Inv (advance t h).
Proof.
  intros [Hc Hi Hm Hkey].
  destruct (advance_fields t h) as (Ec & Em & Ef & _ & _).
  split.
  - by rewrite Ec, Ef, length_fmap.
  - intros k f. rewrite Ef, list_lookup_fmap.
    destruct (fns h !! k) as [g|] eqn:Hg; [|done]. simpl.
    intros [= <-]. rewrite id_expire. by apply Hi.
  - unfold current in *. by rewrite Em, Ef, length_fmap.
  - intros key k. rewrite Em, Ef. intros Hmemo.
    destruct (Hkey key k Hmemo) as (f & Hf & Hhd).
    exists (expire t f). by rewrite list_lookup_fmap, Hf, wait_expire.
Qed.

Lemma Inv_step (h : Hook) (e : Event) : Inv h → Inv (step h e).
Proof.
  destruct e; simpl;
    auto using Inv_useDebounced, Inv_call, Inv_advance.
Qed.

Lemma Inv_run (es : list Event) (h : Hook) : Inv h → Inv (run es h).
Proof.
  revert h. induction es as [|e es IH]; intros h HI; [done|].
  apply IH. by apply Inv_step.
Qed.

(** C1.  In every state the hook can reach, a debounced function that is not
    the youngest one (a newer one has been created since) carries an id that
    differs from the counter, and running its delayed call, with any
    arguments, changes nothing: the wrapped function is not invoked.  The
    same holds when its timer expires, at any time. *)
Theorem superseded_call_is_silent
    (es : list Event) (k : nat) (f : DebouncedFn) (args : Args) :
  fns (run es init) !! k = Some f →
  (S k < length (fns (run es init)))%nat →
  id f ≠ count (run es init) ∧
  inner f args (run es init) = run es init ∧
  ∀ t, fire t (run es init) f = run es init.
Proof.
  intros Hk Hnewer.
  destruct (Inv_run es init Inv_init) as [Hc Hi _ _].
  assert (id f ≠ count (run es init)) as Hne.
  { rewrite (Hi k f Hk), Hc. lia. }
  assert (∀ a, inner f a (run es init) = run es init) as Hinner.
  { intros a. unfold inner. apply Nat.eqb_neq in Hne. by rewrite Hne. }
  split; [done|]. split; [done|].
  intros t. unfold fire. by destruct (due t f).
Qed.

(** Among the timers that are due, only the youngest function's one reaches
    the wrapped function. *)
Lemma advance_invoked t (h : Hook) k f :
  Inv h → current h = Some k → fns h !! k = Some f →
  invoked (advance t h) =
  invoked h ++ match due t f with Some a => [(fn f, a)] | None => [] end.
Proof.
  intros [Hc Hi Hm _] Hcur Hk.
  destruct (advance_fields t h) as (_ & _ & _ & _ & ->). f_equal.
  rewrite Hcur in Hm.
  destruct (length (fns h)) as [|n] eqn:Hlen; [done|].
  injection Hm as ->. rewrite Hc.
  assert (fns h = take n (fns h) ++ [f]) as Hsplit.
  { rewrite <- (take_S_r _ _ _ Hk). symmetry. apply take_ge. lia. }
  rewrite Hsplit. unfold fired. rewrite omap_app.
  fold (fired t (S n) (take n (fns h))). rewrite fired_none.
  - simpl. rewrite (Hi n f Hk), Nat.eqb_refl. by destruct (due t f).
  - apply Forall_lookup. intros i g Hg.
    apply lookup_take_Some in Hg as [Hg Hi'].
    rewrite (Hi i g Hg). lia.
Qed.

(** One call of the burst: the clock reaches [t] without the scheduled call
    being due, then the youngest function is called with [a]. *)
Lemma Armed_call (h : Hook) k f0 p t a :
  Armed h k f0 p → notDue p t → now h ≤ t →
  Armed (call k a (advance t h)) k f0 (Some (t + Z.max (wait f0) 0, a)) ∧
  invoked (call k a (advance t h)) = invoked h ∧
  now (call k a (advance t h)) = t.
Proof.
  intros [HI Hcur Hk] Hp Hnow.
  pose proof (advance_invoked t h k _ HI Hcur Hk) as Hinv.
  destruct (advance_fields t h) as (Ec & Em & Ef & En & _).
  assert (due t {| id := id f0; fn := fn f0; wait := wait f0; pending := p |}
          = None) as Hdue.
  { unfold due. simpl. destruct p as [[dl b]|]; [|done]. simpl in Hp.
    rewrite bool_decide_eq_false_2; [done|lia]. }
  rewrite Hdue, app_nil_r in Hinv.
  split; [split|split].
  - by apply Inv_call, Inv_advance.
  - unfold current in *. simpl. by rewrite Em.
  - simpl. rewrite list_lookup_alter_eq, Ef, list_lookup_fmap, Hk. simpl.
    unfold expire. rewrite Hdue. unfold schedule. simpl.
    rewrite En. by replace (Z.max (now h) t) with t by lia.
  - done.
  - simpl. rewrite En. lia.
Qed.

Lemma run_app (es1 es2 : list Event) (h : Hook) :
  run (es1 ++ es2) h = run es2 (run es1 h).
Proof. apply foldl_app. Qed.

(** A whole burst leaves the last call scheduled and invokes nothing. *)
Lemma Armed_burst k f0 (calls : list (Z * Args)) :
  ∀ (h : Hook) p tn an,
    Armed h k f0 p →
    closelySpaced (wait f0) (now h) calls →
    (∀ c, head calls = Some c → notDue p c.1) →
    last calls = Some (tn, an) →
    Armed (run (burst k calls) h) k f0 (Some (tn + Z.max (wait f0) 0, an)) ∧
    invoked (run (burst k calls) h) = invoked h ∧
    now (run (burst k calls) h) = tn.
Proof.
  induction calls as [|[t a] rest IH]; intros h p tn an HA Hsp Hhd Hlast;
    [done|].
  destruct Hsp as (Ht & Hgap & Hsp). simpl in Ht, Hgap, Hsp.
  destruct (Armed_call h k f0 p t a HA) as (HA1 & Hinv1 & Hnow1);
    [by apply (Hhd (t, a))|done|].
  change (burst k ((t, a) :: rest))
    with (([Advance t; Call k a] : list Event) ++ burst k rest).
  rewrite run_app.
  change (run ([Advance t; Call k a] : list Event) h)
    with (call k a (advance t h)).
  destruct rest as [|c' rest'].
  - injection Hlast as <- <-. by split.
  - rewrite last_cons_cons in Hlast.
    destruct (IH _ _ tn an HA1) as (HA2 & Hinv2 & Hnow2).
    + by rewrite Hnow1.
    + intros c [= <-]. simpl. lia.
    + done.
    + rewrite Hinv2, Hinv1. by split.
Qed.

(** Two calls that are less than [d] apart force a positive delay. *)
Lemma closelySpaced_positive d t0 (calls : list (Z * Args)) :
  (2 ≤ length calls)%nat → closelySpaced d t0 calls → 0 < d.
Proof.
  destruct calls as [|c [|c' rest]]; simpl; lia.
Qed.

(** The burst property for the youngest function of any well-formed hook
    state. *)
Lemma burst_of_current
    (h : Hook) (k : nat) (f : DebouncedFn)
    (calls : list (Z * Args)) (tn : Z) (an : Args) (tEnd : Z) :
  Inv h → current h = Some k → fns h !! k = Some f → pending f = None →
  (2 ≤ length calls)%nat →
  closelySpaced (wait f) (now h) calls →
  last calls = Some (tn, an) →
  tn + wait f ≤ tEnd →
  invoked (run (burst k calls ++ [Advance tEnd]) h) =
  invoked h ++ [(fn f, an)].
Proof.
  intros HI0 Hcur Hk Hpend Hlen Hsp Hlast Hend.
  pose proof (closelySpaced_positive _ _ _ Hlen Hsp) as Hd.
  assert (Armed h k f None) as HA.
  { split; [done|done|].
    rewrite Hk. destruct f. simpl in Hpend. by rewrite Hpend. }
  destruct (Armed_burst k f calls _ None tn an HA) as ([HI Hc Hf] & Hinv & _);
    [done|done|done|].
  rewrite run_app.
  change (run [Advance tEnd] ?h) with (advance tEnd h).
  rewrite (advance_invoked _ _ _ _ HI Hc Hf), Hinv.
  unfold due. simpl. rewrite bool_decide_eq_true_2; [done|lia].
Qed.

(** What a render gets back from [useDebounced] is the hook's youngest
    function, and its delay is the [changeDelay] of that render. *)
Lemma useDebounced_returns fnArg d deps (h : Hook) :
  Inv h →
  current (useDebounced fnArg d deps h).1 = Some (useDebounced fnArg d deps h).2 ∧
  ∃ f, fns (useDebounced fnArg d deps h).1 !! (useDebounced fnArg d deps h).2
       = Some f ∧ wait f = d.
Proof.
  intros HI. unfold useDebounced.
  destruct (memo h) as [[prevKey handle]|] eqn:Hmemo.
  - destruct (areHookInputsEqual _ _) eqn:Heq; simpl.
    + split; [unfold current; by rewrite Hmemo|].
      destruct (inv_memo h HI _ _ Hmemo) as (f & Hf & Hhd).
      exists f. split; [done|].
      destruct prevKey as [|y rest]; [done|]. simpl in Heq, Hhd.
      apply andb_true_iff in Heq as [Heq _].
      apply bool_decide_eq_true in Heq. congruence.
    + split; [reflexivity|].
      exists {| id := S (count h); fn := fnArg; wait := d; pending := None |}.
      split; [|done]. by rewrite lookup_app_r, Nat.sub_diag by lia.
  - simpl. split; [reflexivity|].
    exists {| id := S (count h); fn := fnArg; wait := d; pending := None |}.
    split; [|done]. by rewrite lookup_app_r, Nat.sub_diag by lia.
Qed.

Lemma areHookInputsEqual_refl (key : list (Z + Dep)) :
  areHookInputsEqual key key = true.
Proof.
  induction key as [|x key IH]; [done|]. simpl.
  by rewrite bool_decide_eq_true_2.
Qed.

Lemma areHookInputsEqual_eq (a b : list (Z + Dep)) :
  length a = length b → areHookInputsEqual a b = true → a = b.
Proof.
  revert b. induction a as [|x a IH]; intros [|y b] Hlen Heq; try done.
  simpl in *. apply andb_true_iff in Heq as [Hxy Hab].
  apply bool_decide_eq_true in Hxy. f_equal; [done|]. apply IH; [lia|done].
Qed.

Lemma key_inj (d d' : Z) (deps deps' : list Dep) :
  (inl d :: (inr <$> deps) : list (Z + Dep)) = inl d' :: (inr <$> deps') →
  d = d' ∧ deps = deps'.
Proof.
  intros [= -> Hd]. split; [done|].
  revert deps' Hd. induction deps as [|x deps IH]; intros [|y deps'] Hd;
    try done.
  simpl in Hd. injection Hd as -> Hd. f_equal. by apply IH.
Qed.

(** A render that raises the counter has created the function it
    returns, around the function it was passed. *)
Lemma created_Bound fnArg d deps (h0 h1 : Hook) k :
  Inv h0 → useDebounced fnArg d deps h0 = (h1, k) →
  count h1 = S (count h0) →
  Bound h1 k fnArg d deps ∧ invoked h1 = invoked h0 ∧ now h1 = now h0 ∧
  fns h1 !! k =
    Some {| id := S (count h0); fn := fnArg; wait := d; pending := None |}.
Proof.
  intros HI Huse Hcount.
  assert (create fnArg d (inl d :: (inr <$> deps)) h0 = (h1, k)) as Hcr.
  { revert Huse. unfold useDebounced.
    destruct (memo h0) as [[prevKey handle]|]; [|done].
    destruct (areHookInputsEqual _ _); [|done].
    intros [= <- <-]. lia. }
  pose proof (Inv_create fnArg d (inl d :: (inr <$> deps)) h0 eq_refl HI)
    as HI1.
  rewrite Hcr in HI1. unfold create in Hcr. injection Hcr as <- <-.
  assert (fns (create fnArg d (inl d :: (inr <$> deps)) h0).1
            !! length (fns h0) =
          Some {| id := S (count h0); fn := fnArg; wait := d;
                  pending := None |}) as Hk.
  { simpl. by rewrite lookup_app_r, Nat.sub_diag by lia. }
  split; [|by repeat split].
  split; [done|done|]. eexists. split; [exact Hk|done].
Qed.

Lemma Bound_step (h : Hook) k fnArg d deps (e : Event) :
  Bound h k fnArg d deps → keeps d deps e →
  Bound (step h e) k fnArg d deps ∧
  (withoutRenders [e] = [] → step h e = h).
Proof.
  intros [HI Hmemo (f & Hf & Hfn & Hw)] Hkeep.
  destruct e as [fnArg' d' deps'|handle args|t]; simpl in *.
  - destruct Hkeep as [-> ->]. unfold useDebounced.
    rewrite Hmemo, areHookInputsEqual_refl. simpl.
    split; [|done]. split; [done|done|]. by exists f.
  - split; [|done]. split; [by apply Inv_call|done|].
    unfold call. cbn [fns].
    destruct (decide (handle = k)) as [->|Hne].
    + exists (schedule (now h) args f).
      by rewrite list_lookup_alter_eq, Hf.
    + exists f. by rewrite list_lookup_alter_ne.
  - split; [|done].
    destruct (advance_fields t h) as (Ec & Em & Ef & _ & _).
    split; [by apply Inv_advance|by rewrite Em|].
    exists (expire t f). rewrite Ef, list_lookup_fmap, Hf, wait_expire.
    split; [done|]. split; [|done]. unfold expire. by destruct (due t f).
Qed.

Lemma Bound_run (h : Hook) k fnArg d deps (es : list Event) :
  Bound h k fnArg d deps → Forall (keeps d deps) es →
  Bound (run es h) k fnArg d deps ∧ run es h = run (withoutRenders es) h.
Proof.
  intros HB Hall. revert h HB.
  induction Hall as [|e es He _ IH]; intros h HB; [done|].
  destruct (Bound_step h k fnArg d deps e HB He) as [HB1 Hid].
  change (run (e :: es) h) with (run es (step h e)).
  destruct (IH _ HB1) as [HB2 Hrun]. split; [done|].
  rewrite Hrun. destruct e as [fnArg' d' deps'|handle args|t]; try done.
  by rewrite (Hid eq_refl).
Qed.

Lemma Bound_current (h : Hook) k fnArg d deps :
  Bound h k fnArg d deps → current h = Some k.
Proof. intros [_ Hmemo _]. unfold current. by rewrite Hmemo. Qed.

Lemma Bound_idle (h : Hook) k fnArg d deps :
  Bound h k fnArg d deps → pending <$> fns h !! k = Some None →
  ∃ f, fns h !! k = Some f ∧ fn f = fnArg ∧ wait f = d ∧ pending f = None.
Proof.
  intros [_ _ (f & Hf & Hfn & Hw)] Hidle. exists f.
  rewrite Hf in Hidle. by injection Hidle as Hidle.
Qed.

(** After a burst on the current function, the scheduled call is the last
    one and nothing has been invoked. *)
Lemma burst_armed (h : Hook) k fnArg d deps
    (calls : list (Z * Args)) (tn : Z) (an : Args) :
  Bound h k fnArg d deps → pending <$> fns h !! k = Some None →
  (2 ≤ length calls)%nat → closelySpaced d (now h) calls →
  last calls = Some (tn, an) →
  0 < d ∧
  ∃ f, fn f = fnArg ∧ wait f = d ∧
       Armed (run (burst k calls) h) k f (Some (tn + d, an)) ∧
       invoked (run (burst k calls) h) = invoked h.
Proof.
  intros HB Hidle Hlen Hsp Hlast.
  pose proof (closelySpaced_positive _ _ _ Hlen Hsp) as Hd.
  destruct (Bound_idle h k fnArg d deps HB Hidle) as (f & Hf & Hfn & Hw & Hp).
  split; [done|]. exists f. split; [done|]. split; [done|].
  assert (Armed h k f None) as HA.
  { split; [apply (bd_inv _ _ _ _ _ HB)|by apply (Bound_current h k fnArg d deps)|].
    rewrite Hf. destruct f. simpl in Hp. by rewrite Hp. }
  destruct (Armed_burst k f calls h None tn an HA) as (HA' & Hinv & _);
    [by rewrite Hw|done|done|].
  rewrite Hw in HA'. by replace (Z.max d 0) with d in HA' by lia.
Qed.

(** C7 (as amended).  Take the function that a render created through
    [useDebounced] around [fnArg], with delay [d] and dependencies [deps],
    at index [k]; let the owner go on with any events that keep the delay
    and the dependencies ([mid]), up to a moment at which nothing is
    scheduled on the function; then call it two or more times, each call
    less than [d] milliseconds after the previous one, the owner rendering
    in between as it likes with the same delay and dependencies.  When the
    clock then reaches [tEnd], exactly one invocation has been added if [d]
    milliseconds have passed since the last call, of [fnArg] itself with
    the arguments of the last call, and none before that.  When instead a
    render changes the delay or a dependency before the [d] milliseconds
    have passed, the scheduled call is discarded: nothing is invoked,
    whenever the timer expires. *)
Theorem burst_delivers_last_once
    (es0 : list Event) (fnArg : FnId) (d : Z) (deps : list Dep)
    (h1 : Hook) (k : nat) (mid : list Event)
    (calls : list (Z * Args)) (tn : Z) (an : Args) :
  useDebounced fnArg d deps (run es0 init) = (h1, k) →
  count h1 = S (count (run es0 init)) →
  Forall (keeps d deps) mid →
  pending <$> fns (run mid h1) !! k = Some None →
  (2 ≤ length calls)%nat →
  closelySpaced d (now (run mid h1)) calls →
  last calls = Some (tn, an) →
  (∀ es tEnd,
     Forall (keeps d deps) es →
     withoutRenders es = burst k calls ++ [Advance tEnd] →
     invoked (run es (run mid h1)) =
       invoked (run mid h1) ++ if bool_decide (tn + d ≤ tEnd)
                               then [(fnArg, an)] else []) ∧
  (∀ es t fnArg' d' deps' tEnd,
     Forall (keeps d deps) es →
     withoutRenders es = burst k calls ++ [Advance t] →
     t < tn + d →
     length deps' = length deps → (d', deps') ≠ (d, deps) →
     invoked (run (es ++ [Render fnArg' d' deps'; Advance tEnd]) (run mid h1))
       = invoked (run mid h1)).
Proof.
  intros Huse Hcount Hmid Hidle Hlen Hsp Hlast.
  pose proof (Inv_run es0 init Inv_init) as HI0.
  destruct (created_Bound fnArg d deps _ h1 k HI0 Huse Hcount) as (HB1 & _).
  destruct (Bound_run h1 k fnArg d deps mid HB1 Hmid) as [HB _].
  set (h := run mid h1) in *. clearbody h.
  destruct (burst_armed h k fnArg d deps calls tn an HB Hidle Hlen Hsp Hlast)
    as (Hd & f & Hfn & Hw & [HIb Hcb Hfb] & Hinvb).
  assert (∀ es t, Forall (keeps d deps) es →
            withoutRenders es = burst k calls ++ [Advance t] →
            Bound (run es h) k fnArg d deps ∧
            invoked (run es h) =
              invoked h ++ if bool_decide (tn + d ≤ t)
                           then [(fnArg, an)] else []) as Hexp.
  { intros es t Hes Hwr.
    destruct (Bound_run h k fnArg d deps es HB Hes) as [HBe Hrun].
    split; [done|]. rewrite Hrun, Hwr, run_app.
    change (run [Advance t] ?x) with (advance t x).
    rewrite (advance_invoked _ _ _ _ HIb Hcb Hfb), Hinvb.
    unfold due. simpl. rewrite Hfn. by destruct (bool_decide _). }
  split.
  - intros es tEnd Hes Hwr. by apply Hexp.
  - intros es t fnArg' d' deps' tEnd Hes Hwr Ht Hl Hne.
    destruct (Hexp es t Hes Hwr) as [HBe Hinv].
    rewrite bool_decide_eq_false_2, app_nil_r in Hinv by lia.
    rewrite run_app.
    change (run [Render fnArg' d' deps'; Advance tEnd] ?x)
      with (advance tEnd (useDebounced fnArg' d' deps' x).1).
    set (he := run es h) in *. clearbody he.
    assert (useDebounced fnArg' d' deps' he =
            create fnArg' d' (inl d' :: (inr <$> deps')) he) as ->.
    { unfold useDebounced. rewrite (bd_memo _ _ _ _ _ HBe).
      destruct (areHookInputsEqual _ _) eqn:Heq; [|done].
      apply areHookInputsEqual_eq in Heq.
      - apply key_inj in Heq as [-> ->]. done.
      - simpl. by rewrite !length_fmap, Hl. }
    pose proof (Inv_create fnArg' d' (inl d' :: (inr <$> deps')) he eq_refl
                  (bd_inv _ _ _ _ _ HBe)) as HIc.
    rewrite (advance_invoked tEnd _ (length (fns he))
               {| id := S (count he); fn := fnArg'; wait := d';
                  pending := None |} HIc).
    + simpl. by rewrite app_nil_r.
    + rewrite (inv_current _ HIc). simpl. rewrite length_app. simpl.
      by replace (length (fns he) + 1)%nat with (S (length (fns he))) by lia.
    + simpl. by rewrite lookup_app_r, Nat.sub_diag by lia.
Qed.

Lemma memo_hit_step (h : Hook) k d deps (e : Event) :
  (∀ fnArg, useDebounced fnArg d deps h = (h, k)) → keeps d deps e →
  (∀ fnArg, useDebounced fnArg d deps (step h e) = (step h e, k)) ∧
  fn <$> fns (step h e) !! k = fn <$> fns h !! k.
Proof.
  intros Hhit Hkeep.
  destruct e as [fnArg' d' deps'|handle args|t]; simpl in *.
  - destruct Hkeep as [-> ->]. by rewrite (Hhit fnArg').
  - split.
    + intros fnArg. specialize (Hhit fnArg). revert Hhit.
      unfold useDebounced, call. cbn [memo].
      destruct (memo h) as [[prevKey handle']|]; [|intros [= Hc]].
      * destruct (areHookInputsEqual _ _); [by intros [= <-]|].
        intros [= Hc]. apply (f_equal count) in Hc. simpl in Hc. lia.
      * apply (f_equal count) in Hc. simpl in Hc. lia.
    + unfold call. cbn [fns]. rewrite list_lookup_alter.
      destruct (decide (handle = k)) as [->|]; [|done].
      by destruct (fns h !! k).
  - destruct (advance_fields t h) as (Ec & Em & Ef & _ & _). split.
    + intros fnArg. specialize (Hhit fnArg). revert Hhit.
      unfold useDebounced. rewrite Em.
      destruct (memo h) as [[prevKey handle']|]; [|intros [= Hc]].
      * destruct (areHookInputsEqual _ _); [by intros [= <-]|].
        intros [= Hc]. apply (f_equal count) in Hc. simpl in Hc. lia.
      * apply (f_equal count) in Hc. simpl in Hc. lia.
    + rewrite Ef, list_lookup_fmap. destruct (fns h !! k) as [f|]; [|done].
      simpl. unfold expire. by destruct (due t f).
Qed.

(** X12.  While the owner renders with the delay and the dependencies of
    the render that obtained function [k], every render returns that same
    function, whatever function it passes as [fn]; the hook's state is left
    as it is and the function wrapped at [k] is still the one wrapped when
    [k] was created: a newer [fn] of the same dependencies is never
    called. *)
Theorem same_inputs_return_same_function
    (es0 : list Event) (fnArg : FnId) (d : Z) (deps : list Dep)
    (h1 : Hook) (k : nat) (mid : list Event) (fnArg' : FnId) :
  useDebounced fnArg d deps (run es0 init) = (h1, k) →
  Forall (keeps d deps) mid →
  useDebounced fnArg' d deps (run mid h1) = (run mid h1, k) ∧
  fn <$> fns (run mid h1) !! k = fn <$> fns h1 !! k.
Proof.
  intros Huse Hmid.
  assert (∀ f, useDebounced f d deps h1 = (h1, k)) as Hhit.
  { intros f. revert Huse. unfold useDebounced.
    destruct (memo (run es0 init)) as [[prevKey handle]|] eqn:Hmemo.
    - destruct (areHookInputsEqual _ _) eqn:Heq.
      + intros [= <- <-]. by rewrite Hmemo, Heq.
      + unfold create. intros [= <- <-]. cbn [memo].
        by rewrite areHookInputsEqual_refl.
    - unfold create. intros [= <- <-]. cbn [memo].
      by rewrite areHookInputsEqual_refl. }
  clear Huse. revert h1 Hhit.
  induction Hmid as [|e es He _ IH]; intros h1 Hhit; [by split|].
  change (run (e :: es) h1) with (run es (step h1 e)).
  destruct (memo_hit_step h1 k d deps e Hhit He) as [Hhit' Hfn].
  destruct (IH _ Hhit') as [H1 H2]. split; [done|]. by rewrite H2.
Qed.

End Hook.

End DebounceGateFacts.

Module EditorGuardFacts.
Import EditorGuard.

Lemma updateRecordAsync_updates b recordId fieldId value :
  updates (updateRecordAsync b recordId fieldId value) =
  updates b ++ [(recordId, fieldId, value)].
Proof. done. Qed.

(** C10.  When the selected record still exists and its cell reads
    [current], the handler returns normally; it leaves the base as it is,
    without a call of [updateRecordAsync], when the delivered value equals
    [current], and it makes exactly one such call, for that record, field
    and value, when the delivered value differs. *)
Theorem onChange_guard
    (b : Base) (recordId fieldId value current : string) :
  getCellValueAsString b recordId fieldId = Some current →
  (value = current → onChange (Some recordId) (Some fieldId) value b = Some b) ∧
  (value ≠ current →
   onChange (Some recordId) (Some fieldId) value b =
     Some (updateRecordAsync b recordId fieldId value)) ∧
  ∀ b', onChange (Some recordId) (Some fieldId) value b = Some b' →
        (updates b' = updates b ∧ value = current) ∨
        (updates b' = updates b ++ [(recordId, fieldId, value)] ∧
         value ≠ current).
Proof.
  intros Hcell. unfold onChange. rewrite Hcell.
  destruct (String.eqb_spec value current) as [Heq|Hne].
  - split; [done|]. split; [done|]. intros b' [= <-]. by left.
  - split; [done|]. split; [done|]. intros b' [= <-]. by right.
Qed.


End EditorGuardFacts.

Module MonacoFacts.
Import MarkerDiff Monaco.

Lemma run_cons e es (s : St) : run (e :: es) s = run es (step s e).
Proof. done. Qed.

(** *** Events that queue no state update cause no render *)

Lemma flush_clean fuel (s : St) : dirty s.1 = false → flush fuel s = s.
Proof.
  intros Hd. destruct fuel as [|fuel]; [done|]. simpl.
  rewrite Hd. by destruct (prev s.1).
Qed.

Lemma changed_same {A} `{EqDecision A} (deps : Snapshot → A) r cur :
  deps r = deps cur → changed deps (Some r) cur = false.
Proof. intros Heq. unfold changed. by rewrite bool_decide_eq_true_2. Qed.

Lemma dirty_false (i : Inst) :
  dirty i = false →
  nextMonaco i = None ∧ nextEditor i = None ∧ nextErrors i = None.
Proof.
  unfold dirty.
  by destruct (nextMonaco i), (nextEditor i), (nextErrors i).
Qed.

(** C2.  In every state in which the [editor] state holds a widget and the
    [value] prop of the render equals [valueRef.current], the layout effect
    that synchronises the external value changes nothing: the trace gains
    no [setValue] call and the widget keeps its content and cursor. *)
Theorem sync_equal_value_is_noop
    (r : Snapshot) (s : St) (k : nat) (e : Editor) :
  r_editor r = Some k →
  editors s.1 !! k = Some e →
  valueRef s.1 = value (r_props r) →
  syncEffect r s = s ∧
  trace (syncEffect r s).2 = trace s.2 ∧
  editors (syncEffect r s).1 !! k = Some e.
Proof.
  intros Hed He Hval.
  assert (syncEffect r s = s) as ->; [|done].
  unfold syncEffect. rewrite Hed, Hval. by rewrite String.eqb_refl.
Qed.

(** The same at the level of a render: when the owner renders a settled
    component again and only [value] differs, being what [valueRef.current]
    already holds, the commit touches neither the widget nor the trace. *)
Lemma rerender_equal_value_is_noop (p : Props) (s : St) (k : nat) :
  mounted s.1 = true → dirty s.1 = false → rootRef s.1 = true →
  prev s.1 = Some (snapshot p s.1) →
  editor s.1 = Some k →
  render (withValue (valueRef s.1) p) s =
  withInst (setPrev (snapshot (withValue (valueRef s.1) p) s.1)) s.
Proof.
  destruct s as [i w]. cbn [fst snd]. intros Hm Hd Hroot Hprev Hed.
  apply dirty_false in Hd as (Hn1 & Hn2 & Hn3).
  assert (applyQueued i = i) as Hsame.
  { destruct i. simpl in *. by subst. }
  unfold render. cbn [fst snd]. rewrite Hm, Hsame, Hprev. cbn [negb].
  unfold commit.
  rewrite (changed_same depsCreate), (changed_same depsChange),
    (changed_same depsDecorations), (changed_same depsLoad),
    (changed_same depsSyntaxError), (changed_same depsLayout),
    (changed_same depsLanguage), (changed_same depsReadOnly) by done.
  unfold when. destruct (changed depsSync _ _); [|done].
  unfold syncEffect. cbn [r_editor snapshot fst r_props value withValue].
  by rewrite Hed, String.eqb_refl.
Qed.

(** *** Decoration events *)

Lemma decorationsHandler_match k captured markers (s : St) :
  markersMatch captured markers = Some true →
  decorationsHandler k captured markers s = s.
Proof.
  intros Hm. unfold decorationsHandler. rewrite Hm.
  destruct (editors s.1 !! k) as [e|]; [|done].
  by destruct (disposed e || negb (String.eqb (modeId e) "json")).
Qed.

Lemma emitDecorations_match k markers (s : St) e :
  editors s.1 !! k = Some e →
  Forall (λ l, markersMatch l.2 markers = Some true) (decorationListeners e) →
  emitDecorations k markers s = s.
Proof.
  intros He Hall. unfold emitDecorations. rewrite He.
  induction Hall as [|l ls Hl _ IH]; [done|]. simpl.
  by rewrite decorationsHandler_match.
Qed.

(** In a state with no queued update in which the decoration listeners of
    widget [k] hold the stored [errors], decoration events whose marker
    list matches the stored one leave the state and the trace as they
    are. *)
Lemma matching_decorations_silent
    (k : nat) (e : Editor) (batches : list (list Marker)) (s : St) :
  dirty s.1 = false →
  editors s.1 !! k = Some e →
  Forall (λ l, l.2 = errors s.1) (decorationListeners e) →
  Forall (λ markers, markersMatch (errors s.1) markers = Some true) batches →
  run (Decorations k <$> batches) s = s ∧
  trace (run (Decorations k <$> batches) s).2 = trace s.2.
Proof.
  intros Hd He Hcap Hall.
  assert (run (Decorations k <$> batches) s = s) as ->; [|done].
  induction Hall as [|markers rest Hm _ IH]; [done|].
  simpl. unfold settle.
  rewrite (emitDecorations_match k markers s e He).
  - by rewrite flush_clean.
  - eapply Forall_impl; [exact Hcap|]. simpl. by intros l ->.
Qed.

(** *** Content change events *)

Lemma emitChange_single k sub cb (s : St) e :
  editors s.1 !! k = Some e →
  changeListeners e = [(sub, cb)] →
  emitChange k s = (setValueRef (buffer e) s.1, log (OnChange cb (buffer e)) s.2).
Proof.
  intros He Hl. unfold emitChange. rewrite He, Hl. simpl.
  unfold changeHandler. by rewrite He.
Qed.

Lemma edit_single k sub cb content pos (s : St) e :
  editors s.1 !! k = Some e →
  disposed e = false → readOnlyOption e = false →
  changeListeners e = [(sub, cb)] →
  edit k content pos s =
  (setValueRef content (alterEditor k (writeBuffer content pos) s.1),
   log (OnChange cb content) s.2).
Proof.
  intros He Hdis Hro Hl. unfold edit. rewrite He, Hdis, Hro. simpl.
  rewrite (emitChange_single k sub cb _ (writeBuffer content pos e)).
  - done.
  - simpl. by rewrite list_lookup_alter_eq, He.
  - done.
Qed.

(** With exactly one content listener on widget [k], subscribed with the
    callback [cb], a sequence of edits adds one [onChange] invocation per
    edit to the trace, in order, and leaves the last content in
    [valueRef.current]. *)
Lemma edits_delivered
    (k sub : nat) (cb : FnId) (e : Editor)
    (edits : list (string * nat)) (s : St) :
  dirty s.1 = false →
  editors s.1 !! k = Some e →
  disposed e = false →
  readOnlyOption e = false →
  changeListeners e = [(sub, cb)] →
  trace (run ((λ c, Edit k c.1 c.2) <$> edits) s).2 =
    trace s.2 ++ ((λ c, OnChange cb c.1) <$> edits) ∧
  valueRef (run ((λ c, Edit k c.1 c.2) <$> edits) s).1 =
    default (valueRef s.1) (fst <$> last edits) ∧
  (buffer <$> editors (run ((λ c, Edit k c.1 c.2) <$> edits) s).1 !! k) =
    Some (default (buffer e) (fst <$> last edits)).
Proof.
  revert s e. induction edits as [|[content pos] rest IH];
    intros s e Hd He Hdis Hro Hl.
  - simpl. rewrite app_nil_r, He. done.
  - rewrite fmap_cons, run_cons. cbn [fst snd].
    assert (step s (Edit k content pos) =
            (setValueRef content
               (alterEditor k (writeBuffer content pos) s.1),
             log (OnChange cb content) s.2)) as ->.
    { simpl. unfold settle.
      rewrite (edit_single k sub cb content pos s e He Hdis Hro Hl).
      by rewrite flush_clean. }
    destruct (IH (setValueRef content
                    (alterEditor k (writeBuffer content pos) s.1),
                  log (OnChange cb content) s.2)
                 (writeBuffer content pos e)) as (Ht & Hv & Hb);
      [done| |done|done|done|].
    { simpl. by rewrite list_lookup_alter_eq, He. }
    rewrite Ht, Hv, Hb. simpl. rewrite <- app_assoc. simpl.
    destruct rest as [|c rest]; [done|].
    rewrite (last_cons_cons (content, pos)).
    destruct (last (c :: rest)) as [x|] eqn:Hlast; [by repeat split|].
    by apply last_None in Hlast.
Qed.

(** *** The effects, seen through the view *)

Lemma onLoads_snoc t a :
  onLoads (t ++ [a]) =
  onLoads t ++ match a with OnLoad f => [f] | _ => [] end.
Proof. unfold onLoads. rewrite omap_app. by destruct a. Qed.

Lemma creates_snoc t a :
  creates (t ++ [a]) =
  creates t ++ match a with EditorCreate k v => [(k, v)] | _ => [] end.
Proof. unfold creates. rewrite omap_app. by destruct a. Qed.

Ltac unfold_effects :=
  unfold when, view, syncEffect, createCleanupRun, changeCleanupRun,
    decorationsCleanupRun, loadEffect, loadMonacoAsync, createEffect,
    changeEffect, decorationsEffect, syntaxErrorEffect, layoutEffect,
    languageEffect, readOnlyEffect, viewLoad, viewCreate, viewPrev,
    viewValueRef, withInst, withWorld, alterEditor, setEditor, log in *.

Ltac frame :=
  intros; unfold_effects;
  repeat (simpl in *; case_match; simplify_eq);
  simpl in *;
  rewrite ?onLoads_snoc, ?creates_snoc, ?app_nil_r, ?length_alter,
    ?length_app; simpl;
  rewrite ?app_nil_r, ?Nat.add_1_r;
  try done.

Lemma changeHandler_view k cb (s : St) :
  view (changeHandler k cb s) =
  viewValueRef (valueRef (changeHandler k cb s).1) (view s).
Proof. unfold changeHandler. frame. Qed.

Lemma viewValueRef_twice x y v :
  viewValueRef x (viewValueRef y v) = viewValueRef x v.
Proof. done. Qed.

Lemma viewValueRef_same (s : St) : viewValueRef (valueRef s.1) (view s) = view s.
Proof. done. Qed.

Lemma foldl_changeHandler_view k (ls : list (nat * FnId)) (s : St) :
  view (foldl (λ s l, changeHandler k l.2 s) s ls) =
  viewValueRef
    (valueRef (foldl (λ s l, changeHandler k l.2 s) s ls).1) (view s).
Proof.
  revert s. induction ls as [|l ls IH]; intros s; simpl; [done|].
  by rewrite IH, changeHandler_view, viewValueRef_twice.
Qed.

Lemma emitChange_view k (s : St) :
  view (emitChange k s) = viewValueRef (valueRef (emitChange k s).1) (view s).
Proof.
  unfold emitChange. destruct (editors s.1 !! k); [|done].
  apply foldl_changeHandler_view.
Qed.

Lemma emitChange_empty k (s : St) : editors s.1 = [] → emitChange k s = s.
Proof. intros He. unfold emitChange. by rewrite He. Qed.

Lemma syncEffect_view b r (s : St) :
  view (when b (syncEffect r) s) =
  viewValueRef (valueRef (when b (syncEffect r) s).1) (view s).
Proof.
  unfold when, syncEffect. destruct b; [|done].
  destruct (r_editor r) as [k|]; [|done].
  destruct (String.eqb _ _); [done|].
  unfold editorSetValue. rewrite emitChange_view. frame.
Qed.

Lemma syncEffect_empty b r (s : St) :
  editors s.1 = [] → valueRef (when b (syncEffect r) s).1 = valueRef s.1.
Proof.
  intros He. unfold when, syncEffect. destruct b; [|done].
  destruct (r_editor r) as [k|]; [|done].
  destruct (String.eqb _ _); [done|].
  unfold editorSetValue. rewrite emitChange_empty; [done|].
  simpl. by rewrite He.
Qed.

Lemma createCleanupRun_view b (s : St) :
  view (when b createCleanupRun s) = view s.
Proof. frame. Qed.

Lemma changeCleanupRun_view b (s : St) :
  view (when b changeCleanupRun s) = view s.
Proof. frame. Qed.

Lemma decorationsCleanupRun_view b (s : St) :
  view (when b decorationsCleanupRun s) = view s.
Proof. frame. Qed.

Lemma loadEffect_view b r (s : St) :
  view (when b (loadEffect r) s) = if b then viewLoad r (view s) else view s.
Proof. frame. Qed.

Lemma createEffect_view b r (s : St) :
  view (when b (createEffect r) s) =
  if b then viewCreate r (view s) else view s.
Proof. frame. Qed.

Lemma changeEffect_view b r (s : St) :
  view (when b (changeEffect r) s) = view s.
Proof. frame. Qed.

Lemma decorationsEffect_view b r (s : St) :
  view (when b (decorationsEffect r) s) = view s.
Proof. frame. Qed.

Lemma syntaxErrorEffect_view b r (s : St) :
  view (when b (syntaxErrorEffect r) s) = view s.
Proof. frame. Qed.

Lemma layoutEffect_view b r (s : St) :
  view (when b (layoutEffect r) s) = view s.
Proof. frame. Qed.

Lemma languageEffect_view b r (s : St) :
  view (when b (languageEffect r) s) = view s.
Proof. frame. Qed.

Lemma readOnlyEffect_view b r (s : St) :
  view (when b (readOnlyEffect r) s) = view s.
Proof. frame. Qed.

Lemma setPrev_view r (s : St) :
  view (withInst (setPrev r) s) = viewPrev r (view s).
Proof. done. Qed.

(** One commit, on the view: the value synchronisation may move
    [valueRef], the first effect starts a load or signals readiness, the
    second effect creates the widget. *)
Lemma commit_view old cur (s : St) :
  view (commit old cur s) =
  viewPrev cur
    (let v0 := viewValueRef
                 (valueRef (when (changed depsSync old cur) (syncEffect cur) s).1)
                 (view s) in
     let v1 := if changed depsLoad old cur then viewLoad cur v0 else v0 in
     if changed depsCreate old cur then viewCreate cur v1 else v1).
Proof.
  unfold commit.
  rewrite setPrev_view, readOnlyEffect_view, languageEffect_view,
    layoutEffect_view, syntaxErrorEffect_view, decorationsEffect_view,
    changeEffect_view, createEffect_view, loadEffect_view,
    decorationsCleanupRun_view, changeCleanupRun_view,
    createCleanupRun_view, syncEffect_view.
  done.
Qed.

Lemma applyQueued_view i w : view (applyQueued i, w) = viewQueued (view (i, w)).
Proof. done. Qed.

(** One render of a mounted component, on the view. *)
Lemma render_view p (s : St) :
  mounted s.1 = true →
  ∃ x cur,
    r_props cur = p ∧
    r_monaco cur = v_monaco (viewQueued (view s)) ∧
    (v_size (view s) = 0%nat → x = v_valueRef (view s)) ∧
    view (render p s) =
    viewPrev cur
      (let v0 := viewValueRef x (viewQueued (view s)) in
       let v1 := if changed depsLoad (v_prev (view s)) cur
                 then viewLoad cur v0 else v0 in
       if changed depsCreate (v_prev (view s)) cur
       then viewCreate cur v1 else v1).
Proof.
  intros Hm. unfold render. rewrite Hm. simpl.
  eexists _, (snapshot p (applyQueued s.1)).
  split; [done|]. split; [done|]. split; [|by rewrite commit_view].
  intros Hsize. rewrite syncEffect_empty; [done|].
  simpl. by apply nil_length_inv.
Qed.

Lemma render_unmounted p (s : St) : mounted s.1 = false → render p s = s.
Proof. intros Hm. unfold render. by rewrite Hm. Qed.

(** The events, on the view. *)
Lemma resourceLoaded_view j (s : St) :
  view (resourceLoaded j s) = view s ∨
  (mounted s.1 = true ∧
   view (resourceLoaded j s) = viewNextMonaco (Some true) (view s)).
Proof.
  unfold resourceLoaded, setMonaco, viewNextMonaco, view.
  destruct (loading s.1 !! j) as [[|[|[|[|n]]]]|]; simpl;
    try (left; unfold view; simpl;
         by rewrite ?onLoads_snoc, ?creates_snoc, ?app_nil_r).
  destruct (mounted s.1) eqn:Hm, (monaco s.1) eqn:Hmo; simpl;
    rewrite ?Hm, ?Hmo; (by left) || (by right).
Qed.

Lemma edit_view k content pos (s : St) :
  ∃ x, (v_size (view s) = 0%nat → x = v_valueRef (view s)) ∧
       view (edit k content pos s) = viewValueRef x (view s).
Proof.
  unfold edit. destruct (editors s.1 !! k) as [e|] eqn:He.
  - destruct (disposed e || readOnlyOption e).
    + by exists (valueRef s.1).
    + eexists. split; [|rewrite emitChange_view; frame].
      intros Hsize. apply nil_length_inv in Hsize. simpl in Hsize.
      by rewrite Hsize in He.
  - by exists (valueRef s.1).
Qed.

Lemma decorationsHandler_view k captured markers (s : St) :
  view (decorationsHandler k captured markers s) = view s ∨
  (mounted s.1 = true ∧
   view (decorationsHandler k captured markers s) =
     viewNextErrors (Some markers) (view s)).
Proof.
  unfold decorationsHandler, setErrors, withInst.
  repeat case_match; simpl; try (by left).
  right. split; [by destruct (mounted s.1)|done].
Qed.

Lemma emitDecorations_view k markers (s : St) :
  view (emitDecorations k markers s) = view s ∨
  (mounted s.1 = true ∧
   view (emitDecorations k markers s) =
     viewNextErrors (Some markers) (view s)).
Proof.
  unfold emitDecorations. destruct (editors s.1 !! k) as [e|]; [|by left].
  generalize (decorationListeners e). intros ls. revert s.
  induction ls as [|l ls IH]; intros s; simpl; [by left|].
  destruct (decorationsHandler_view k l.2 markers s) as [Hv|[Hm Hv]];
    destruct (IH (decorationsHandler k l.2 markers s)) as [Hw|[Hm' Hw]];
    rewrite Hw, Hv.
  - by left.
  - right. split; [|done].
    change (v_mounted (view (decorationsHandler k l.2 markers s)) = true)
      in Hm'.
    by rewrite Hv in Hm'.
  - by right.
  - by right.
Qed.

Lemma unmount_view (s : St) :
  view (unmount s) = view s ∨ view (unmount s) = viewUnmounted (view s).
Proof.
  unfold unmount. destruct (mounted s.1); [right|by left].
  pose proof (createCleanupRun_view true s) as H1.
  pose proof (changeCleanupRun_view true (createCleanupRun s)) as H2.
  pose proof (decorationsCleanupRun_view true
                (changeCleanupRun (createCleanupRun s))) as H3.
  unfold when in H1, H2, H3. rewrite <- H1, <- H2, <- H3. done.
Qed.

(** *** The lifecycle invariants *)

Lemma changed_depsLoad r cur :
  onLoad (r_props r) = onLoad (r_props cur) →
  changed depsLoad (Some r) cur = negb (Bool.eqb (r_monaco r) (r_monaco cur)).
Proof.
  intros Hf. unfold changed, depsLoad. rewrite Hf.
  destruct (r_monaco r), (r_monaco cur); simpl;
    try done; by rewrite bool_decide_eq_true_2.
Qed.

Lemma changed_depsCreate r cur :
  changed depsCreate (Some r) cur = negb (Bool.eqb (r_monaco r) (r_monaco cur)).
Proof.
  unfold changed, depsCreate.
  destruct (r_monaco r), (r_monaco cur); simpl;
    try done; by rewrite bool_decide_eq_true_2.
Qed.

Lemma ReadyOnce_render f before (v : View) x cur :
  ReadyOnce f before v →
  onLoad (r_props cur) = f →
  r_monaco cur = v_monaco (viewQueued v) →
  ReadyOnce f before
    (viewPrev cur
       (let v0 := viewValueRef x (viewQueued v) in
        let v1 := if changed depsLoad (v_prev v) cur
                  then viewLoad cur v0 else v0 in
        if changed depsCreate (v_prev v) cur then viewCreate cur v1 else v1)).
Proof.
  intros [[Hn Hp] (r & Hr & Hf) Hl] Hcur Hm.
  rewrite Hr, changed_depsLoad, changed_depsCreate by congruence.
  specialize (Hp r Hr).
  destruct v as [mt mo pr nm ne nr rr vr sz lc ol cr]. simpl in *.
  subst pr. rewrite Hp, Hm. clear Hp.
  assert (default mo nm = mo ∨ (mo = false ∧ default mo nm = true)) as Hcase.
  { destruct Hn as [->| ->]; simpl; [by left|].
    destruct mo; [by left|by right]. }
  unfold viewQueued, viewValueRef, viewCreate, viewLoad. simpl.
  destruct Hcase as [Hsame|[-> Hnew]].
  - rewrite Hsame in *. rewrite Bool.eqb_reflx. simpl.
    split; simpl.
    + split; simpl; [by left|]. by intros ? [= <-].
    + by exists cur.
    + done.
  - rewrite Hnew in *. rewrite Hm. simpl.
    split; simpl.
    + split; simpl; [by left|]. by intros ? [= <-].
    + by exists cur.
    + rewrite Hl, Hcur. by rewrite app_nil_r.
Qed.

Lemma SeededAtMount_render initialValue before (v : View) x cur :
  SeededAtMount initialValue before v →
  r_monaco cur = v_monaco (viewQueued v) →
  (v_size v = 0%nat → x = v_valueRef v) →
  SeededAtMount initialValue before
    (viewPrev cur
       (let v0 := viewValueRef x (viewQueued v) in
        let v1 := if changed depsLoad (v_prev v) cur
                  then viewLoad cur v0 else v0 in
        if changed depsCreate (v_prev v) cur then viewCreate cur v1 else v1)).
Proof.
  intros [[Hn Hp] Hc Hv Hmo] Hm Hx.
  destruct v as [mt mo pr nm ne nr rr vr sz lc ol cr]. simpl in *.
  assert (SeededAtMount initialValue before
            (viewPrev cur
               (viewValueRef x
                  {| v_mounted := mt; v_monaco := r_monaco cur; v_prev := pr;
                     v_nextMonaco := None; v_nextEditor := None;
                     v_nextErrors := None; v_rootRef := true;
                     v_valueRef := vr; v_size := sz; v_loadCalls := lc;
                     v_onLoads := ol; v_creates := cr |}))) as Hkeep.
  { split; simpl.
    - split; simpl; [by left|]. by intros ? [= <-].
    - done.
    - intros Hz. rewrite Hx by done. auto.
    - intros Hz. destruct (Hmo Hz) as [-> _]. split; [|done].
      rewrite Hm. by destruct Hn as [->| ->]. }
  unfold viewQueued. simpl.
  destruct sz as [|sz].
  - (* no widget yet *)
    rewrite Hx, Hv in * by done. rewrite <- Hm.
    assert (∀ v1 : View,
              v_size v1 = 0%nat → v_valueRef v1 = initialValue →
              v_creates v1 = cr → v_rootRef v1 = true →
              v_monaco v1 = r_monaco cur →
              SeededAtMount initialValue before (viewPrev cur v1) →
              ∀ b : bool, SeededAtMount initialValue before
                     (viewPrev cur (if b then viewCreate cur v1 else v1)))
      as Hcreate.
    { intros v1 Hs1 Hv1 Hc1 Hr1 Hm1 Hk [|]; [|exact Hk].
      unfold viewCreate. rewrite Hr1. simpl.
      destruct (r_monaco cur) eqn:Hcur; simpl; [|exact Hk].
      destruct Hk as [[Hkn Hkp] _ _ _].
      split; simpl.
      - split; simpl; [done|]. intros ? [= <-]. congruence.
      - by rewrite Hs1, Hv1, Hc1, Hc, app_nil_r.
      - done.
      - done. }
    destruct (changed depsLoad pr cur); apply Hcreate; simpl; try done.
    destruct Hkeep as [[Hk1 Hk1'] Hk2 Hk3 Hk4]. simpl in *.
    split; [split|..]; simpl; done.
  - (* the widget exists: the second effect does not run again *)
    destruct (Hmo ltac:(done)) as [-> [r ->]].
    rewrite changed_depsCreate, (Hp r eq_refl).
    assert (r_monaco cur = true) as Hcur.
    { rewrite Hm. by destruct Hn as [->| ->]. }
    rewrite Hcur in *. simpl.
    rewrite <- Hm.
    destruct (negb (bool_decide (depsLoad r = depsLoad cur))); [|done].
    destruct Hkeep as [[Hk1 Hk1'] Hk2 Hk3 Hk4]. simpl in *.
    split; [split|..]; simpl; done.
Qed.

Lemma ReadyOnce_render_St f before p (s : St) :
  onLoad p = f →
  ReadyOnce f before (view s) → ReadyOnce f before (view (render p s)).
Proof.
  intros Hf HR. destruct (mounted s.1) eqn:Hm.
  - destruct (render_view p s Hm) as (x & cur & Hp & Hmo & _ & ->).
    apply ReadyOnce_render; [done| |done]. by rewrite Hp.
  - by rewrite render_unmounted.
Qed.

Lemma ReadyOnce_flush f before fuel (s : St) :
  ReadyOnce f before (view s) → ReadyOnce f before (view (flush fuel s)).
Proof.
  revert s. induction fuel as [|fuel IH]; intros s HR; [done|]. simpl.
  destruct (prev s.1) as [r|] eqn:Hr; [|done].
  destruct (dirty s.1); [|done].
  apply IH, ReadyOnce_render_St; [|done].
  destruct (ro_prev _ _ _ HR) as (r' & Hr' & Hf). simpl in Hr'. congruence.
Qed.

Lemma ReadyOnce_nextMonaco f before (v : View) :
  ReadyOnce f before v → ReadyOnce f before (viewNextMonaco (Some true) v).
Proof.
  intros [[Hn Hp] Hr Hl]. split; [split|..]; simpl; auto.
Qed.

Lemma ReadyOnce_valueRef f before x (v : View) :
  ReadyOnce f before v → ReadyOnce f before (viewValueRef x v).
Proof. intros [[Hn Hp] Hr Hl]. split; [split|..]; simpl; auto. Qed.

Lemma ReadyOnce_nextErrors f before x (v : View) :
  ReadyOnce f before v → ReadyOnce f before (viewNextErrors x v).
Proof. intros [[Hn Hp] Hr Hl]. split; [split|..]; simpl; auto. Qed.

Lemma ReadyOnce_unmounted f before (v : View) :
  ReadyOnce f before v → ReadyOnce f before (viewUnmounted v).
Proof. intros [[Hn Hp] Hr Hl]. split; [split|..]; simpl; auto. Qed.

Lemma ReadyOnce_step f before (s : St) e :
  keepsOnLoad f e →
  ReadyOnce f before (view s) → ReadyOnce f before (view (step s e)).
Proof.
  intros Hk HR. destruct e as [p|j|k content pos|k markers|]; simpl;
    unfold settle.
  - by apply ReadyOnce_flush, ReadyOnce_render_St.
  - apply ReadyOnce_flush.
    destruct (resourceLoaded_view j s) as [-> | [_ ->]];
      auto using ReadyOnce_nextMonaco.
  - apply ReadyOnce_flush.
    destruct (edit_view k content pos s) as (x & _ & ->).
    by apply ReadyOnce_valueRef.
  - apply ReadyOnce_flush.
    destruct (emitDecorations_view k markers s) as [-> | [_ ->]];
      auto using ReadyOnce_nextErrors.
  - destruct (unmount_view s) as [-> | ->]; auto using ReadyOnce_unmounted.
Qed.

Lemma ReadyOnce_run f before es (s : St) :
  Forall (keepsOnLoad f) es →
  ReadyOnce f before (view s) → ReadyOnce f before (view (run es s)).
Proof.
  intros Hall. revert s. induction Hall as [|e es He _ IH]; intros s HR;
    [done|].
  rewrite run_cons. by apply IH, ReadyOnce_step.
Qed.

(** The first render runs every effect. *)
Lemma first_render_view p w :
  ∃ cur,
    r_props cur = p ∧ r_monaco cur = windowMonaco w ∧
    view (render p (initial p w, w)) =
    viewPrev cur
      (viewCreate cur
         (viewLoad cur (viewQueued (view (initial p w, w))))).
Proof.
  destruct (render_view p (initial p w, w) eq_refl)
    as (x & cur & Hp & Hmo & Hx & ->).
  exists cur. split; [done|]. split; [done|].
  rewrite Hx by done. done.
Qed.

Lemma ReadyOnce_mount p w :
  ReadyOnce (onLoad p) (onLoads (trace w)) (view (mount p w)).
Proof.
  unfold mount, settle. apply ReadyOnce_flush.
  destruct (first_render_view p w) as (cur & Hp & Hmo & ->).
  unfold viewCreate, viewLoad. simpl. rewrite Hmo, Hp.
  destruct (windowMonaco w); simpl.
  - split; [split|..]; simpl; [by left| |by exists cur; rewrite Hp|done].
    by intros ? [= <-].
  - split; [split|..]; simpl;
      [by left| |by exists cur; rewrite Hp|by rewrite app_nil_r].
    by intros ? [= <-].
Qed.

Lemma SeededAtMount_render_St v0 before p (s : St) :
  SeededAtMount v0 before (view s) →
  SeededAtMount v0 before (view (render p s)).
Proof.
  intros HS. destruct (mounted s.1) eqn:Hm.
  - destruct (render_view p s Hm) as (x & cur & Hp & Hmo & Hx & ->).
    by apply SeededAtMount_render.
  - by rewrite render_unmounted.
Qed.

Lemma SeededAtMount_flush v0 before fuel (s : St) :
  SeededAtMount v0 before (view s) →
  SeededAtMount v0 before (view (flush fuel s)).
Proof.
  revert s. induction fuel as [|fuel IH]; intros s HS; [done|]. simpl.
  destruct (prev s.1) as [r|]; [|done].
  destruct (dirty s.1); [|done].
  by apply IH, SeededAtMount_render_St.
Qed.

Lemma SeededAtMount_nextMonaco v0 before (v : View) :
  SeededAtMount v0 before v →
  SeededAtMount v0 before (viewNextMonaco (Some true) v).
Proof. intros [[Hn Hp] Hc Hv Hm]. split; [split|..]; simpl; auto. Qed.

Lemma SeededAtMount_valueRef v0 before x (v : View) :
  (v_size v = 0%nat → x = v_valueRef v) →
  SeededAtMount v0 before v → SeededAtMount v0 before (viewValueRef x v).
Proof.
  intros Hx [[Hn Hp] Hc Hv Hm]. split; [split|..]; simpl; auto.
  intros Hz. rewrite Hx; auto.
Qed.

Lemma SeededAtMount_nextErrors v0 before x (v : View) :
  SeededAtMount v0 before v → SeededAtMount v0 before (viewNextErrors x v).
Proof. intros [[Hn Hp] Hc Hv Hm]. split; [split|..]; simpl; auto. Qed.

Lemma SeededAtMount_unmounted v0 before (v : View) :
  SeededAtMount v0 before v → SeededAtMount v0 before (viewUnmounted v).
Proof. intros [[Hn Hp] Hc Hv Hm]. split; [split|..]; simpl; auto. Qed.

Lemma SeededAtMount_step v0 before (s : St) e :
  SeededAtMount v0 before (view s) →
  SeededAtMount v0 before (view (step s e)).
Proof.
  intros HS. destruct e as [p|j|k content pos|k markers|]; simpl;
    unfold settle.
  - by apply SeededAtMount_flush, SeededAtMount_render_St.
  - apply SeededAtMount_flush.
    destruct (resourceLoaded_view j s) as [-> | [_ ->]];
      auto using SeededAtMount_nextMonaco.
  - apply SeededAtMount_flush.
    destruct (edit_view k content pos s) as (x & Hx & ->).
    by apply SeededAtMount_valueRef.
  - apply SeededAtMount_flush.
    destruct (emitDecorations_view k markers s) as [-> | [_ ->]];
      auto using SeededAtMount_nextErrors.
  - destruct (unmount_view s) as [-> | ->];
      auto using SeededAtMount_unmounted.
Qed.

Lemma SeededAtMount_run v0 before es (s : St) :
  SeededAtMount v0 before (view s) →
  SeededAtMount v0 before (view (run es s)).
Proof.
  revert s. induction es as [|e es IH]; intros s HS; [done|].
  rewrite run_cons. by apply IH, SeededAtMount_step.
Qed.

Lemma SeededAtMount_initial p w :
  SeededAtMount (value p) (creates (trace w)) (view (initial p w, w)).
Proof.
  split; [split|..]; simpl; auto.
  - done.
  - by rewrite app_nil_r.
  - done.
Qed.

(** Renders with the props of the previous render start no load. *)
Lemma LoadsKept_render n m (s : St) r :
  prev s.1 = Some r →
  LoadsKept n m (view s) → LoadsKept n m (view (render (r_props r) s)).
Proof.
  intros Hr [Hn (r' & Hr' & Hp) Hmon Hl]. simpl in *.
  assert (r' = r) as -> by congruence.
  destruct (mounted s.1) eqn:Hm.
  - destruct (render_view (r_props r) s Hm) as (x & cur & Hcur & Hmo & _ & ->).
    simpl in *. rewrite Hn in Hmo. simpl in Hmo.
    rewrite Hr, changed_depsLoad, changed_depsCreate by (by rewrite Hcur).
    rewrite Hp, Hmo, Hmon, Bool.eqb_reflx. simpl.
    split; simpl; rewrite ?Hn; simpl;
      [done|exists cur; split; congruence|done|done].
  - rewrite render_unmounted by done. split; simpl; eauto.
Qed.

Lemma LoadsKept_flush n m fuel (s : St) :
  LoadsKept n m (view s) → LoadsKept n m (view (flush fuel s)).
Proof.
  revert s. induction fuel as [|fuel IH]; intros s HL; [done|]. simpl.
  destruct (prev s.1) as [r|] eqn:Hr; [|done].
  destruct (dirty s.1); [|done].
  by apply IH, LoadsKept_render.
Qed.

Lemma LoadsKept_mount p w :
  LoadsKept (loadCalls w + if windowMonaco w then 0 else 1) (windowMonaco w)
            (view (mount p w)).
Proof.
  unfold mount, settle. apply LoadsKept_flush.
  destruct (first_render_view p w) as (cur & Hp & Hmo & ->).
  unfold viewCreate, viewLoad. simpl. rewrite Hmo.
  destruct (windowMonaco w); simpl;
    (split; simpl; [done|exists cur; split; congruence|done|lia]).
Qed.

(** *** The renders that follow an event come to an end *)

Lemma dirty_clean (s : St) : dirty s.1 = false ↔ clean (view s).
Proof.
  unfold dirty, clean. simpl.
  destruct (nextMonaco s.1), (nextEditor s.1), (nextErrors s.1); simpl;
    split; try done; intros (? & ? & ?); done.
Qed.

(** After any render nothing but [setEditor] can be queued. *)
Lemma render_committed p (s : St) :
  mounted s.1 = true →
  mounted (render p s).1 = true ∧
  Committed (view (render p s)) ∧
  v_nextMonaco (view (render p s)) = None ∧
  v_nextErrors (view (render p s)) = None.
Proof.
  intros Hm.
  change (mounted (render p s).1) with (v_mounted (view (render p s))).
  destruct (render_view p s Hm) as (x & cur & _ & Hmo & _ & ->).
  unfold Committed, viewCreate, viewLoad. simpl.
  destruct (changed depsLoad _ _), (changed depsCreate _ _); simpl;
    try destruct (negb (r_monaco cur)); simpl;
    (split; [done|]; split; [by exists cur|done]).
Qed.

(** The render after it queues nothing. *)
Lemma render_again_clean (s : St) r :
  mounted s.1 = true →
  prev s.1 = Some r → r_monaco r = monaco s.1 →
  nextMonaco s.1 = None →
  clean (view (render (r_props r) s)).
Proof.
  intros Hm Hr Hmon Hn.
  destruct (render_view (r_props r) s Hm) as (x & cur & Hcur & Hmo & _ & ->).
  simpl in *. rewrite Hn in Hmo. simpl in Hmo.
  rewrite Hr, changed_depsLoad, changed_depsCreate by (by rewrite Hcur).
  rewrite Hmon, Hmo, Bool.eqb_reflx. simpl. by unfold clean.
Qed.

Lemma flush_quiet fuel (s : St) :
  mounted s.1 = true → Committed (view s) →
  clean (view (flush (2 + fuel) s)) ∧ Committed (view (flush (2 + fuel) s)).
Proof.
  intros Hm (r & Hr & Hmon). simpl in Hr, Hmon.
  change (flush (2 + fuel) s) with
    (match prev s.1 with
     | Some r => if dirty s.1 then flush (S fuel) (render (r_props r) s) else s
     | None => s
     end).
  rewrite Hr. destruct (dirty s.1) eqn:Hd.
  - destruct (render_committed (r_props r) s Hm)
      as (Hm1 & (r1 & Hr1 & Hmon1) & Hn1 & He1).
    simpl in Hr1, Hmon1, Hn1.
    change (flush (S fuel) (render (r_props r) s)) with
      (match prev (render (r_props r) s).1 with
       | Some r' =>
           if dirty (render (r_props r) s).1
           then flush fuel (render (r_props r') (render (r_props r) s))
           else render (r_props r) s
       | None => render (r_props r) s
       end).
    rewrite Hr1. destruct (dirty (render (r_props r) s).1) eqn:Hd1.
    + pose proof (render_again_clean _ r1 Hm1 Hr1 Hmon1 Hn1) as Hc.
      rewrite flush_clean by (by apply dirty_clean).
      split; [done|].
      by destruct (render_committed (r_props r1) _ Hm1) as (_ & ? & _).
    + split; [by apply dirty_clean|]. by exists r1.
  - split; [by apply dirty_clean|]. by exists r.
Qed.

(** No queued update survives an event: the four renders of [settle] are
    enough. *)
Lemma step_quiet (s : St) e :
  clean (view s) → Committed (view s) →
  clean (view (step s e)) ∧ Committed (view (step s e)).
Proof.
  intros Hc Hk. destruct e as [p|j|k content pos|k markers|]; simpl;
    unfold settle.
  - destruct (mounted s.1) eqn:Hm.
    + destruct (render_committed p s Hm) as (Hm1 & Hk1 & _).
      by apply (flush_quiet 2).
    + rewrite render_unmounted by done.
      by rewrite flush_clean by (by apply dirty_clean).
  - destruct (resourceLoaded_view j s) as [Hv|[Hm Hv]].
    + rewrite flush_clean by (apply dirty_clean; by rewrite Hv).
      by rewrite Hv.
    + apply (flush_quiet 2).
      * change (v_mounted (view (resourceLoaded j s)) = true).
        by rewrite Hv.
      * by rewrite Hv.
  - destruct (edit_view k content pos s) as (x & _ & Hv).
    rewrite flush_clean by (apply dirty_clean; by rewrite Hv).
    by rewrite Hv.
  - destruct (emitDecorations_view k markers s) as [Hv|[Hm Hv]].
    + rewrite flush_clean by (apply dirty_clean; by rewrite Hv).
      by rewrite Hv.
    + apply (flush_quiet 2).
      * change (v_mounted (view (emitDecorations k markers s)) = true).
        by rewrite Hv.
      * by rewrite Hv.
  - destruct (unmount_view s) as [-> | ->]; [done|].
    split; [done|]. exact Hk.
Qed.

Lemma mount_quiet p w :
  clean (view (mount p w)) ∧ Committed (view (mount p w)).
Proof.
  unfold mount, settle.
  destruct (render_committed p (initial p w, w) eq_refl) as (Hm & Hk & _).
  by apply (flush_quiet 2).
Qed.

Lemma run_quiet es (s : St) :
  clean (view s) → Committed (view s) →
  clean (view (run es s)) ∧ Committed (view (run es s)).
Proof.
  revert s. induction es as [|e es IH]; intros s Hc Hk; [done|].
  rewrite run_cons. by apply IH; apply step_quiet.
Qed.

(** In every execution, each event is followed by as many renders as the
    state updates ask for. *)
Lemma execution_quiet p w es : dirty (run es (mount p w)).1 = false.
Proof.
  apply dirty_clean.
  by apply run_quiet; apply mount_quiet.
Qed.

(** *** The lifecycle properties *)

Lemma view_loadCalls (s : St) : v_loadCalls (view s) = loadCalls s.2.
Proof. done. Qed.

Lemma view_monaco (s : St) : v_monaco (view s) = monaco s.1.
Proof. done. Qed.

Lemma view_onLoads (s : St) : v_onLoads (view s) = onLoads (trace s.2).
Proof. done. Qed.

Lemma view_creates (s : St) : v_creates (view s) = creates (trace s.2).
Proof. done. Qed.

Lemma view_size (s : St) : v_size (view s) = length (editors s.1).
Proof. done. Qed.

(** C4 (as amended).  A component that mounts when [window.monaco] is
    already defined does not call [loadMonacoAsync] and has the library from
    its first render on; a component that mounts while [window.monaco] is
    undefined calls [loadMonacoAsync] exactly once during its mount,
    whatever other loads are under way. *)
Theorem mount_loads_unless_present (p : Props) (w : World) :
  loadCalls (mount p w).2 =
    (loadCalls w + if windowMonaco w then 0 else 1)%nat ∧
  monaco (mount p w).1 = windowMonaco w.
Proof.
  destruct (LoadsKept_mount p w) as [_ _ Hm Hl].
  rewrite view_monaco in Hm. rewrite view_loadCalls in Hl.
  split; [exact Hl|exact Hm].
Qed.

(** C5 (as amended).  Over every execution of a mounted component, at
    most one widget is created, and it is seeded with the [value] prop of
    the first render, whatever [value] later renders passed before the
    creation. *)
Theorem widget_seeded_at_mount (p : Props) (w : World) (es : list Event) :
  creates (trace (run es (mount p w)).2) =
  creates (trace w) ++
    match editors (run es (mount p w)).1 with
    | [] => []
    | _ :: _ => [(0%nat, value p)]
    end.
Proof.
  assert (SeededAtMount (value p) (creates (trace w))
            (view (run es (mount p w)))) as [_ Hc _ _].
  { apply SeededAtMount_run. unfold mount, settle.
    apply SeededAtMount_flush, SeededAtMount_render_St,
      SeededAtMount_initial. }
  rewrite view_creates, view_size in Hc. rewrite Hc.
  destruct (editors _); reflexivity.
Qed.

(** Over every execution in which the renders keep passing the same
    [onLoad] function, that function is invoked exactly once if the
    component has the library (it was present at mount, or the load has
    completed since) and not at all before that. *)
Lemma onLoads_while_callback_kept
    (p : Props) (w : World) (es : list Event) :
  Forall (keepsOnLoad (onLoad p)) es →
  onLoads (trace (run es (mount p w)).2) =
  onLoads (trace w) ++
    if monaco (run es (mount p w)).1 then [onLoad p] else [].
Proof.
  intros Hall.
  destruct (ReadyOnce_run _ _ es _ Hall (ReadyOnce_mount p w)) as [_ _ Hl].
  rewrite view_onLoads, view_monaco in Hl. exact Hl.
Qed.

(** *** The wiring of the widget through a commit *)

Lemma sameWiring_refl i : sameWiring i i.
Proof. by repeat split. Qed.

Lemma sameWiring_trans i1 i2 i3 :
  sameWiring i1 i2 → sameWiring i2 i3 → sameWiring i1 i3.
Proof.
  intros (H1 & H2 & H3 & H4) (G1 & G2 & G3 & G4).
  repeat split; congruence.
Qed.

Lemma Wired_same sk k ro lc ld n cc dc i i' :
  sameWiring i i' →
  Wired sk k ro lc ld n cc dc i → Wired sk k ro lc ld n cc dc i'.
Proof.
  intros (H1 & H2 & H3 & H4) [Hs (e & He) Hc Hd].
  split; [congruence| |congruence|congruence].
  exists e. by rewrite H2.
Qed.

Lemma changeHandler_same k cb (s : St) : sameWiring s.1 (changeHandler k cb s).1.
Proof.
  unfold changeHandler. destruct (editors s.1 !! k); by repeat split.
Qed.

Lemma emitChange_same k (s : St) : sameWiring s.1 (emitChange k s).1.
Proof.
  unfold emitChange. destruct (editors s.1 !! k) as [e|];
    [|apply sameWiring_refl].
  generalize (changeListeners e). intros ls. revert s.
  induction ls as [|l ls IH]; intros s; simpl; [apply sameWiring_refl|].
  eapply sameWiring_trans; [apply (changeHandler_same k l.2)|apply IH].
Qed.

(** A widget operation that leaves the widget in use. *)
Lemma widgetAt_alter k f ro lc ld n ro' lc' ld' n' i :
  (∀ e, disposed e = false → readOnlyOption e = ro →
        changeListeners e = lc → decorationListeners e = ld →
        nextListener e = n →
        disposed (f e) = false ∧ readOnlyOption (f e) = ro' ∧
        changeListeners (f e) = lc' ∧ decorationListeners (f e) = ld' ∧
        nextListener (f e) = n') →
  widgetAt k ro lc ld n i → widgetAt k ro' lc' ld' n' (alterEditor k f i).
Proof.
  intros Hf (e & He & H1 & H2 & H3 & H4 & H5).
  exists (f e). split.
  - simpl. by rewrite list_lookup_alter_eq, He.
  - by apply Hf.
Qed.

Lemma Wired_alter sk k f ro lc ld n ro' lc' ld' n' cc dc i :
  (∀ e, disposed e = false → readOnlyOption e = ro →
        changeListeners e = lc → decorationListeners e = ld →
        nextListener e = n →
        disposed (f e) = false ∧ readOnlyOption (f e) = ro' ∧
        changeListeners (f e) = lc' ∧ decorationListeners (f e) = ld' ∧
        nextListener (f e) = n') →
  Wired sk k ro lc ld n cc dc i →
  Wired sk k ro' lc' ld' n' cc dc (alterEditor k f i).
Proof.
  intros Hf [Hs Hw Hc Hd]. split; try done.
  by apply (widgetAt_alter k f ro lc ld n).
Qed.

Section Commit.

Context (sk : Inst) (k : nat).

Lemma syncEffect_wired b r (s : St) ro lc ld n cc dc :
  r_editor r = Some k →
  Wired sk k ro lc ld n cc dc s.1 →
  Wired sk k ro lc ld n cc dc (when b (syncEffect r) s).1.
Proof.
  intros Hed HW. unfold when, syncEffect. destruct b; [|done].
  rewrite Hed. destruct (String.eqb _ _); [done|].
  unfold editorSetValue.
  eapply Wired_same; [apply emitChange_same|]. cbn [fst].
  by apply (Wired_alter sk k _ ro lc ld n).
Qed.

Lemma createCleanupRun_skipped (s : St) : when false createCleanupRun s = s.
Proof. done. Qed.

Lemma changeCleanupRun_wired (b : bool) (s : St) ro lc ld n c dc :
  Wired sk k ro lc ld n (Some (k, c)) dc s.1 →
  Wired sk k ro
    (if b then filter (λ l, l.1 ≠ c) lc else lc)
    (if b then filter (λ l, l.1 ≠ c) ld else ld)
    n (Some (k, c)) dc (when b changeCleanupRun s).1.
Proof.
  intros HW. unfold when, changeCleanupRun. destruct b; [|done].
  rewrite (wd_change _ _ _ _ _ _ _ _ _ HW). cbn [withInst fst].
  apply (Wired_alter sk k _ ro lc ld n); [|done].
  intros e H1 H2 H3 H4 H5. simpl. by rewrite H3, H4.
Qed.

Lemma changeCleanupRun_none b (s : St) ro lc ld n dc :
  Wired sk k ro lc ld n None dc s.1 →
  Wired sk k ro lc ld n None dc (when b changeCleanupRun s).1.
Proof.
  intros HW. unfold when, changeCleanupRun. destruct b; [|done].
  by rewrite (wd_change _ _ _ _ _ _ _ _ _ HW).
Qed.

Lemma decorationsCleanupRun_wired (b : bool) (s : St) ro lc ld n cc d :
  Wired sk k ro lc ld n cc (Some (k, d)) s.1 →
  Wired sk k ro
    (if b then filter (λ l, l.1 ≠ d) lc else lc)
    (if b then filter (λ l, l.1 ≠ d) ld else ld)
    n cc (Some (k, d)) (when b decorationsCleanupRun s).1.
Proof.
  intros HW. unfold when, decorationsCleanupRun. destruct b; [|done].
  rewrite (wd_decorations _ _ _ _ _ _ _ _ _ HW). cbn [withInst fst].
  apply (Wired_alter sk k _ ro lc ld n); [|done].
  intros e H1 H2 H3 H4 H5. simpl. by rewrite H3, H4.
Qed.

Lemma decorationsCleanupRun_none b (s : St) ro lc ld n cc :
  Wired sk k ro lc ld n cc None s.1 →
  Wired sk k ro lc ld n cc None (when b decorationsCleanupRun s).1.
Proof.
  intros HW. unfold when, decorationsCleanupRun. destruct b; [|done].
  by rewrite (wd_decorations _ _ _ _ _ _ _ _ _ HW).
Qed.

Lemma loadEffect_wired b r (s : St) ro lc ld n cc dc :
  Wired sk k ro lc ld n cc dc s.1 →
  Wired sk k ro lc ld n cc dc (when b (loadEffect r) s).1.
Proof.
  intros HW. unfold when, loadEffect. destruct b; [|done].
  destruct (r_monaco r); [done|].
  eapply Wired_same; [|exact HW]. by repeat split.
Qed.

Lemma changeEffect_wired (b : bool) r (s : St) ro lc ld n cc dc :
  r_editor r = Some k → r_monaco r = true →
  Wired sk k ro lc ld n cc dc s.1 →
  Wired sk k ro
    (if b then lc ++ [(n, onChange (r_props r))] else lc) ld
    (if b then S n else n)
    (if b then Some (k, n) else cc) dc
    (when b (changeEffect r) s).1.
Proof.
  intros Hed Hmo HW. unfold when, changeEffect. destruct b; [|done].
  rewrite Hed, Hmo. cbn [negb withInst fst].
  destruct HW as [Hs (e & He & H1 & H2 & H3 & H4 & H5) Hc Hd].
  rewrite He. cbn [fmap option_fmap option_map default]. rewrite H5.
  split; try done.
  exists (addChangeListener (onChange (r_props r)) e). split.
  - simpl. by rewrite list_lookup_alter_eq, He.
  - simpl. by rewrite H3, H5.
Qed.

Lemma decorationsEffect_wired (b : bool) r (s : St) ro lc ld n cc dc :
  r_editor r = Some k → r_monaco r = true →
  Wired sk k ro lc ld n cc dc s.1 →
  Wired sk k ro lc
    (if b then ld ++ [(n, r_errors r)] else ld)
    (if b then S n else n)
    cc (if b then Some (k, n) else dc)
    (when b (decorationsEffect r) s).1.
Proof.
  intros Hed Hmo HW. unfold when, decorationsEffect. destruct b; [|done].
  rewrite Hed, Hmo. cbn [negb withInst fst].
  destruct HW as [Hs (e & He & H1 & H2 & H3 & H4 & H5) Hc Hd].
  rewrite He. cbn [fmap option_fmap option_map default]. rewrite H5.
  split; try done.
  exists (addDecorationListener (r_errors r) e). split.
  - simpl. by rewrite list_lookup_alter_eq, He.
  - simpl. by rewrite H4, H5.
Qed.

Lemma syntaxErrorEffect_inst b r (s : St) :
  (when b (syntaxErrorEffect r) s).1 = s.1.
Proof. by destruct b. Qed.

Lemma layoutEffect_inst b r (s : St) : (when b (layoutEffect r) s).1 = s.1.
Proof. unfold when, layoutEffect. by destruct b, (r_editor r). Qed.

Lemma syntaxErrorEffect_wired b r (s : St) ro lc ld n cc dc :
  Wired sk k ro lc ld n cc dc s.1 →
  Wired sk k ro lc ld n cc dc (when b (syntaxErrorEffect r) s).1.
Proof. by rewrite syntaxErrorEffect_inst. Qed.

Lemma layoutEffect_wired b r (s : St) ro lc ld n cc dc :
  Wired sk k ro lc ld n cc dc s.1 →
  Wired sk k ro lc ld n cc dc (when b (layoutEffect r) s).1.
Proof. by rewrite layoutEffect_inst. Qed.

Lemma languageEffect_wired b r (s : St) ro lc ld n cc dc :
  r_editor r = Some k →
  Wired sk k ro lc ld n cc dc s.1 →
  Wired sk k ro lc ld n cc dc (when b (languageEffect r) s).1.
Proof.
  intros Hed HW. unfold when, languageEffect. destruct b; [|done].
  rewrite Hed. destruct (negb (r_monaco r)); [done|]. cbn [fst].
  by apply (Wired_alter sk k _ ro lc ld n).
Qed.

Lemma readOnlyEffect_wired (b : bool) r (s : St) ro lc ld n cc dc :
  r_editor r = Some k →
  Wired sk k ro lc ld n cc dc s.1 →
  Wired sk k (if b then readOnly (r_props r) else ro) lc ld n cc dc
    (when b (readOnlyEffect r) s).1.
Proof.
  intros Hed HW. unfold when, readOnlyEffect. destruct b; [|done].
  rewrite Hed. cbn [fst].
  by apply (Wired_alter sk k _ ro lc ld n).
Qed.

End Commit.

Lemma changed_false {A} `{EqDecision A} (deps : Snapshot → A) r cur :
  changed deps (Some r) cur = false → deps r = deps cur.
Proof.
  unfold changed. intros Hb. apply negb_false_iff in Hb.
  by apply bool_decide_eq_true in Hb.
Qed.

(** Disposing of a subscription removes that listener and no other. *)
Lemma filter_own {A} (c : nat) (x : A) :
  filter (λ l : nat * A, l.1 ≠ c) [(c, x)] = [].
Proof. rewrite filter_cons_False; [done|]. simpl. by intros H. Qed.

Lemma filter_other {A} (c d : nat) (x : A) :
  c ≠ d → filter (λ l : nat * A, l.1 ≠ d) [(c, x)] = [(c, x)].
Proof. intros Hne. by rewrite filter_cons_True. Qed.

Lemma Wired_fields sk k ro lc ld n cc dc i :
  Wired sk k ro lc ld n cc dc i →
  mounted i = mounted sk ∧ monaco i = monaco sk ∧ editor i = editor sk ∧
  errors i = errors sk ∧ errorsId i = errorsId sk ∧ rootRef i = rootRef sk ∧
  prev i = prev sk ∧ nextMonaco i = nextMonaco sk ∧
  nextEditor i = nextEditor sk ∧ nextErrors i = nextErrors sk.
Proof. intros [<- _ _ _]. by repeat split. Qed.

(** A render of a component that drives its widget: the listeners whose
    dependencies changed are replaced, each by exactly one new listener. *)
Lemma Live_render p k queued i w p' :
  Live p k queued i → Live p' k None (render p' (i, w)).1.
Proof.
  intros [Hm Hmo Hed Hroot Hprev Hn1 Hn2 Hn3
            (c & d & n & Hcd & Hc & Hd & Hw & Hcc & Hdc)].
  unfold render. cbn [fst snd]. rewrite Hm. cbn [negb].
  set (i1 := applyQueued i). set (cur := snapshot p' i1).
  assert (prev i1 = Some (snapshot p i)) as Hold by done.
  assert (r_editor cur = Some k) as Hcur_ed.
  { subst cur i1. simpl. by rewrite Hn2. }
  assert (r_monaco cur = true) as Hcur_mo.
  { subst cur i1. simpl. by rewrite Hn1. }
  assert (Wired (skeleton i1) k (readOnly p) [(c, onChange p)]
            [(d, errors i)] n (Some (k, c)) (Some (k, d)) i1) as HW0
    by done.
  assert (depsCreate (snapshot p i) = depsCreate cur) as HdC.
  { unfold depsCreate. rewrite Hcur_mo. exact Hmo. }
  rewrite Hold. unfold commit. rewrite (changed_same depsCreate) by exact HdC.
  set (bS := changed depsSync _ _). set (bCh := changed depsChange _ _).
  set (bD := changed depsDecorations _ _). set (bL := changed depsLoad _ _).
  set (bE := changed depsSyntaxError _ _).
  set (bY := changed depsLayout _ _). set (bG := changed depsLanguage _ _).
  set (bR := changed depsReadOnly _ _).
  rewrite !createCleanupRun_skipped.
  change (when false (createEffect cur) ?s) with s.
  pose proof (syncEffect_wired _ k bS cur (i1, w) _ _ _ _ _ _ Hcur_ed HW0)
    as HW1.
  pose proof (changeCleanupRun_wired _ k bCh _ _ _ _ _ _ _ HW1) as HW2.
  pose proof (decorationsCleanupRun_wired _ k bD _ _ _ _ _ _ _ HW2) as HW3.
  pose proof (loadEffect_wired _ k bL cur _ _ _ _ _ _ _ HW3) as HW4.
  pose proof (changeEffect_wired _ k bCh cur _ _ _ _ _ _ _
                Hcur_ed Hcur_mo HW4) as HW5.
  pose proof (decorationsEffect_wired _ k bD cur _ _ _ _ _ _ _
                Hcur_ed Hcur_mo HW5) as HW6.
  pose proof (syntaxErrorEffect_wired _ k bE cur _ _ _ _ _ _ _ HW6) as HW6a.
  pose proof (layoutEffect_wired _ k bY cur _ _ _ _ _ _ _ HW6a) as HW6b.
  pose proof (languageEffect_wired _ k bG cur _ _ _ _ _ _ _ Hcur_ed HW6b)
    as HW7.
  pose proof (readOnlyEffect_wired _ k bR cur _ _ _ _ _ _ _ Hcur_ed HW7)
    as HW8.
  match type of HW8 with
  | Wired _ _ _ _ _ _ _ _ (fst ?s) => set (s12 := s) in *
  end.
  destruct (Wired_fields _ _ _ _ _ _ _ _ _ HW8)
    as (F1 & F2 & F3 & F4 & F5 & F6 & F7 & F8 & F9 & F10).
  destruct HW8 as [_ Hwid Hcc8 Hdc8].
  cbn [withInst fst].
  split; cbn [setPrev mounted monaco editor rootRef prev nextMonaco
                nextEditor nextErrors errors errorsId changeCleanup
                decorationsCleanup editors];
    try (by rewrite ?F1, ?F2, ?F3, ?F6, ?F8, ?F9, ?F10; subst i1; simpl;
            rewrite ?Hm, ?Hmo, ?Hed, ?Hn1, ?Hn2).
  - (* the committed render is the state *)
    f_equal. unfold snapshot. cbn [monaco editor errors errorsId setPrev].
    by rewrite F2, F3, F4, F5.
  - (* the listeners *)
    assert (bCh = false → onChange p = onChange p') as HbCh.
    { intros Hb. apply changed_false in Hb. by injection Hb. }
    assert (bD = false → errors i1 = errors i) as HbD.
    { intros Hb. apply changed_false in Hb. injection Hb as Hid.
      subst i1. simpl in *. destruct (nextErrors i); [lia|done]. }
    assert (bR = false → readOnly p = readOnly p') as HbR.
    { intros Hb. apply changed_false in Hb. by injection Hb. }
    assert (readOnly p' = if bR then readOnly p' else readOnly p) as ->.
    { destruct bR; [done|]. by rewrite HbR. }
    unfold widgetAt in Hwid |- *. cbn [editors setPrev].
    rewrite F4. change (errors (skeleton i1)) with (errors i1).
    rewrite Hcc8, Hdc8.
    change (r_props cur) with p' in Hwid.
    change (r_errors cur) with (errors i1) in Hwid.
    destruct bCh, bD; cbn [fst] in Hwid;
      rewrite ?filter_own, ?(filter_other _ _ _ Hcd),
        ?(filter_other _ _ _ (not_eq_sym Hcd)), ?filter_own, ?filter_nil
        in Hwid;
      cbn [app] in Hwid.
    + exists n, (S n), (S (S n)).
      split; [lia|]. split; [lia|]. split; [lia|]. by split.
    + exists n, d, (S n). rewrite HbD by done.
      split; [lia|]. split; [lia|]. split; [lia|]. by split.
    + exists c, n, (S n). rewrite <- HbCh by done.
      split; [lia|]. split; [lia|]. split; [lia|]. by split.
    + exists c, d, n. rewrite <- HbCh, HbD by done.
      split; [lia|]. split; [lia|]. split; [lia|]. by split.
Qed.

(** *** A commit of a component without a widget in use *)

Lemma changed_true {A} `{EqDecision A} (deps : Snapshot → A) r cur :
  deps r ≠ deps cur → changed deps (Some r) cur = true.
Proof. intros Hne. unfold changed. by rewrite bool_decide_eq_false_2. Qed.

Section BareCommit.

Context (m : bool) (r : Snapshot) (Hed : r_editor r = None).

Lemma syncEffect_bare b (s : St) : when b (syncEffect r) s = s.
Proof using Hed. unfold when, syncEffect. rewrite Hed. by destruct b. Qed.

Lemma layoutEffect_bare b (s : St) : when b (layoutEffect r) s = s.
Proof using Hed. unfold when, layoutEffect. rewrite Hed. by destruct b. Qed.

Lemma languageEffect_bare b (s : St) : when b (languageEffect r) s = s.
Proof using Hed. unfold when, languageEffect. rewrite Hed. by destruct b. Qed.

Lemma readOnlyEffect_bare b (s : St) : when b (readOnlyEffect r) s = s.
Proof using Hed. unfold when, readOnlyEffect. rewrite Hed. by destruct b. Qed.

Lemma changeCleanupRun_bare b es ne (s : St) :
  Bare m es ne s.1 → when b changeCleanupRun s = s.
Proof.
  intros HB. unfold when, changeCleanupRun.
  rewrite (br_change _ _ _ _ HB). by destruct b.
Qed.

Lemma decorationsCleanupRun_bare b es ne (s : St) :
  Bare m es ne s.1 → when b decorationsCleanupRun s = s.
Proof.
  intros HB. unfold when, decorationsCleanupRun.
  rewrite (br_decorations _ _ _ _ HB). by destruct b.
Qed.

Lemma loadEffect_bare b es ne (s : St) :
  Bare m es ne s.1 → Bare m es ne (when b (loadEffect r) s).1.
Proof.
  intros []. unfold when, loadEffect. destruct b; [|done].
  by destruct (r_monaco r).
Qed.

Lemma changeEffect_bare b es ne (s : St) :
  Bare m es ne s.1 → Bare m es ne (when b (changeEffect r) s).1.
Proof using Hed.
  intros []. unfold when, changeEffect. rewrite Hed. by destruct b.
Qed.

Lemma decorationsEffect_bare b es ne (s : St) :
  Bare m es ne s.1 → Bare m es ne (when b (decorationsEffect r) s).1.
Proof using Hed.
  intros []. unfold when, decorationsEffect. rewrite Hed. by destruct b.
Qed.

Lemma syntaxErrorEffect_bare b es ne (s : St) :
  Bare m es ne s.1 → Bare m es ne (when b (syntaxErrorEffect r) s).1.
Proof. by rewrite syntaxErrorEffect_inst. Qed.

Lemma createEffect_bare_absent b es ne (s : St) :
  r_monaco r = false →
  Bare m es ne s.1 → Bare m es ne (when b (createEffect r) s).1.
Proof.
  intros Hmo []. unfold when, createEffect. rewrite Hmo. by destruct b.
Qed.

Lemma createEffect_bare_present (s : St) :
  r_monaco r = true →
  Bare m [] None s.1 →
  Bare m [newEditor (valueRef s.1)] (Some 0%nat) (createEffect r s).1.
Proof.
  intros Hmo [Hm ? ? Hroot ? ? ? He ? ?]. unfold createEffect, setEditor.
  rewrite Hmo, Hroot. simpl. rewrite Hm, He. by split.
Qed.

End BareCommit.

Lemma createCleanupRun_bare m b ne (s : St) :
  Bare m [] ne s.1 → Bare m [] ne (when b createCleanupRun s).1.
Proof.
  intros [? ? ? ? ? ? ? He ? ?]. unfold when, createCleanupRun.
  destruct b; [|done]. destruct (createCleanup s.1); [|done].
  split; try done. simpl. by rewrite He.
Qed.

(** No effect touches the state hooks. *)
Lemma sameWiring_snapshot p i i' :
  sameWiring i i' → snapshot p i' = snapshot p i.
Proof.
  intros (Hs & _). unfold snapshot.
  change (monaco i') with (monaco (skeleton i')).
  change (editor i') with (editor (skeleton i')).
  change (errors i') with (errors (skeleton i')).
  change (errorsId i') with (errorsId (skeleton i')).
  by rewrite Hs.
Qed.

Lemma syncEffect_snapshot p b r (s : St) :
  snapshot p (when b (syncEffect r) s).1 = snapshot p s.1.
Proof.
  unfold when, syncEffect. destruct b; [|done].
  destruct (r_editor r); [|done]. destruct (String.eqb _ _); [done|].
  unfold editorSetValue. by rewrite (sameWiring_snapshot _ _ _ (emitChange_same _ _)).
Qed.

Ltac hooks := intros; unfold_effects; repeat (simpl in *; case_match); done.

Lemma commit_snapshot p old cur (s : St) :
  snapshot p (commit old cur s).1 = snapshot p s.1.
Proof.
  unfold commit. cbn [withInst fst].
  change (snapshot p (setPrev cur ?i)) with (snapshot p i).
  assert (∀ b s, snapshot p (when b (readOnlyEffect cur) s).1
                 = snapshot p s.1) as -> by hooks.
  assert (∀ b s, snapshot p (when b (languageEffect cur) s).1
                 = snapshot p s.1) as -> by hooks.
  assert (∀ b s, snapshot p (when b (layoutEffect cur) s).1
                 = snapshot p s.1) as -> by hooks.
  assert (∀ b s, snapshot p (when b (syntaxErrorEffect cur) s).1
                 = snapshot p s.1) as -> by hooks.
  assert (∀ b s, snapshot p (when b (decorationsEffect cur) s).1
                 = snapshot p s.1) as -> by hooks.
  assert (∀ b s, snapshot p (when b (changeEffect cur) s).1
                 = snapshot p s.1) as -> by hooks.
  assert (∀ b s, snapshot p (when b (createEffect cur) s).1
                 = snapshot p s.1) as -> by hooks.
  assert (∀ b s, snapshot p (when b (loadEffect cur) s).1
                 = snapshot p s.1) as -> by hooks.
  assert (∀ b s, snapshot p (when b decorationsCleanupRun s).1
                 = snapshot p s.1) as -> by hooks.
  assert (∀ b s, snapshot p (when b changeCleanupRun s).1
                 = snapshot p s.1) as -> by hooks.
  assert (∀ b s, snapshot p (when b createCleanupRun s).1
                 = snapshot p s.1) as -> by hooks.
  apply syncEffect_snapshot.
Qed.

Lemma commit_prev old cur (s : St) : prev (commit old cur s).1 = Some cur.
Proof. done. Qed.

(** The commit of a render in which the component has no widget in use.
    Without the library it goes on waiting; with the library, which the
    previous render did not have, it creates the widget. *)
Lemma commit_bare m old p (i : Inst) w :
  Bare m [] None i →
  (m = true → changed depsCreate old (snapshot p i) = true) →
  if m then Created p (commit old (snapshot p i) (i, w)).1
  else Waiting p false (commit old (snapshot p i) (i, w)).1.
Proof.
  intros HB Hnew.
  pose proof (commit_snapshot p old (snapshot p i) (i, w)) as Hsnap.
  pose proof (commit_prev old (snapshot p i) (i, w)) as Hprev.
  cbn [fst] in Hsnap. rewrite <- Hsnap in Hprev at 2. clear Hsnap.
  revert Hprev. unfold commit.
  set (cur := snapshot p i) in *.
  assert (r_editor cur = None) as Hed by apply (br_editor _ _ _ _ HB).
  assert (r_monaco cur = m) as Hmo by apply (br_monaco _ _ _ _ HB).
  rewrite (syncEffect_bare _ Hed).
  pose proof (createCleanupRun_bare m (changed depsCreate old cur) _ (i, w) HB)
    as HB1.
  rewrite (changeCleanupRun_bare m _ _ _ _ HB1).
  rewrite (decorationsCleanupRun_bare m _ _ _ _ HB1).
  pose proof (loadEffect_bare m cur (changed depsLoad old cur) _ _ _ HB1)
    as HB2.
  rewrite (readOnlyEffect_bare _ Hed), (languageEffect_bare _ Hed),
    (layoutEffect_bare _ Hed).
  destruct m.
  - (* the library is there: the widget is created *)
    rewrite (Hnew eq_refl) in *. unfold when at 4.
    pose proof (createEffect_bare_present true cur _ Hmo HB2) as HB3.
    pose proof (changeEffect_bare true cur Hed
                  (changed depsChange old cur) _ _ _ HB3) as HB4.
    pose proof (decorationsEffect_bare true cur Hed
                  (changed depsDecorations old cur) _ _ _ HB4) as HB5.
    pose proof (syntaxErrorEffect_bare true cur
                  (changed depsSyntaxError old cur) _ _ _ HB5) as HB6.
    destruct HB6 as [H1 H2 H3 H4 H5 H6 H7 H8 H9 H10].
    cbn [withInst fst]. intros Hprev.
    split; cbn [setPrev mounted monaco editor rootRef nextMonaco
                  nextEditor nextErrors editors changeCleanup
                  decorationsCleanup]; try done.
    by eexists.
  - (* still no library *)
    pose proof (createEffect_bare_absent false cur
                  (changed depsCreate old cur) _ _ _ Hmo HB2) as HB3.
    pose proof (changeEffect_bare false cur Hed
                  (changed depsChange old cur) _ _ _ HB3) as HB4.
    pose proof (decorationsEffect_bare false cur Hed
                  (changed depsDecorations old cur) _ _ _ HB4) as HB5.
    pose proof (syntaxErrorEffect_bare false cur
                  (changed depsSyntaxError old cur) _ _ _ HB5) as HB6.
    destruct HB6 as [H1 H2 H3 H4 H5 H6 H7 H8 H9 H10].
    cbn [withInst fst]. intros Hprev.
    split; cbn [setPrev mounted monaco editor rootRef nextMonaco
                  nextEditor nextErrors editors changeCleanup
                  decorationsCleanup]; done.
Qed.

Lemma Waiting_render p arriving i w p' :
  Waiting p arriving i →
  if arriving then Created p' (render p' (i, w)).1
  else Waiting p' false (render p' (i, w)).1.
Proof.
  intros [Hm Hmo Hed Hroot Hprev Hn1 Hn2 Hn3 He Hc Hd].
  unfold render. cbn [fst snd]. rewrite Hm. cbn [negb].
  assert (Bare arriving [] None (applyQueued i)) as HB.
  { split; simpl; try done.
    - rewrite Hmo, Hn1. by destruct arriving.
    - by rewrite Hn2. }
  apply (commit_bare arriving (prev (applyQueued i)) p' _ w HB).
  intros ->. change (prev (applyQueued i)) with (prev i). rewrite Hprev.
  apply changed_true. unfold depsCreate. simpl. by rewrite Hmo, Hn1.
Qed.

Lemma initial_render p w :
  if windowMonaco w then Created p (render p (initial p w, w)).1
  else Waiting p false (render p (initial p w, w)).1.
Proof.
  unfold render. cbn [fst snd initial mounted negb].
  apply (commit_bare (windowMonaco w) None p _ w); [by split|done].
Qed.

(** The render after the creation subscribes the two listeners. *)
Lemma Created_render p i w p' :
  Created p i → Live p' 0 None (render p' (i, w)).1.
Proof.
  intros [Hm Hmo Hed Hroot Hprev Hn1 Hn2 Hn3 (v & He) Hc Hd].
  unfold render. cbn [fst snd]. rewrite Hm. cbn [negb].
  set (i1 := applyQueued i). set (cur := snapshot p' i1).
  assert (prev i1 = Some (snapshot p i)) as Hold by done.
  assert (r_editor cur = Some 0%nat) as Hcur_ed.
  { subst cur i1. simpl. by rewrite Hn2. }
  assert (r_monaco cur = true) as Hcur_mo.
  { subst cur i1. simpl. by rewrite Hn1. }
  assert (Wired (skeleton i1) 0 false [] [] 0 None None i1) as HW0.
  { split; try done. exists (newEditor v). subst i1. simpl. by rewrite He. }
  assert (depsCreate (snapshot p i) = depsCreate cur) as HdC.
  { unfold depsCreate. rewrite Hcur_mo. exact Hmo. }
  rewrite Hold. unfold commit. rewrite (changed_same depsCreate) by exact HdC.
  rewrite (changed_true depsChange), (changed_true depsDecorations),
    (changed_true depsReadOnly)
    by (unfold depsChange, depsDecorations, depsReadOnly;
        rewrite Hcur_ed; simpl; rewrite Hed; congruence).
  set (bS := changed depsSync _ _). set (bL := changed depsLoad _ _).
  set (bE := changed depsSyntaxError _ _).
  set (bY := changed depsLayout _ _). set (bG := changed depsLanguage _ _).
  rewrite !createCleanupRun_skipped.
  change (when false (createEffect cur) ?s) with s.
  pose proof (syncEffect_wired _ 0 bS cur (i1, w) _ _ _ _ _ _ Hcur_ed HW0)
    as HW1.
  pose proof (changeCleanupRun_none _ 0 true _ _ _ _ _ _ HW1) as HW2.
  pose proof (decorationsCleanupRun_none _ 0 true _ _ _ _ _ _ HW2) as HW3.
  pose proof (loadEffect_wired _ 0 bL cur _ _ _ _ _ _ _ HW3) as HW4.
  pose proof (changeEffect_wired _ 0 true cur _ _ _ _ _ _ _
                Hcur_ed Hcur_mo HW4) as HW5.
  pose proof (decorationsEffect_wired _ 0 true cur _ _ _ _ _ _ _
                Hcur_ed Hcur_mo HW5) as HW6.
  pose proof (syntaxErrorEffect_wired _ 0 bE cur _ _ _ _ _ _ _ HW6) as HW6a.
  pose proof (layoutEffect_wired _ 0 bY cur _ _ _ _ _ _ _ HW6a) as HW6b.
  pose proof (languageEffect_wired _ 0 bG cur _ _ _ _ _ _ _ Hcur_ed HW6b)
    as HW7.
  pose proof (readOnlyEffect_wired _ 0 true cur _ _ _ _ _ _ _ Hcur_ed HW7)
    as HW8.
  match type of HW8 with
  | Wired _ _ _ _ _ _ _ _ (fst ?s) => set (s12 := s) in *
  end.
  destruct (Wired_fields _ _ _ _ _ _ _ _ _ HW8)
    as (F1 & F2 & F3 & F4 & F5 & F6 & F7 & F8 & F9 & F10).
  destruct HW8 as [_ Hwid Hcc8 Hdc8].
  cbn [withInst fst].
  split; cbn [setPrev mounted monaco editor rootRef prev nextMonaco
                nextEditor nextErrors errors errorsId changeCleanup
                decorationsCleanup editors];
    try (by rewrite ?F1, ?F2, ?F3, ?F6, ?F8, ?F9, ?F10; subst i1; simpl;
            rewrite ?Hm, ?Hmo, ?Hed, ?Hn1, ?Hn2).
  - f_equal. unfold snapshot. cbn [monaco editor errors errorsId setPrev].
    by rewrite F2, F3, F4, F5.
  - exists 0%nat, 1%nat, 2%nat.
    split; [lia|]. split; [lia|]. split; [lia|].
    unfold widgetAt in Hwid |- *. cbn [editors setPrev].
    rewrite F4. by split.
Qed.

(** *** The phases of a component over an execution *)

Lemma sameWiring_fields i i' :
  sameWiring i i' →
  mounted i' = mounted i ∧ monaco i' = monaco i ∧ editor i' = editor i ∧
  errors i' = errors i ∧ errorsId i' = errorsId i ∧ rootRef i' = rootRef i ∧
  prev i' = prev i ∧ nextMonaco i' = nextMonaco i ∧
  nextEditor i' = nextEditor i ∧ nextErrors i' = nextErrors i.
Proof.
  intros (Hs & _).
  change (mounted i' = mounted i) with
    (mounted (skeleton i') = mounted (skeleton i)).
  change (monaco i' = monaco i) with
    (monaco (skeleton i') = monaco (skeleton i)).
  change (editor i' = editor i) with
    (editor (skeleton i') = editor (skeleton i)).
  change (errors i' = errors i) with
    (errors (skeleton i') = errors (skeleton i)).
  change (errorsId i' = errorsId i) with
    (errorsId (skeleton i') = errorsId (skeleton i)).
  change (rootRef i' = rootRef i) with
    (rootRef (skeleton i') = rootRef (skeleton i)).
  change (prev i' = prev i) with (prev (skeleton i') = prev (skeleton i)).
  change (nextMonaco i' = nextMonaco i) with
    (nextMonaco (skeleton i') = nextMonaco (skeleton i)).
  change (nextEditor i' = nextEditor i) with
    (nextEditor (skeleton i') = nextEditor (skeleton i)).
  change (nextErrors i' = nextErrors i) with
    (nextErrors (skeleton i') = nextErrors (skeleton i)).
  rewrite Hs. by repeat split.
Qed.

Lemma Live_same p k queued i i' :
  sameWiring i i' → Live p k queued i → Live p k queued i'.
Proof.
  intros Hsame [Hm Hmo Hed Hroot Hprev Hn1 Hn2 Hn3
                  (c & d & n & Hcd & Hc & Hd & Hw & Hcc & Hdc)].
  pose proof (sameWiring_snapshot p _ _ Hsame) as Hsnap.
  destruct (sameWiring_fields _ _ Hsame)
    as (F1 & F2 & F3 & F4 & F5 & F6 & F7 & F8 & F9 & F10).
  destruct Hsame as (_ & He & Hc' & Hd').
  split; try congruence.
  exists c, d, n. unfold widgetAt in *. rewrite He, F4, Hc', Hd'.
  by repeat split.
Qed.

Lemma Waiting_same p arriving i i' :
  sameWiring i i' → Waiting p arriving i → Waiting p arriving i'.
Proof.
  intros Hsame [Hm Hmo Hed Hroot Hprev Hn1 Hn2 Hn3 He Hc Hd].
  pose proof (sameWiring_snapshot p _ _ Hsame) as Hsnap.
  destruct (sameWiring_fields _ _ Hsame)
    as (F1 & F2 & F3 & F4 & F5 & F6 & F7 & F8 & F9 & F10).
  destruct Hsame as (_ & He' & Hc' & Hd').
  split; congruence.
Qed.

Lemma Live_dirty p k queued i :
  Live p k queued i → dirty i = bool_decide (is_Some queued).
Proof.
  intros []. unfold dirty.
  rewrite lv_nextMonaco0, lv_nextEditor0, lv_nextErrors0. by destruct queued.
Qed.

Lemma Live_props p k queued i :
  Live p k queued i → r_props <$> prev i = Some p.
Proof. intros []. by rewrite lv_prev0. Qed.

Lemma flush_Live p k queued fuel (s : St) :
  Live p k queued s.1 → Live p k None (flush (S fuel) s).1.
Proof.
  intros HL. simpl.
  rewrite (lv_prev _ _ _ _ HL), (Live_dirty _ _ _ _ HL).
  destruct queued as [q|]; simpl; [|done].
  destruct s as [i w]. cbn [r_props snapshot fst] in *.
  pose proof (Live_render p k (Some q) i w p HL) as HL1.
  rewrite flush_clean; [done|].
  by rewrite (Live_dirty _ _ _ _ HL1).
Qed.

Lemma flush_Created p fuel (s : St) :
  Created p s.1 → Live p 0 None (flush (S fuel) s).1.
Proof.
  intros HC. simpl. rewrite (cr_prev _ _ HC).
  assert (dirty s.1 = true) as ->.
  { unfold dirty. rewrite (cr_nextEditor _ _ HC). by destruct (nextMonaco _). }
  destruct s as [i w]. cbn [r_props snapshot fst] in *.
  pose proof (Created_render p i w p HC) as HL.
  rewrite flush_clean; [done|]. by rewrite (Live_dirty _ _ _ _ HL).
Qed.

Lemma flush_Waiting p arriving fuel (s : St) :
  Waiting p arriving s.1 →
  if arriving then Live p 0 None (flush (2 + fuel) s).1
  else Waiting p false (flush fuel s).1.
Proof.
  intros HW. destruct arriving.
  - change (flush (2 + fuel) s) with
      (match prev s.1 with
       | Some r =>
           if dirty s.1 then flush (S fuel) (render (r_props r) s) else s
       | None => s
       end).
    rewrite (wt_prev _ _ _ HW).
    assert (dirty s.1 = true) as ->.
    { unfold dirty. by rewrite (wt_nextMonaco _ _ _ HW). }
    destruct s as [i w]. cbn [r_props snapshot fst] in *.
    apply flush_Created. apply (Waiting_render p true i w p HW).
  - rewrite flush_clean; [done|].
    unfold dirty.
    by rewrite (wt_nextMonaco _ _ _ HW), (wt_nextEditor _ _ _ HW),
      (wt_nextErrors _ _ _ HW).
Qed.

(** Widget operations that touch neither the listeners nor the options
    that the wiring depends on. *)
Lemma Live_alter p k queued k' f i :
  (∀ e, disposed (f e) = disposed e ∧
        readOnlyOption (f e) = readOnlyOption e ∧
        changeListeners (f e) = changeListeners e ∧
        decorationListeners (f e) = decorationListeners e ∧
        nextListener (f e) = nextListener e) →
  Live p k queued i → Live p k queued (alterEditor k' f i).
Proof.
  intros Hf [Hm Hmo Hed Hroot Hprev Hn1 Hn2 Hn3
               (c & d & n & Hcd & Hc & Hd & Hw & Hcc & Hdc)].
  split; try done.
  exists c, d, n. repeat split; try done.
  destruct Hw as (e & He & H1 & H2 & H3 & H4 & H5).
  destruct (decide (k' = k)) as [->|Hne].
  - exists (f e). simpl. rewrite list_lookup_alter_eq, He.
    destruct (Hf e) as (G1 & G2 & G3 & G4 & G5).
    repeat split; congruence.
  - exists e. simpl. by rewrite list_lookup_alter_ne.
Qed.

Lemma resourceLoaded_Live p k j (s : St) :
  Live p k None s.1 → Live p k None (resourceLoaded j s).1.
Proof.
  intros HL. apply (Live_same p k None s.1); [|done].
  unfold resourceLoaded, setMonaco.
  destruct (loading s.1 !! j) as [[|[|[|[|n]]]]|]; cbn [fst];
    try (by repeat split).
  cbn [mounted monaco setLoading].
  rewrite (lv_mounted _ _ _ _ HL), (lv_monaco _ _ _ _ HL). by repeat split.
Qed.

Lemma resourceLoaded_Waiting p j (s : St) :
  Waiting p false s.1 → ∃ arriving, Waiting p arriving (resourceLoaded j s).1.
Proof.
  intros HW. unfold resourceLoaded, setMonaco.
  destruct (loading s.1 !! j) as [[|[|[|[|n]]]]|]; cbn [fst];
    try (exists false; apply (Waiting_same p false s.1); [|done];
         by repeat split).
  - cbn [mounted monaco setLoading].
    rewrite (wt_mounted _ _ _ HW), (wt_monaco _ _ _ HW). cbn [negb orb Bool.eqb].
    exists true. destruct HW. split; simpl; try done.
    rewrite wt_prev0. unfold snapshot. simpl. by rewrite wt_monaco0.
Qed.

Lemma edit_Live p k k' content pos (s : St) :
  Live p k None s.1 → Live p k None (edit k' content pos s).1.
Proof.
  intros HL. unfold edit. destruct (editors s.1 !! k') as [e|]; [|done].
  destruct (disposed e || readOnlyOption e); [done|].
  eapply Live_same; [apply emitChange_same|]. cbn [fst].
  by apply Live_alter.
Qed.

Lemma edit_Waiting p k content pos (s : St) :
  Waiting p false s.1 → edit k content pos s = s.
Proof.
  intros HW. unfold edit. by rewrite (wt_editors _ _ _ HW).
Qed.

Lemma setErrors_Live p k queued markers i :
  Live p k queued i → Live p k (Some markers) (setErrors markers i).
Proof.
  intros []. unfold setErrors. rewrite lv_mounted0. by split.
Qed.

Lemma decorationsHandler_Live p k queued k' captured markers (s : St) :
  Live p k queued s.1 →
  ∃ queued', Live p k queued' (decorationsHandler k' captured markers s).1.
Proof.
  intros HL. unfold decorationsHandler.
  destruct (editors s.1 !! k') as [e|]; [|by exists queued].
  destruct (disposed e || negb (String.eqb (modeId e) "json"));
    [by exists queued|].
  destruct (markersMatch captured markers) as [[|]|];
    try (by exists queued).
  exists (Some markers). by apply (setErrors_Live p k queued).
Qed.

Lemma emitDecorations_Live p k k' markers (s : St) :
  Live p k None s.1 →
  ∃ queued, Live p k queued (emitDecorations k' markers s).1.
Proof.
  intros HL. unfold emitDecorations.
  destruct (editors s.1 !! k') as [e|]; [|by exists None].
  revert HL. generalize (@None (list Marker)).
  generalize (decorationListeners e). intros ls. revert s.
  induction ls as [|l ls IH]; intros s q HL; simpl; [by exists q|].
  destruct (decorationsHandler_Live p k q k' l.2 markers s HL) as [q' HL'].
  by apply (IH _ q').
Qed.

Lemma emitDecorations_Waiting p k markers (s : St) :
  Waiting p false s.1 → emitDecorations k markers s = s.
Proof.
  intros HW. unfold emitDecorations. by rewrite (wt_editors _ _ _ HW).
Qed.

Lemma unmount_unmounted (s : St) : mounted (unmount s).1 = false.
Proof. unfold unmount. by destruct (mounted s.1) eqn:Hm. Qed.

Lemma flush_unmounted fuel (s : St) :
  mounted s.1 = false → mounted (flush fuel s).1 = false.
Proof.
  revert s. induction fuel as [|fuel IH]; intros s Hm; [done|]. simpl.
  destruct (prev s.1); [|done]. destruct (dirty s.1); [|done].
  apply IH. by rewrite render_unmounted.
Qed.

Lemma step_unmounted (s : St) e :
  mounted s.1 = false → mounted (step s e).1 = false.
Proof.
  intros Hm. destruct e as [p|j|k content pos|k markers|]; simpl;
    unfold settle; try apply flush_unmounted.
  - by rewrite render_unmounted.
  - change (v_mounted (view (resourceLoaded j s)) = false).
    destruct (resourceLoaded_view j s) as [-> |[Hm' _]]; [done|congruence].
  - change (v_mounted (view (edit k content pos s)) = false).
    by destruct (edit_view k content pos s) as (x & _ & ->).
  - change (v_mounted (view (emitDecorations k markers s)) = false).
    destruct (emitDecorations_view k markers s) as [-> |[Hm' _]];
      [done|congruence].
  - apply unmount_unmounted.
Qed.

(** Between two events a mounted component either waits for the library,
    without a widget, or drives its widget through exactly one content
    listener and one decoration listener. *)
Lemma Phase_step (s : St) e : Phase s.1 → Phase (step s e).1.
Proof.
  intros [Hm|(p & [HW|(k & HL)])].
  - left. by apply step_unmounted.
  - destruct e as [p'|j|k content pos|k markers|]; simpl; unfold settle.
    + right. exists p'. left. destruct s as [i w].
      apply (flush_Waiting p' false), (Waiting_render p false i w p' HW).
    + right. exists p.
      destruct (resourceLoaded_Waiting p j s HW) as [[|] HW'].
      * right. exists 0%nat. apply (flush_Waiting p true 2 _ HW').
      * left. apply (flush_Waiting p false _ _ HW').
    + right. exists p. left. rewrite (edit_Waiting p) by done.
      by apply (flush_Waiting p false).
    + right. exists p. left. rewrite (emitDecorations_Waiting p) by done.
      by apply (flush_Waiting p false).
    + left. apply unmount_unmounted.
  - destruct e as [p'|j|k' content pos|k' markers|]; simpl; unfold settle.
    + right. exists p'. right. exists k. destruct s as [i w].
      apply (flush_Live p' k None), (Live_render p k None i w p' HL).
    + right. exists p. right. exists k.
      by apply (flush_Live p k None), resourceLoaded_Live.
    + right. exists p. right. exists k.
      by apply (flush_Live p k None), edit_Live.
    + right. exists p. right. exists k.
      destruct (emitDecorations_Live p k k' markers s HL) as [q HL'].
      by apply (flush_Live p k q).
    + left. apply unmount_unmounted.
Qed.

Lemma Phase_mount p w : Phase (mount p w).1.
Proof.
  right. exists p. unfold mount, settle.
  pose proof (initial_render p w) as H.
  destruct (windowMonaco w).
  - right. exists 0%nat. by apply flush_Created.
  - left. by apply (flush_Waiting p false).
Qed.

Lemma Phase_run es (s : St) : Phase s.1 → Phase (run es s).1.
Proof.
  revert s. induction es as [|e es IH]; intros s HP; [done|].
  rewrite run_cons. by apply IH, Phase_step.
Qed.

(** *** The listeners over every execution *)

(** A mounted component whose [editor] state holds widget [k] drives it. *)
Lemma execution_Live p w es k :
  mounted (execution p w es).1 = true →
  editor (execution p w es).1 = Some k →
  ∃ p', Live p' k None (execution p w es).1.
Proof.
  intros Hm Hed.
  destruct (Phase_run es _ (Phase_mount p w)) as [Hu|(p' & [HW|(k' & HL)])].
  - unfold execution in Hm. congruence.
  - pose proof (wt_editor _ _ _ HW) as Hnone.
    unfold execution in Hed. congruence.
  - exists p'. pose proof (lv_editor _ _ _ _ HL) as Hk.
    unfold execution in Hed. by assert (k' = k) as -> by congruence.
Qed.

(** Over every execution, while the component is mounted and drives a
    widget: when the owner renders it again with the props of the last
    render, except that [value] is what [valueRef.current] holds, neither
    the widgets nor the trace change. *)
Lemma execution_rerender_equal_value p w es k :
  mounted (execution p w es).1 = true →
  editor (execution p w es).1 = Some k →
  ∃ p', r_props <$> prev (execution p w es).1 = Some p' ∧
        trace (step (execution p w es)
                 (Rerender (withValue (valueRef (execution p w es).1) p'))).2
          = trace (execution p w es).2 ∧
        editors (step (execution p w es)
                   (Rerender (withValue (valueRef (execution p w es).1) p'))).1
          = editors (execution p w es).1.
Proof.
  intros Hm Hed.
  destruct (execution_Live p w es k Hm Hed) as (p' & HL).
  exists p'. split; [apply (Live_props _ _ _ _ HL)|].
  pose proof (Live_dirty _ _ _ _ HL) as Hd.
  cbn [step]. unfold settle.
  rewrite (rerender_equal_value_is_noop p' _ k); try done.
  - by rewrite flush_clean.
  - apply (lv_rootRef _ _ _ _ HL).
  - apply (lv_prev _ _ _ _ HL).
Qed.

(** C3.  Over every execution, while the component is mounted and its
    [editor] state holds widget [k]: any sequence of decoration events of
    that widget whose marker list matches the stored [errors], under
    [markersMatch], leaves the state and the trace as they are.
    [setErrors] is not called, no render follows and [onSyntaxError] is not
    invoked. *)
Theorem unchanged_markers_are_silent
    (p : Props) (w : World) (es : list Event) (k : nat)
    (batches : list (list Marker)) :
  mounted (execution p w es).1 = true →
  editor (execution p w es).1 = Some k →
  Forall (λ markers,
            markersMatch (errors (execution p w es).1) markers = Some true)
         batches →
  run (Decorations k <$> batches) (execution p w es) = execution p w es ∧
  trace (run (Decorations k <$> batches) (execution p w es)).2 =
    trace (execution p w es).2.
Proof.
  intros Hm Hed Hall.
  destruct (execution_Live p w es k Hm Hed) as (p' & HL).
  destruct (lv_wired _ _ _ _ HL)
    as (c & d & n & _ & _ & _ & (e & He & _ & _ & _ & Hld & _) & _ & _).
  apply (matching_decorations_silent k e); try done.
  - by rewrite (Live_dirty _ _ _ _ HL).
  - rewrite Hld. by repeat constructor.
Qed.

(** Between two events, while the component is mounted and its [editor]
    state holds widget [k]: each content change event of the widget sets
    [valueRef.current] to the widget's content and invokes, once and at
    once, the [onChange] of the last render with that content; so a
    sequence of edits of a widget that takes input adds one invocation per
    edit to the trace, in the order of the edits. *)
Lemma settled_change_events_are_delivered
    (p : Props) (w : World) (es : list Event) (k : nat)
    (edits : list (string * nat)) :
  mounted (execution p w es).1 = true →
  editor (execution p w es).1 = Some k →
  ∃ p' e,
    r_props <$> prev (execution p w es).1 = Some p' ∧
    editors (execution p w es).1 !! k = Some e ∧
    emitChange k (execution p w es) =
      (setValueRef (buffer e) (execution p w es).1,
       log (OnChange (onChange p') (buffer e)) (execution p w es).2) ∧
    (readOnly p' = false →
     trace (run ((λ c, Edit k c.1 c.2) <$> edits) (execution p w es)).2 =
       trace (execution p w es).2 ++
         ((λ c, OnChange (onChange p') c.1) <$> edits) ∧
     valueRef (run ((λ c, Edit k c.1 c.2) <$> edits) (execution p w es)).1 =
       default (valueRef (execution p w es).1) (fst <$> last edits)).
Proof.
  intros Hm Hed.
  destruct (execution_Live p w es k Hm Hed) as (p' & HL).
  destruct (lv_wired _ _ _ _ HL)
    as (c & d & n & _ & _ & _ & (e & He & Hdis & Hro & Hlc & _ & _) & _ & _).
  exists p', e. split; [apply (Live_props _ _ _ _ HL)|].
  split; [done|]. split.
  - by apply (emitChange_single k c).
  - intros Hinput.
    destruct (edits_delivered k c (onChange p') e edits (execution p w es))
      as (Ht & Hv & _); try done.
    + by rewrite (Live_dirty _ _ _ _ HL).
    + congruence.
Qed.

End MonacoFacts.

(** ** The component seen from outside *)

Module ObservationFacts.
Import MarkerDiff Monaco MonacoFacts Observation.

Lemma faces_alter_with (f : Editor → Editor) g k (l : list Editor) :
  (∀ e, face (f e) = g (face e)) →
  face <$> alter f k l = alter g k (face <$> l).
Proof. intros Hf. apply list_fmap_alter, Forall_forall. by intros. Qed.

Lemma faces_alter (f : Editor → Editor) k (l : list Editor) :
  (∀ e, face (f e) = face e) → face <$> alter f k l = face <$> l.
Proof.
  intros Hf. rewrite (faces_alter_with f id) by done.
  apply list_eq. intros j. rewrite list_lookup_alter.
  destruct (decide (k = j)) as [->|]; [|done]. by destruct (_ !! j).
Qed.

Lemma obs_changeCleanupRun b (s : St) : obs (when b changeCleanupRun s) = obs s.
Proof.
  unfold when, changeCleanupRun. destruct b; [|done].
  destruct (changeCleanup s.1) as [[k sub]|]; [|done].
  unfold obs. simpl. by rewrite faces_alter.
Qed.

Lemma obs_decorationsCleanupRun b (s : St) :
  obs (when b decorationsCleanupRun s) = obs s.
Proof.
  unfold when, decorationsCleanupRun. destruct b; [|done].
  destruct (decorationsCleanup s.1) as [[k sub]|]; [|done].
  unfold obs. simpl. by rewrite faces_alter.
Qed.

Lemma obs_loadEffect b r (s : St) :
  r_monaco r = true →
  obs (when b (loadEffect r) s) =
  obsWhen b (obsLog [OnLoad (onLoad (r_props r))]) (obs s).
Proof. intros Hmo. unfold when, loadEffect. rewrite Hmo. by destruct b. Qed.

Lemma obs_changeEffect b r (s : St) : obs (when b (changeEffect r) s) = obs s.
Proof.
  unfold when, changeEffect. destruct b; [|done].
  destruct (r_editor r); [|done]. destruct (negb (r_monaco r)); [done|].
  unfold obs. simpl. by rewrite faces_alter.
Qed.

Lemma obs_decorationsEffect b r (s : St) :
  obs (when b (decorationsEffect r) s) = obs s.
Proof.
  unfold when, decorationsEffect. destruct b; [|done].
  destruct (r_editor r); [|done]. destruct (negb (r_monaco r)); [done|].
  unfold obs. simpl. by rewrite faces_alter.
Qed.

Lemma obs_syntaxErrorEffect b r (s : St) :
  obs (when b (syntaxErrorEffect r) s) =
  obsWhen b (obsLog [OnSyntaxError (onSyntaxError (r_props r)) (r_errors r)])
    (obs s).
Proof. by destruct b. Qed.

Lemma obs_layoutEffect b r k (s : St) :
  r_editor r = Some k →
  obs (when b (layoutEffect r) s) =
  obsWhen b (obsLog [EditorLayout k true; EditorLayout k false]) (obs s).
Proof.
  intros Hed. unfold when, layoutEffect. rewrite Hed. destruct b; [|done].
  unfold obs, obsWhen, obsLog. simpl. by rewrite <- app_assoc.
Qed.

Lemma obs_languageEffect b r k (s : St) :
  r_editor r = Some k → r_monaco r = true →
  obs (when b (languageEffect r) s) =
  obsWhen b (obsLanguage k (language (r_props r))) (obs s).
Proof.
  intros Hed Hmo. unfold when, languageEffect. rewrite Hed, Hmo.
  destruct b; [|done]. unfold obs, obsWhen, obsLanguage. simpl.
  by rewrite (faces_alter_with _ (λ x, (x.1, language (r_props r)))).
Qed.

Lemma obs_readOnlyEffect b r k (s : St) :
  r_editor r = Some k →
  obs (when b (readOnlyEffect r) s) =
  obsWhen b (obsLog [UpdateOptions k (readOnly (r_props r))]) (obs s).
Proof.
  intros Hed. unfold when, readOnlyEffect. rewrite Hed. destruct b; [|done].
  unfold obs, obsWhen, obsLog. simpl. by rewrite faces_alter.
Qed.

Lemma foldl_changeHandler_obs k v (e : Editor) (ls : list (nat * FnId)) (s : St) :
  editors s.1 !! k = Some e → buffer e = v →
  obs (foldl (λ s l, changeHandler k l.2 s) s ls) =
  {| o_trace := o_trace (obs s) ++ ((λ l, OnChange l.2 v) <$> ls);
     o_valueRef := match ls with [] => valueRef s.1 | _ :: _ => v end;
     o_faces := o_faces (obs s) |}.
Proof.
  revert s. induction ls as [|l ls IH]; intros s He Hv; simpl.
  - by rewrite app_nil_r.
  - rewrite IH; [|unfold changeHandler; by rewrite He|done].
    unfold changeHandler. rewrite He, Hv. unfold obs. simpl.
    rewrite <- app_assoc. simpl. f_equal. by destruct ls.
Qed.

Lemma obs_syncEffect b r k (s : St) e :
  r_editor r = Some k →
  editors s.1 !! k = Some e →
  obs (when b (syncEffect r) s) =
  obsWhen b (obsSync k (value (r_props r)) (snd <$> changeListeners e)) (obs s).
Proof.
  intros Hed He. unfold when, syncEffect. rewrite Hed. destruct b; [|done].
  unfold obsWhen, obsSync. cbn [obs o_valueRef].
  destruct (String.eqb _ _); [done|].
  unfold editorSetValue, emitChange. cbn [fst alterEditor setEditors editors].
  rewrite list_lookup_alter_eq, He. cbn [fmap option_fmap option_map].
  rewrite (foldl_changeHandler_obs k (value (r_props r))
             (writeBuffer (value (r_props r)) 0 e)).
  - unfold obs. simpl.
    rewrite (faces_alter_with _ (λ x, (value (r_props r), 0%nat, x.2))) by done.
    rewrite <- app_assoc, <- list_fmap_compose. simpl.
    f_equal. by destruct (changeListeners e).
  - simpl. by rewrite list_lookup_alter_eq, He.
  - done.
Qed.

Lemma obs_trace (s : St) : trace s.2 = o_trace (obs s).
Proof. done. Qed.

Lemma obs_valueRef (s : St) : valueRef s.1 = o_valueRef (obs s).
Proof. done. Qed.

Lemma obs_faces (s : St) : face <$> editors s.1 = o_faces (obs s).
Proof. done. Qed.

Lemma obs_setPrev r (s : St) : obs (withInst (setPrev r) s) = obs s.
Proof. done. Qed.

Lemma obs_applyQueued i w : obs (applyQueued i, w) = obs (i, w).
Proof. done. Qed.

(** A render of a component that drives widget [k], on the observation. *)
Lemma Live_render_obs p k queued i w p' :
  Live p k queued i →
  obs (render p' (i, w)) =
  let cur := snapshot p' (applyQueued i) in
  let old := Some (snapshot p i) in
  obsWhen (changed depsReadOnly old cur)
    (obsLog [UpdateOptions k (readOnly p')])
  (obsWhen (changed depsLanguage old cur) (obsLanguage k (language p'))
  (obsWhen (changed depsLayout old cur)
    (obsLog [EditorLayout k true; EditorLayout k false])
  (obsWhen (changed depsSyntaxError old cur)
    (obsLog [OnSyntaxError (onSyntaxError p')
               (default (errors i) queued)])
  (obsWhen (changed depsLoad old cur) (obsLog [OnLoad (onLoad p')])
  (obsWhen (changed depsSync old cur) (obsSync k (value p') [onChange p])
    (obs (i, w))))))).
Proof.
  intros [Hm Hmo Hed Hroot Hprev Hn1 Hn2 Hn3
            (c & d & n & Hcd & Hc & Hd & (e & He & _ & _ & Hlc & _) & Hcc & Hdc)].
  unfold render. cbn [fst snd]. rewrite Hm. cbn [negb].
  change (prev (applyQueued i)) with (prev i). rewrite Hprev.
  set (i1 := applyQueued i). set (cur := snapshot p' i1).
  assert (r_editor cur = Some k) as Hcur_ed.
  { subst cur i1. simpl. by rewrite Hn2. }
  assert (r_monaco cur = true) as Hcur_mo.
  { subst cur i1. simpl. by rewrite Hn1. }
  assert (r_errors cur = default (errors i) queued) as Hcur_err.
  { subst cur i1. simpl. by rewrite Hn3. }
  assert (depsCreate (snapshot p i) = depsCreate cur) as HdC.
  { unfold depsCreate. rewrite Hcur_mo. exact Hmo. }
  unfold commit. rewrite (changed_same depsCreate) by exact HdC.
  rewrite !createCleanupRun_skipped.
  change (when false (createEffect cur) ?s) with s.
  rewrite obs_setPrev, (obs_readOnlyEffect _ _ k), (obs_languageEffect _ _ k),
    (obs_layoutEffect _ _ k), obs_syntaxErrorEffect, obs_decorationsEffect,
    obs_changeEffect, obs_loadEffect, obs_decorationsCleanupRun,
    obs_changeCleanupRun, (obs_syncEffect _ _ k _ e) by done.
  rewrite Hlc, Hcur_err. done.
Qed.

(** *** The cleanup of the second effect *)

Lemma sameWiring_createCleanup i i' :
  sameWiring i i' → createCleanup i' = createCleanup i.
Proof.
  intros (Hs & _).
  change (createCleanup (skeleton i') = createCleanup (skeleton i)).
  by rewrite Hs.
Qed.

Lemma syncEffect_createCleanup b r (s : St) :
  createCleanup (when b (syncEffect r) s).1 = createCleanup s.1.
Proof.
  unfold when, syncEffect. destruct b; [|done].
  destruct (r_editor r); [|done]. destruct (String.eqb _ _); [done|].
  unfold editorSetValue.
  by rewrite (sameWiring_createCleanup _ _ (emitChange_same _ _)).
Qed.

Lemma commit_createCleanup old cur (s : St) :
  createCleanup (commit old cur s).1 =
  if changed depsCreate old cur then
    if negb (r_monaco cur) || negb (rootRef s.1) then None
    else Some (length (editors s.1))
  else createCleanup s.1.
Proof.
  unfold commit. cbn [withInst fst].
  change (createCleanup (setPrev cur ?i)) with (createCleanup i).
  assert (∀ b s, createCleanup (when b (readOnlyEffect cur) s).1
                 = createCleanup s.1) as -> by hooks.
  assert (∀ b s, createCleanup (when b (languageEffect cur) s).1
                 = createCleanup s.1) as -> by hooks.
  assert (∀ b s, createCleanup (when b (layoutEffect cur) s).1
                 = createCleanup s.1) as -> by hooks.
  assert (∀ b s, createCleanup (when b (syntaxErrorEffect cur) s).1
                 = createCleanup s.1) as -> by hooks.
  assert (∀ b s, createCleanup (when b (decorationsEffect cur) s).1
                 = createCleanup s.1) as -> by hooks.
  assert (∀ b s, createCleanup (when b (changeEffect cur) s).1
                 = createCleanup s.1) as -> by hooks.
  set (pre := when (changed depsLoad old cur) (loadEffect cur) _).
  assert (createCleanup pre.1 = createCleanup s.1) as Hpre.
  { subst pre.
    assert (∀ b s, createCleanup (when b (loadEffect cur) s).1
                   = createCleanup s.1) as -> by hooks.
    assert (∀ b s, createCleanup (when b decorationsCleanupRun s).1
                   = createCleanup s.1) as -> by hooks.
    assert (∀ b s, createCleanup (when b changeCleanupRun s).1
                   = createCleanup s.1) as -> by hooks.
    assert (∀ b s, createCleanup (when b createCleanupRun s).1
                   = createCleanup s.1) as -> by hooks.
    apply syncEffect_createCleanup. }
  assert (view pre = (if changed depsLoad old cur
                      then viewLoad cur else id)
                       (viewValueRef
                          (valueRef (when (changed depsSync old cur)
                                       (syncEffect cur) s).1) (view s)))
    as Hview.
  { subst pre.
    rewrite loadEffect_view, decorationsCleanupRun_view,
      changeCleanupRun_view, createCleanupRun_view, syncEffect_view.
    by destruct (changed depsLoad old cur). }
  assert (rootRef pre.1 = rootRef s.1) as Hroot.
  { change (v_rootRef (view pre) = v_rootRef (view s)). rewrite Hview.
    by destruct (changed depsLoad old cur). }
  assert (length (editors pre.1) = length (editors s.1)) as Hlen.
  { change (v_size (view pre) = v_size (view s)). rewrite Hview.
    by destruct (changed depsLoad old cur). }
  destruct (changed depsCreate old cur); [|done].
  unfold when, createEffect. rewrite Hroot, Hlen.
  by destruct (negb (r_monaco cur) || negb (rootRef s.1)).
Qed.

(** *** The widget in use over a render *)

Lemma faces_mode (s : St) k :
  modeId <$> editors s.1 !! k = snd <$> o_faces (obs s) !! k.
Proof.
  unfold obs. cbn [o_faces]. rewrite list_lookup_fmap.
  by destruct (editors s.1 !! k).
Qed.

Lemma faces_length (s : St) : length (editors s.1) = length (o_faces (obs s)).
Proof. unfold obs. cbn [o_faces]. by rewrite length_fmap. Qed.

Lemma o_faces_log b l o : o_faces (obsWhen b (obsLog l) o) = o_faces o.
Proof. by destruct b. Qed.

Lemma o_faces_language b k lang o :
  o_faces (obsWhen b (obsLanguage k lang) o) =
  if b then alter (λ x, (x.1, lang)) k (o_faces o) else o_faces o.
Proof. by destruct b. Qed.

Lemma o_faces_sync b k v cbs o :
  o_faces (obsWhen b (obsSync k v cbs) o) =
  if b && negb (String.eqb (o_valueRef o) v)
  then alter (λ x, (v, 0%nat, x.2)) k (o_faces o) else o_faces o.
Proof. unfold obsWhen, obsSync. destruct b; [|done]. by destruct (String.eqb _ _). Qed.

Lemma render_createCleanup p k queued i w p' :
  Live p k queued i →
  createCleanup (render p' (i, w)).1 = createCleanup i.
Proof.
  intros HL. unfold render. cbn [fst snd].
  rewrite (lv_mounted _ _ _ _ HL). cbn [negb].
  rewrite commit_createCleanup.
  change (prev (applyQueued i)) with (prev i).
  rewrite (lv_prev _ _ _ _ HL), (changed_same depsCreate); [done|].
  unfold depsCreate. simpl.
  by rewrite (lv_monaco _ _ _ _ HL), (lv_nextMonaco _ _ _ _ HL).
Qed.

Lemma Tuned_render p k queued i w p' :
  Live p k queued i → Tuned p k i → Tuned p' k (render p' (i, w)).1.
Proof.
  intros HL [Hlen Hk Hmode Hcl].
  pose proof (Live_render_obs p k queued i w p' HL) as Hobs.
  cbn zeta in Hobs.
  split.
  - rewrite faces_length, Hobs, !o_faces_log, o_faces_language, !o_faces_log,
      o_faces_sync.
    repeat case_match; rewrite ?length_alter; by rewrite <- faces_length.
  - done.
  - rewrite faces_mode, Hobs, !o_faces_log, o_faces_language, !o_faces_log,
      o_faces_sync.
    change (modeId <$> editors (i, w).1 !! k = Some (language p)) in Hmode.
    rewrite faces_mode in Hmode.
    destruct (changed depsLanguage _ _) eqn:HbG.
    + rewrite list_lookup_alter_eq.
      destruct (_ && _); rewrite ?list_lookup_alter_eq;
        by destruct (o_faces (obs (i, w)) !! k).
    + apply changed_false in HbG. injection HbG as _ _ Hlang.
      rewrite <- Hlang.
      destruct (_ && _); rewrite ?list_lookup_alter_eq;
        by destruct (o_faces (obs (i, w)) !! k).
  - by rewrite (render_createCleanup p k queued).
Qed.

(** *** A commit without a widget in use, on the observation *)

Lemma obs_loadEffect_any b r (s : St) :
  obs (when b (loadEffect r) s) =
  obsWhen b (obsLog [if r_monaco r then OnLoad (onLoad (r_props r))
                     else LoadCSS]) (obs s).
Proof. unfold when, loadEffect. destruct b; [|done]. by destruct (r_monaco r). Qed.

Lemma obs_createEffect b r (s : St) :
  obs (when b (createEffect r) s) =
  obsWhen (b && r_monaco r && rootRef s.1) obsCreate (obs s).
Proof.
  unfold when, createEffect. destruct b; [|done].
  destruct (r_monaco r), (rootRef s.1); try done.
  assert (editors (setCreateCleanup (Some (length (editors s.1)))
             (setEditor (length (editors s.1))
                (setEditors (editors s.1 ++ [newEditor (valueRef s.1)]) s.1)))
          = editors s.1 ++ [newEditor (valueRef s.1)]) as He.
  { unfold setEditor. by destruct (negb (mounted _)). }
  assert (valueRef (setCreateCleanup (Some (length (editors s.1)))
             (setEditor (length (editors s.1))
                (setEditors (editors s.1 ++ [newEditor (valueRef s.1)]) s.1)))
          = valueRef s.1) as Hv.
  { unfold setEditor. by destruct (negb (mounted _)). }
  unfold obs, obsCreate. cbn [andb negb orb fst snd obsWhen o_trace o_faces o_valueRef log trace].
  rewrite He, Hv, fmap_app, length_fmap. done.
Qed.

Lemma loadEffect_rootRef b r (s : St) :
  rootRef (when b (loadEffect r) s).1 = rootRef s.1.
Proof. hooks. Qed.

Lemma commit_bare_obs m old p (i : Inst) w :
  Bare m [] None i → createCleanup i = None →
  obs (commit old (snapshot p i) (i, w)) =
  obsWhen (changed depsSyntaxError old (snapshot p i))
    (obsLog [OnSyntaxError (onSyntaxError p) (errors i)])
  (obsWhen (changed depsCreate old (snapshot p i) && m) obsCreate
  (obsWhen (changed depsLoad old (snapshot p i))
    (obsLog [if m then OnLoad (onLoad p) else LoadCSS])
    (obs (i, w)))).
Proof.
  intros HB Hcl. unfold commit.
  set (cur := snapshot p i) in *.
  assert (r_editor cur = None) as Hed by apply (br_editor _ _ _ _ HB).
  assert (r_monaco cur = m) as Hmo by apply (br_monaco _ _ _ _ HB).
  rewrite (syncEffect_bare _ Hed).
  assert (when (changed depsCreate old cur) createCleanupRun (i, w) = (i, w))
    as ->.
  { unfold when, createCleanupRun. cbn [fst]. rewrite Hcl.
    by destruct (changed depsCreate old cur). }
  rewrite (changeCleanupRun_bare m _ [] None (i, w)) by exact HB.
  rewrite (decorationsCleanupRun_bare m _ [] None (i, w)) by exact HB.
  rewrite (readOnlyEffect_bare _ Hed), (languageEffect_bare _ Hed),
    (layoutEffect_bare _ Hed).
  rewrite obs_setPrev, obs_syntaxErrorEffect, obs_decorationsEffect,
    obs_changeEffect, obs_createEffect, obs_loadEffect_any, loadEffect_rootRef.
  cbn [fst]. rewrite (br_rootRef _ _ _ _ HB), Hmo, andb_true_r. done.
Qed.

Lemma Waiting_render_obs p arriving i w p' :
  Waiting p arriving i → createCleanup i = None →
  obs (render p' (i, w)) =
  let cur := snapshot p' (applyQueued i) in
  let old := Some (snapshot p i) in
  obsWhen (changed depsSyntaxError old cur)
    (obsLog [OnSyntaxError (onSyntaxError p') (errors i)])
  (obsWhen arriving obsCreate
  (obsWhen (changed depsLoad old cur)
    (obsLog [if arriving then OnLoad (onLoad p') else LoadCSS])
    (obs (i, w)))).
Proof.
  intros [Hm Hmo Hed Hroot Hprev Hn1 Hn2 Hn3 He Hc Hd] Hcl.
  unfold render. cbn [fst snd]. rewrite Hm. cbn [negb].
  assert (Bare arriving [] None (applyQueued i)) as HB.
  { split; simpl; try done.
    - rewrite Hmo, Hn1. by destruct arriving.
    - by rewrite Hn2. }
  rewrite (commit_bare_obs arriving _ p' _ w HB) by done.
  change (prev (applyQueued i)) with (prev i). rewrite Hprev.
  change (errors (applyQueued i)) with (default (errors i) (nextErrors i)).
  rewrite Hn3. cbn [default].
  assert (changed depsCreate (Some (snapshot p i))
            (snapshot p' (applyQueued i)) = arriving) as ->.
  { unfold changed, depsCreate. simpl. rewrite Hmo, Hn1.
    by destruct arriving. }
  by rewrite andb_diag.
Qed.

Lemma Waiting_render_createCleanup p arriving i w p' :
  Waiting p arriving i → createCleanup i = None →
  createCleanup (render p' (i, w)).1 =
  if arriving then Some 0%nat else None.
Proof.
  intros [Hm Hmo Hed Hroot Hprev Hn1 Hn2 Hn3 He Hc Hd] Hcl.
  unfold render. cbn [fst snd]. rewrite Hm. cbn [negb].
  rewrite commit_createCleanup.
  change (prev (applyQueued i)) with (prev i). rewrite Hprev.
  unfold changed, depsCreate. simpl. rewrite Hmo, Hn1, He.
  by destruct arriving.
Qed.

Lemma initial_render_obs p w :
  obs (render p (initial p w, w)) =
  obsLog [OnSyntaxError (onSyntaxError p) []]
  (obsWhen (windowMonaco w) obsCreate
  (obsLog [if windowMonaco w then OnLoad (onLoad p) else LoadCSS]
    (obs (initial p w, w)))).
Proof.
  unfold render. cbn [fst snd initial mounted negb].
  by rewrite (commit_bare_obs (windowMonaco w) None p _ w).
Qed.

Lemma initial_render_createCleanup p w :
  createCleanup (render p (initial p w, w)).1 =
  if windowMonaco w then Some 0%nat else None.
Proof.
  unfold render. cbn [fst snd initial mounted negb].
  rewrite commit_createCleanup. simpl. by destruct (windowMonaco w).
Qed.

(** The render after the creation, on the observation. *)
Lemma Created_render_obs p i w p' :
  Created p i →
  obs (render p' (i, w)) =
  let cur := snapshot p' (applyQueued i) in
  let old := Some (snapshot p i) in
  obsLog [UpdateOptions 0 (readOnly p')]
  (obsLanguage 0 (language p')
  (obsLog [EditorLayout 0 true; EditorLayout 0 false]
  (obsWhen (changed depsSyntaxError old cur)
    (obsLog [OnSyntaxError (onSyntaxError p') (errors i)])
  (obsWhen (changed depsLoad old cur) (obsLog [OnLoad (onLoad p')])
  (obsSync 0 (value p') [] (obs (i, w))))))).
Proof.
  intros [Hm Hmo Hed Hroot Hprev Hn1 Hn2 Hn3 (v & He) Hc Hd].
  unfold render. cbn [fst snd]. rewrite Hm. cbn [negb].
  change (prev (applyQueued i)) with (prev i). rewrite Hprev.
  set (i1 := applyQueued i). set (cur := snapshot p' i1).
  assert (r_editor cur = Some 0%nat) as Hcur_ed.
  { subst cur i1. simpl. by rewrite Hn2. }
  assert (r_monaco cur = true) as Hcur_mo.
  { subst cur i1. simpl. by rewrite Hn1. }
  assert (r_errors cur = errors i) as Hcur_err.
  { subst cur i1. simpl. by rewrite Hn3. }
  assert (depsCreate (snapshot p i) = depsCreate cur) as HdC.
  { unfold depsCreate. rewrite Hcur_mo. exact Hmo. }
  unfold commit. rewrite (changed_same depsCreate) by exact HdC.
  rewrite (changed_true depsSync), (changed_true depsLayout),
    (changed_true depsLanguage), (changed_true depsReadOnly)
    by (unfold depsSync, depsLayout, depsLanguage, depsReadOnly;
        rewrite Hcur_ed; simpl; rewrite Hed; congruence).
  rewrite !createCleanupRun_skipped.
  change (when false (createEffect cur) ?s) with s.
  rewrite obs_setPrev, (obs_readOnlyEffect _ _ 0), (obs_languageEffect _ _ 0),
    (obs_layoutEffect _ _ 0), obs_syntaxErrorEffect, obs_decorationsEffect,
    obs_changeEffect, obs_loadEffect, obs_decorationsCleanupRun,
    obs_changeCleanupRun, (obs_syncEffect _ _ 0 _ (newEditor v));
    [|done..| |done|done|done|done|done].
  - by rewrite Hcur_err.
  - subst i1. simpl. by rewrite He.
Qed.

Lemma Created_render_createCleanup p i w p' :
  Created p i → createCleanup (render p' (i, w)).1 = createCleanup i.
Proof.
  intros HC. unfold render. cbn [fst snd].
  rewrite (cr_mounted _ _ HC). cbn [negb].
  rewrite commit_createCleanup.
  change (prev (applyQueued i)) with (prev i).
  rewrite (cr_prev _ _ HC), (changed_same depsCreate); [done|].
  unfold depsCreate. simpl.
  by rewrite (cr_monaco _ _ HC), (cr_nextMonaco _ _ HC).
Qed.

Lemma Created_render_Tuned p i w p' :
  Created p i → createCleanup i = Some 0%nat →
  Tuned p' 0 (render p' (i, w)).1.
Proof.
  intros HC Hcl.
  pose proof (Created_render_obs p i w p' HC) as Hobs. cbn zeta in Hobs.
  destruct (cr_editors _ _ HC) as (v & He).
  assert (o_faces (obs (i, w)) = [face (newEditor v)]) as Hfaces.
  { unfold obs. cbn [o_faces fst]. by rewrite He. }
  split.
  - rewrite faces_length, Hobs. cbn [obsLog obsLanguage o_faces].
    rewrite length_alter, !o_faces_log.
    unfold obsSync. case_match; cbn [o_faces]; rewrite ?length_alter;
      by rewrite Hfaces.
  - done.
  - rewrite faces_mode, Hobs. cbn [obsLog obsLanguage o_faces].
    rewrite list_lookup_alter_eq, !o_faces_log.
    unfold obsSync. case_match; cbn [o_faces]; by rewrite Hfaces.
  - by rewrite (Created_render_createCleanup p).
Qed.

(** *** The full phases over an execution *)

Lemma Tuned_same p k i i' : sameWiring i i' → Tuned p k i → Tuned p k i'.
Proof.
  intros Hsame [Hlen Hk Hmode Hcl].
  pose proof (sameWiring_createCleanup _ _ Hsame) as Hc.
  destruct Hsame as (_ & He & _). split; congruence.
Qed.

Lemma Tuned_alter p k k' f i :
  (∀ e, modeId (f e) = modeId e) →
  Tuned p k i → Tuned p k (alterEditor k' f i).
Proof.
  intros Hf [Hlen Hk Hmode Hcl]. split; try done.
  - simpl. by rewrite length_alter.
  - simpl. rewrite list_lookup_alter.
    destruct (decide (k' = k)) as [->|]; [|done].
    destruct (editors i !! k) as [e|]; [|done]. simpl in *. by rewrite Hf.
Qed.

Lemma flush_Live_Tuned p k queued fuel (s : St) :
  Live p k queued s.1 → Tuned p k s.1 → Tuned p k (flush (S fuel) s).1.
Proof.
  intros HL HT. simpl.
  rewrite (lv_prev _ _ _ _ HL), (Live_dirty _ _ _ _ HL).
  destruct queued as [q|]; simpl; [|done].
  destruct s as [i w]. cbn [r_props snapshot fst] in *.
  pose proof (Live_render p k (Some q) i w p HL) as HL1.
  rewrite flush_clean; [|by rewrite (Live_dirty _ _ _ _ HL1)].
  by apply (Tuned_render p k (Some q)).
Qed.

Lemma flush_Created_Tuned p fuel (s : St) :
  Created p s.1 → createCleanup s.1 = Some 0%nat →
  Tuned p 0 (flush (S fuel) s).1.
Proof.
  intros HC Hcl. simpl. rewrite (cr_prev _ _ HC).
  assert (dirty s.1 = true) as ->.
  { unfold dirty. rewrite (cr_nextEditor _ _ HC). by destruct (nextMonaco _). }
  destruct s as [i w]. cbn [r_props snapshot fst] in *.
  pose proof (Created_render p i w p HC) as HL.
  rewrite flush_clean; [|by rewrite (Live_dirty _ _ _ _ HL)].
  by apply (Created_render_Tuned p).
Qed.

Lemma flush_Waiting_Tuned p fuel (s : St) :
  Waiting p true s.1 → createCleanup s.1 = None →
  Tuned p 0 (flush (2 + fuel) s).1.
Proof.
  intros HW Hcl.
  change (flush (2 + fuel) s) with
    (match prev s.1 with
     | Some r =>
         if dirty s.1 then flush (S fuel) (render (r_props r) s) else s
     | None => s
     end).
  rewrite (wt_prev _ _ _ HW).
  assert (dirty s.1 = true) as ->.
  { unfold dirty. by rewrite (wt_nextMonaco _ _ _ HW). }
  destruct s as [i w]. cbn [r_props snapshot fst] in *.
  apply flush_Created_Tuned.
  - apply (Waiting_render p true i w p HW).
  - by rewrite (Waiting_render_createCleanup p true).
Qed.

Lemma flush_unmounted_id fuel (s : St) : mounted s.1 = false → flush fuel s = s.
Proof.
  revert s. induction fuel as [|fuel IH]; intros s Hm; [done|]. simpl.
  destruct (prev s.1); [|done]. destruct (dirty s.1); [|done].
  rewrite render_unmounted by done. by apply IH.
Qed.

Lemma resourceLoaded_same j (s : St) :
  nextMonaco (resourceLoaded j s).1 = nextMonaco s.1 →
  sameWiring s.1 (resourceLoaded j s).1.
Proof.
  unfold resourceLoaded, setMonaco.
  destruct (loading s.1 !! j) as [[|[|[|[|n]]]]|]; cbn [fst];
    try (by repeat split).
  destruct (negb _ || _); cbn [fst]; [by repeat split|].
  intros Hn. repeat split; try done.
  unfold skeleton. simpl in *. by rewrite Hn.
Qed.

Lemma resourceLoaded_editors j (s : St) :
  editors (resourceLoaded j s).1 = editors s.1 ∧
  createCleanup (resourceLoaded j s).1 = createCleanup s.1 ∧
  mounted (resourceLoaded j s).1 = mounted s.1.
Proof.
  unfold resourceLoaded, setMonaco.
  destruct (loading s.1 !! j) as [[|[|[|[|n]]]]|]; cbn [fst]; try done.
  by destruct (negb _ || _).
Qed.

Lemma emitDecorations_editors k markers (s : St) :
  editors (emitDecorations k markers s).1 = editors s.1 ∧
  createCleanup (emitDecorations k markers s).1 = createCleanup s.1.
Proof.
  unfold emitDecorations. destruct (editors s.1 !! k) as [e|]; [|done].
  generalize (decorationListeners e). intros ls. revert s.
  induction ls as [|l ls IH]; intros s; simpl; [done|].
  destruct (IH (decorationsHandler k l.2 markers s)) as [-> ->].
  unfold decorationsHandler, withInst, setErrors.
  repeat case_match; done.
Qed.

Lemma edit_gone k content pos (s : St) :
  Forall gone (editors s.1) → edit k content pos s = s.
Proof.
  intros Hall. unfold edit. destruct (editors s.1 !! k) as [e|] eqn:He; [|done].
  destruct (Forall_lookup_1 _ _ _ _ Hall He) as (-> & _). done.
Qed.

Lemma emitDecorations_gone k markers (s : St) :
  Forall gone (editors s.1) → emitDecorations k markers s = s.
Proof.
  intros Hall. unfold emitDecorations.
  destruct (editors s.1 !! k) as [e|] eqn:He; [|done].
  destruct (Forall_lookup_1 _ _ _ _ Hall He) as (_ & _ & ->). done.
Qed.

Lemma unmount_Live p k (s : St) :
  Live p k None s.1 → Tuned p k s.1 →
  Forall gone (editors (unmount s).1) ∧
  trace (unmount s).2 = trace s.2 ++ [EditorDispose k].
Proof.
  intros [Hm Hmo Hed Hroot Hprev Hn1 Hn2 Hn3
            (c & d & n & Hcd & Hc & Hd & (e & He & _) & Hcc & Hdc)]
         [Hlen -> Hmode Hcl].
  unfold unmount. rewrite Hm. cbn [negb].
  unfold createCleanupRun. rewrite Hcl.
  unfold changeCleanupRun. cbn [fst alterEditor setEditors changeCleanup].
  rewrite Hcc. unfold decorationsCleanupRun.
  cbn [withInst fst alterEditor setEditors decorationsCleanup]. rewrite Hdc.
  cbn [withInst fst snd alterEditor setEditors editors setUnmounted log trace].
  split; [|done].
  destruct (editors s.1) as [|e0 [|e1 l]]; try done.
  simpl. by repeat constructor.
Qed.

Lemma unmount_Waiting p (s : St) :
  Waiting p false s.1 → createCleanup s.1 = None →
  Forall gone (editors (unmount s).1) ∧ trace (unmount s).2 = trace s.2.
Proof.
  intros [Hm Hmo Hed Hroot Hprev Hn1 Hn2 Hn3 He Hc Hd] Hcl.
  unfold unmount. rewrite Hm. cbn [negb].
  unfold createCleanupRun. rewrite Hcl.
  unfold changeCleanupRun. rewrite Hc.
  unfold decorationsCleanupRun. rewrite Hd.
  cbn [withInst fst snd editors setUnmounted]. by rewrite He.
Qed.

Lemma Settled_step (s : St) e : Settled s.1 → Settled (step s e).1.
Proof.
  intros [[Hm Hall]|(p & [[HW Hcl]|(k & HL & HT)])].
  - left. split; [by apply step_unmounted|].
    destruct e as [p'|j|k content pos|k markers|]; simpl; unfold settle.
    + by rewrite render_unmounted, flush_unmounted_id.
    + destruct (resourceLoaded_editors j s) as (He & _ & Hm').
      rewrite flush_unmounted_id by congruence. by rewrite He.
    + by rewrite edit_gone, flush_unmounted_id.
    + by rewrite emitDecorations_gone, flush_unmounted_id.
    + unfold unmount. by rewrite Hm.
  - destruct e as [p'|j|k content pos|k markers|]; simpl; unfold settle.
    + right. exists p'. left. destruct s as [i w].
      pose proof (Waiting_render p false i w p' HW) as HW'.
      rewrite flush_clean.
      * split; [done|]. by rewrite (Waiting_render_createCleanup p false).
      * unfold dirty.
        by rewrite (wt_nextMonaco _ _ _ HW'), (wt_nextEditor _ _ _ HW'),
          (wt_nextErrors _ _ _ HW').
    + right. exists p.
      destruct (resourceLoaded_editors j s) as (_ & Hcl' & _).
      destruct (resourceLoaded_Waiting p j s HW) as [[|] HW'].
      * right. exists 0%nat. split.
        -- apply (flush_Waiting p true 2 _ HW').
        -- apply (flush_Waiting_Tuned p 2 _ HW'). congruence.
      * left. rewrite flush_clean.
        -- split; [done|congruence].
        -- unfold dirty.
           by rewrite (wt_nextMonaco _ _ _ HW'), (wt_nextEditor _ _ _ HW'),
             (wt_nextErrors _ _ _ HW').
    + right. exists p. left. rewrite (edit_Waiting p) by done.
      rewrite flush_clean; [done|]. unfold dirty.
      by rewrite (wt_nextMonaco _ _ _ HW), (wt_nextEditor _ _ _ HW),
        (wt_nextErrors _ _ _ HW).
    + right. exists p. left. rewrite (emitDecorations_Waiting p) by done.
      rewrite flush_clean; [done|]. unfold dirty.
      by rewrite (wt_nextMonaco _ _ _ HW), (wt_nextEditor _ _ _ HW),
        (wt_nextErrors _ _ _ HW).
    + left. split; [apply unmount_unmounted|].
      by apply (unmount_Waiting p).
  - destruct e as [p'|j|k' content pos|k' markers|]; simpl; unfold settle.
    + right. exists p'. right. exists k. destruct s as [i w].
      pose proof (Live_render p k None i w p' HL) as HL'.
      split.
      * by apply (flush_Live p' k None).
      * apply (flush_Live_Tuned p' k None); [done|].
        by apply (Tuned_render p k None).
    + right. exists p. right. exists k.
      pose proof (resourceLoaded_Live p k j s HL) as HL'.
      split; [by apply (flush_Live p k None)|].
      apply (flush_Live_Tuned p k None); [done|].
      apply (Tuned_same p k s.1); [|done].
      apply resourceLoaded_same.
      by rewrite (lv_nextMonaco _ _ _ _ HL'), (lv_nextMonaco _ _ _ _ HL).
    + right. exists p. right. exists k.
      pose proof (edit_Live p k k' content pos s HL) as HL'.
      split; [by apply (flush_Live p k None)|].
      apply (flush_Live_Tuned p k None); [done|].
      unfold edit. destruct (editors s.1 !! k') as [e|]; [|done].
      destruct (disposed e || readOnlyOption e); [done|].
      eapply Tuned_same; [apply emitChange_same|]. cbn [fst].
      by apply Tuned_alter.
    + right. exists p. right. exists k.
      destruct (emitDecorations_Live p k k' markers s HL) as [q HL'].
      split; [by apply (flush_Live p k q)|].
      apply (flush_Live_Tuned p k q); [done|].
      destruct (emitDecorations_editors k' markers s) as [He Hc].
      destruct HT as [Hlen Hk Hmode Hcl]. split; congruence.
    + left. split; [apply unmount_unmounted|].
      by apply (unmount_Live p k).
Qed.

Lemma Settled_mount p w : Settled (mount p w).1.
Proof.
  right. exists p. unfold mount, settle.
  pose proof (initial_render p w) as H.
  pose proof (initial_render_createCleanup p w) as Hcl.
  destruct (windowMonaco w).
  - right. exists 0%nat. split.
    + by apply flush_Created.
    + by apply flush_Created_Tuned.
  - left. rewrite flush_clean; [done|]. unfold dirty.
    by rewrite (wt_nextMonaco _ _ _ H), (wt_nextEditor _ _ _ H),
      (wt_nextErrors _ _ _ H).
Qed.

Lemma Settled_run es (s : St) : Settled s.1 → Settled (run es s).1.
Proof.
  revert s. induction es as [|e es IH]; intros s HP; [done|].
  rewrite run_cons. by apply IH, Settled_step.
Qed.

Lemma execution_Settled p w es : Settled (execution p w es).1.
Proof. apply Settled_run, Settled_mount. Qed.

(** *** The events of a component that drives its widget *)

Lemma execution_driving p w es k :
  mounted (execution p w es).1 = true →
  editor (execution p w es).1 = Some k →
  ∃ p0, Live p0 k None (execution p w es).1 ∧ Tuned p0 k (execution p w es).1.
Proof.
  intros Hm Hed.
  destruct (execution_Settled p w es)
    as [[Hu _]|(p0 & [[HW _]|(k' & HL & HT)])].
  - congruence.
  - pose proof (wt_editor _ _ _ HW). congruence.
  - exists p0. pose proof (lv_editor _ _ _ _ HL) as Hk.
    by assert (k' = k) as -> by congruence.
Qed.

Lemma execution_waiting p w es :
  mounted (execution p w es).1 = true →
  monaco (execution p w es).1 = false →
  ∃ p0, Waiting p0 false (execution p w es).1 ∧
        createCleanup (execution p w es).1 = None.
Proof.
  intros Hm Hmo.
  destruct (execution_Settled p w es)
    as [[Hu _]|(p0 & [[HW Hcl]|(k' & HL & HT)])].
  - congruence.
  - by exists p0.
  - pose proof (lv_monaco _ _ _ _ HL). congruence.
Qed.

Lemma bool_decide_snd {A B} `{EqDecision A, EqDecision B} (a : A) (x y : B) :
  bool_decide ((a, x) = (a, y)) = bool_decide (x = y).
Proof. apply bool_decide_ext. split; congruence. Qed.

Lemma applyQueued_clean i :
  nextMonaco i = None → nextEditor i = None → nextErrors i = None →
  rootRef i = true → applyQueued i = i.
Proof. destruct i. simpl. by intros -> -> -> ->. Qed.

Lemma Live_rerender_obs p k (s : St) p' :
  Live p k None s.1 →
  obs (step s (Rerender p')) =
  obsWhen (negb (bool_decide (readOnly p = readOnly p')))
    (obsLog [UpdateOptions k (readOnly p')])
  (obsWhen (negb (bool_decide (language p = language p')))
    (obsLanguage k (language p'))
  (obsWhen (negb (bool_decide (renderSignal p = renderSignal p')))
    (obsLog [EditorLayout k true; EditorLayout k false])
  (obsWhen (negb (bool_decide (onSyntaxError p = onSyntaxError p')))
    (obsLog [OnSyntaxError (onSyntaxError p') (errors s.1)])
  (obsWhen (negb (bool_decide (onLoad p = onLoad p')))
    (obsLog [OnLoad (onLoad p')])
  (obsWhen (negb (bool_decide (value p = value p')))
    (obsSync k (value p') [onChange p])
    (obs s)))))).
Proof.
  intros HL. destruct s as [i w]. cbn [fst] in *.
  pose proof (Live_render p k None i w p' HL) as HL'.
  cbn [step]. unfold settle.
  rewrite flush_clean by (by rewrite (Live_dirty _ _ _ _ HL')).
  rewrite (Live_render_obs p k None i w p' HL). cbn zeta.
  rewrite applyQueued_clean
    by (apply (lv_nextMonaco _ _ _ _ HL) || apply (lv_nextEditor _ _ _ _ HL)
        || apply (lv_nextErrors _ _ _ _ HL) || apply (lv_rootRef _ _ _ _ HL)).
  unfold changed, depsReadOnly, depsLanguage, depsLayout, depsSyntaxError,
    depsLoad, depsSync.
  cbn [r_props r_editor r_monaco r_errorsId snapshot default].
  by rewrite !bool_decide_snd.
Qed.

Lemma o_trace_log b l o :
  o_trace (obsWhen b (obsLog l) o) = o_trace o ++ if b then l else [].
Proof. destruct b; simpl; by rewrite ?app_nil_r. Qed.

Lemma o_trace_language b k lang o :
  o_trace (obsWhen b (obsLanguage k lang) o) =
  o_trace o ++ if b then [SetModelLanguage k lang] else [].
Proof. destruct b; simpl; by rewrite ?app_nil_r. Qed.

Lemma o_trace_sync b k v cbs o :
  o_trace (obsWhen b (obsSync k v cbs) o) =
  o_trace o ++
  if negb b || String.eqb (o_valueRef o) v then []
  else EditorSetValue k v :: ((λ cb, OnChange cb v) <$> cbs).
Proof.
  unfold obsWhen, obsSync. destruct b; simpl; [|by rewrite app_nil_r].
  destruct (String.eqb _ _); simpl; by rewrite ?app_nil_r.
Qed.

Lemma o_valueRef_log b l o : o_valueRef (obsWhen b (obsLog l) o) = o_valueRef o.
Proof. by destruct b. Qed.

Lemma o_valueRef_language b k lang o :
  o_valueRef (obsWhen b (obsLanguage k lang) o) = o_valueRef o.
Proof. by destruct b. Qed.

(** A re-render performs the operations of the effects whose dependencies
    changed, the layout effect first and the others in source order. *)
Lemma Live_rerender_trace p k (s : St) p' :
  Live p k None s.1 →
  trace (step s (Rerender p')).2 =
  trace s.2 ++ rerenderTrace k (valueRef s.1) (errors s.1) p p'.
Proof.
  intros HL.
  change (o_trace (obs (step s (Rerender p'))) =
          trace s.2 ++ rerenderTrace k (valueRef s.1) (errors s.1) p p').
  rewrite (Live_rerender_obs p k s p' HL).
  rewrite !o_trace_log, o_trace_language, !o_trace_log, o_trace_sync.
  unfold rerenderTrace. cbn [obs o_trace o_valueRef].
  rewrite <- !app_assoc. rewrite negb_involutive.
  by repeat (destruct (bool_decide _)).
Qed.

(** X1.  A re-render of a mounted component that drives a widget performs
    the operations of exactly the effects that have a changed prop among
    their dependencies: the write of the layout effect first, answered by
    the change callback of the previous render, then [onLoad],
    [onSyntaxError], the two layout calls, the model language and the
    read-only option, in the order of the source; a re-render with the
    props of the previous one performs none. *)
Theorem rerender_runs_changed_effects
    (p : Props) (w : World) (es : list Event) (k : nat) (p' : Props) :
  mounted (execution p w es).1 = true →
  editor (execution p w es).1 = Some k →
  ∃ p0,
    r_props <$> prev (execution p w es).1 = Some p0 ∧
    trace (step (execution p w es) (Rerender p')).2 =
      trace (execution p w es).2 ++
        rerenderTrace k (valueRef (execution p w es).1)
          (errors (execution p w es).1) p0 p'.
Proof.
  intros Hm Hed.
  destruct (execution_driving p w es k Hm Hed) as (p0 & HL & _).
  exists p0. split; [apply (Live_props _ _ _ _ HL)|].
  by apply Live_rerender_trace.
Qed.

(** X2.  When a mounted component that drives a widget is rendered with a
    [value] that differs from the previous prop and from
    [valueRef.current], the widget gets that value with the cursor at the
    start, the change callback of the previous render is called with it and
    [valueRef.current] holds it afterwards. *)
Theorem external_value_reaches_widget
    (p : Props) (w : World) (es : list Event) (k : nat) (p' : Props) :
  mounted (execution p w es).1 = true →
  editor (execution p w es).1 = Some k →
  ∃ p0,
    r_props <$> prev (execution p w es).1 = Some p0 ∧
    (value p' ≠ value p0 → value p' ≠ valueRef (execution p w es).1 →
     valueRef (step (execution p w es) (Rerender p')).1 = value p' ∧
     (λ e, (buffer e, cursor e))
       <$> editors (step (execution p w es) (Rerender p')).1 !! k =
       Some (value p', 0%nat) ∧
     ∃ rest,
       trace (step (execution p w es) (Rerender p')).2 =
       trace (execution p w es).2 ++
         EditorSetValue k (value p') :: OnChange (onChange p0) (value p')
           :: rest).
Proof.
  intros Hm Hed.
  destruct (execution_driving p w es k Hm Hed) as (p0 & HL & HT).
  exists p0. split; [apply (Live_props _ _ _ _ HL)|].
  intros Hnew Href.
  set (s := execution p w es) in *.
  pose proof (Live_rerender_obs p0 k s p' HL) as Hobs.
  rewrite (bool_decide_eq_false_2 (value p0 = value p')) in Hobs by congruence.
  cbn [negb] in Hobs.
  assert (String.eqb (valueRef s.1) (value p') = false) as Heqb.
  { apply String.eqb_neq. congruence. }
  split; [|split].
  - change (o_valueRef (obs (step s (Rerender p'))) = value p').
    rewrite Hobs, !o_valueRef_log, o_valueRef_language, !o_valueRef_log.
    unfold obsWhen, obsSync. cbn [obs o_valueRef]. by rewrite Heqb.
  - destruct (lv_wired _ _ _ _ HL)
      as (c & d & n & _ & _ & _ & (e & He & _) & _ & _).
    assert ((λ x : string * nat * string, x.1)
              <$> o_faces (obs (step s (Rerender p'))) !! k =
            Some (value p', 0%nat)) as Hface.
    { rewrite Hobs, !o_faces_log, o_faces_language, !o_faces_log.
      unfold obsWhen, obsSync. cbn [obs o_valueRef o_faces]. rewrite Heqb.
      destruct (negb (bool_decide (language p0 = language p')));
        cbn [o_faces];
        rewrite ?list_lookup_alter_eq, list_lookup_fmap, He; done. }
    revert Hface. unfold obs. cbn [o_faces]. rewrite !list_lookup_fmap.
    destruct (editors (step s (Rerender p')).1 !! k) as [e'|]; [|done].
    cbn [fmap option_fmap option_map face fst]. done.
  - rewrite (Live_rerender_trace p0 k s p' HL). unfold rerenderTrace.
    rewrite (bool_decide_eq_false_2 (value p0 = value p')) by congruence.
    rewrite Heqb. cbn [orb app]. by eexists.
Qed.

(** *** Decoration events with changed markers *)

Lemma Tuned_lookup p k i :
  Live p k None i → Tuned p k i →
  ∃ e, editors i = [e] ∧ k = 0%nat ∧ disposed e = false ∧
       modeId e = language p ∧ readOnlyOption e = readOnly p ∧
       (∃ d, decorationListeners e = [(d, errors i)]) ∧
       (∃ c, changeListeners e = [(c, onChange p)]).
Proof.
  intros HL [Hlen -> Hmode Hcl].
  destruct (lv_wired _ _ _ _ HL)
    as (c & d & n & _ & _ & _ & (e & He & Hdis & Hro & Hlc & Hld & _) & _ & _).
  exists e. destruct (editors i) as [|e0 [|e1 l]]; try done.
  simpl in *. injection He as ->. injection Hmode as Hmode.
  repeat split; try done; by eexists.
Qed.

Lemma Live_decorations_changed p k (s : St) markers :
  Live p k None s.1 → Tuned p k s.1 → language p = "json" →
  markersMatch (errors s.1) markers = Some false →
  emitDecorations k markers s = withInst (setErrors markers) s.
Proof.
  intros HL HT Hjson Hdiff.
  destruct (Tuned_lookup p k s.1 HL HT)
    as (e & He & -> & Hdis & Hmode & _ & (d & Hld) & _).
  unfold emitDecorations. rewrite He. cbn [lookup list_lookup]. rewrite Hld.
  cbn [foldl snd]. unfold decorationsHandler. rewrite He.
  cbn [lookup list_lookup]. rewrite Hdis, Hmode, Hjson, Hdiff. done.
Qed.

Lemma Live_flush_errors p k markers (s : St) :
  Live p k (Some markers) s.1 →
  obs (settle s) = obsLog [OnSyntaxError (onSyntaxError p) markers] (obs s) ∧
  errors (settle s).1 = markers.
Proof.
  intros HL. unfold settle. cbn [flush].
  rewrite (lv_prev _ _ _ _ HL), (Live_dirty _ _ _ _ HL).
  cbn [bool_decide decide_rel is_Some_dec r_props snapshot].
  destruct s as [i w]. cbn [fst] in *.
  pose proof (Live_render p k (Some markers) i w p HL) as HL'.
  assert (dirty (render p (i, w)).1 = false) as Hd
    by (by rewrite (Live_dirty _ _ _ _ HL')).
  rewrite Hd. destruct (prev (render p (i, w)).1) eqn:Hprev.
  2: { by rewrite (lv_prev _ _ _ _ HL') in Hprev. }
  split.
  - rewrite (Live_render_obs p k (Some markers) i w p HL). cbn zeta.
    rewrite !(changed_same depsReadOnly), !(changed_same depsLanguage),
      !(changed_same depsLayout), !(changed_same depsLoad),
      !(changed_same depsSync)
      by (unfold depsReadOnly, depsLanguage, depsLayout, depsLoad, depsSync;
          simpl; by rewrite ?(lv_nextMonaco _ _ _ _ HL),
                       ?(lv_nextEditor _ _ _ _ HL)).
    rewrite (changed_true depsSyntaxError).
    + done.
    + unfold depsSyntaxError. simpl. rewrite (lv_nextErrors _ _ _ _ HL).
      intros [=]. lia.
  - unfold render. cbn [fst snd]. rewrite (lv_mounted _ _ _ _ HL).
    cbn [negb].
    pose proof (commit_snapshot p (prev (applyQueued i))
                  (snapshot p (applyQueued i)) (applyQueued i, w)) as Hp.
    apply (f_equal r_errors) in Hp. cbn [r_errors snapshot fst] in Hp.
    rewrite Hp. simpl. by rewrite (lv_nextErrors _ _ _ _ HL).
Qed.

(** X3.  When the widget of a JSON component shows markers that do not
    match the reported ones, [onSyntaxError] is called once with the new
    markers, which become the [errors] state; [valueRef.current] is left as
    it is. *)
Theorem changed_markers_are_reported_once
    (p : Props) (w : World) (es : list Event) (k : nat)
    (markers : list Marker) :
  mounted (execution p w es).1 = true →
  editor (execution p w es).1 = Some k →
  ∃ p0,
    r_props <$> prev (execution p w es).1 = Some p0 ∧
    (language p0 = "json" →
     markersMatch (errors (execution p w es).1) markers = Some false →
     trace (step (execution p w es) (Decorations k markers)).2 =
       trace (execution p w es).2 ++
         [OnSyntaxError (onSyntaxError p0) markers] ∧
     errors (step (execution p w es) (Decorations k markers)).1 = markers ∧
     valueRef (step (execution p w es) (Decorations k markers)).1 =
       valueRef (execution p w es).1).
Proof.
  intros Hm Hed.
  destruct (execution_driving p w es k Hm Hed) as (p0 & HL & HT).
  exists p0. split; [apply (Live_props _ _ _ _ HL)|].
  intros Hjson Hdiff. set (s := execution p w es) in *.
  cbn [step].
  rewrite (Live_decorations_changed p0 k s markers HL HT Hjson Hdiff).
  destruct (Live_flush_errors p0 k markers (withInst (setErrors markers) s))
    as [Hobs Herr].
  { apply (setErrors_Live p0 k None markers s.1 HL). }
  split; [|split].
  - change (o_trace (obs (settle (withInst (setErrors markers) s))) =
            trace s.2 ++ [OnSyntaxError (onSyntaxError p0) markers]).
    by rewrite Hobs.
  - done.
  - change (o_valueRef (obs (settle (withInst (setErrors markers) s))) =
            valueRef s.1).
    rewrite Hobs. unfold setErrors. simpl. by destruct (negb (mounted s.1)).
Qed.

(** X4.  While the last render's language is not "json", decoration
    events change nothing: no marker list is reported and the component
    stays as it is. *)
Theorem other_languages_report_nothing
    (p : Props) (w : World) (es : list Event) (p0 : Props) (k : nat)
    (batches : list (list Marker)) :
  r_props <$> prev (execution p w es).1 = Some p0 →
  language p0 ≠ "json" →
  run (Decorations k <$> batches) (execution p w es) = execution p w es.
Proof.
  intros Hp0 Hlang. set (s := execution p w es) in *.
  assert (Settled s.1) as HS by apply execution_Settled. clearbody s.
  assert (∀ markers, step s (Decorations k markers) = s) as Hstep.
  { intros markers. cbn [step]. unfold settle.
    destruct HS as [[Hu Hall]|(p1 & [[HW Hcl]|(k' & HL & HT)])].
    - rewrite emitDecorations_gone by done. by apply flush_unmounted_id.
    - rewrite (emitDecorations_Waiting p1) by done.
      apply flush_clean. unfold dirty.
      by rewrite (wt_nextMonaco _ _ _ HW), (wt_nextEditor _ _ _ HW),
        (wt_nextErrors _ _ _ HW).
    - assert (p1 = p0) as ->.
      { rewrite (Live_props _ _ _ _ HL) in Hp0. congruence. }
      destruct (Tuned_lookup p0 k' s.1 HL HT)
        as (e & He & -> & Hdis & Hmode & _ & (d & Hld) & _).
      assert (emitDecorations k markers s = s) as ->.
      { unfold emitDecorations. rewrite He.
        destruct k as [|k]; cbn [lookup list_lookup]; [|done].
        rewrite Hld. cbn [foldl snd]. unfold decorationsHandler. rewrite He.
        cbn [lookup list_lookup]. rewrite Hdis, Hmode.
        apply String.eqb_neq in Hlang. by rewrite Hlang. }
      apply flush_clean. by rewrite (Live_dirty _ _ _ _ HL). }
  induction batches as [|markers rest IH]; [done|].
  rewrite fmap_cons, run_cons, Hstep. exact IH.
Qed.

(** X5.  While the last render was read-only, the widget, which takes no
    input while its [readOnly] option is set, has that option set: input
    events change nothing and [onChange] is not called. *)
Theorem read_only_blocks_edits
    (p : Props) (w : World) (es : list Event) (p0 : Props) (k : nat)
    (edits : list (string * nat)) :
  r_props <$> prev (execution p w es).1 = Some p0 →
  readOnly p0 = true →
  run ((λ c, Edit k c.1 c.2) <$> edits) (execution p w es) = execution p w es.
Proof.
  intros Hp0 Hro. set (s := execution p w es) in *.
  assert (Settled s.1) as HS by apply execution_Settled. clearbody s.
  assert (∀ content pos, step s (Edit k content pos) = s) as Hstep.
  { intros content pos. cbn [step]. unfold settle.
    destruct HS as [[Hu Hall]|(p1 & [[HW Hcl]|(k' & HL & HT)])].
    - rewrite edit_gone by done. by apply flush_unmounted_id.
    - rewrite (edit_Waiting p1) by done.
      apply flush_clean. unfold dirty.
      by rewrite (wt_nextMonaco _ _ _ HW), (wt_nextEditor _ _ _ HW),
        (wt_nextErrors _ _ _ HW).
    - assert (p1 = p0) as ->.
      { rewrite (Live_props _ _ _ _ HL) in Hp0. congruence. }
      destruct (Tuned_lookup p0 k' s.1 HL HT)
        as (e & He & -> & Hdis & _ & Hreadonly & _).
      assert (edit k content pos s = s) as ->.
      { unfold edit. rewrite He.
        destruct k as [|k]; cbn [lookup list_lookup]; [|done].
        by rewrite Hdis, Hreadonly, Hro. }
      apply flush_clean. by rewrite (Live_dirty _ _ _ _ HL). }
  induction edits as [|[content pos] rest IH]; [done|].
  rewrite fmap_cons, run_cons. cbn [fst snd]. rewrite Hstep. exact IH.
Qed.

(** X6.  Between two events a mounted component that drives a widget has
    exactly one widget, which is not disposed of and whose language and
    read-only option are those of the last render. *)
Theorem widget_follows_props
    (p : Props) (w : World) (es : list Event) (k : nat) :
  mounted (execution p w es).1 = true →
  editor (execution p w es).1 = Some k →
  ∃ p0 e,
    r_props <$> prev (execution p w es).1 = Some p0 ∧
    k = 0%nat ∧ editors (execution p w es).1 = [e] ∧
    disposed e = false ∧
    modeId e = language p0 ∧ readOnlyOption e = readOnly p0.
Proof.
  intros Hm Hed.
  destruct (execution_driving p w es k Hm Hed) as (p0 & HL & HT).
  destruct (Tuned_lookup p0 k _ HL HT)
    as (e & He & -> & Hdis & Hmode & Hro & _).
  exists p0, e. split; [apply (Live_props _ _ _ _ HL)|]. done.
Qed.

(** *** Mounting, and the arrival of the library *)

Lemma flush_S fuel (s : St) :
  flush (S fuel) s =
  match prev s.1 with
  | Some r => if dirty s.1 then flush fuel (render (r_props r) s) else s
  | None => s
  end.
Proof. done. Qed.

Lemma Created_settle_obs p (s : St) :
  Created p s.1 →
  obs (settle s) =
  obsLog [UpdateOptions 0 (readOnly p)]
  (obsLanguage 0 (language p)
  (obsLog [EditorLayout 0 true; EditorLayout 0 false]
  (obsSync 0 (value p) [] (obs s)))).
Proof.
  intros HC. unfold settle. cbn [flush]. rewrite (cr_prev _ _ HC).
  assert (dirty s.1 = true) as ->.
  { unfold dirty. rewrite (cr_nextEditor _ _ HC). by destruct (nextMonaco _). }
  destruct s as [i w]. cbn [r_props snapshot fst] in *.
  pose proof (Created_render p i w p HC) as HL.
  rewrite (Live_dirty _ _ _ _ HL). cbn [bool_decide decide_rel is_Some_dec].
  destruct (prev (render p (i, w)).1) eqn:Hprev.
  2: { by rewrite (lv_prev _ _ _ _ HL) in Hprev. }
  rewrite (Created_render_obs p i w p HC). cbn zeta.
  rewrite (changed_same depsSyntaxError), (changed_same depsLoad); [done|..].
  - unfold depsLoad. simpl. by rewrite (cr_nextMonaco _ _ HC).
  - unfold depsSyntaxError. simpl. by rewrite (cr_nextErrors _ _ HC).
Qed.

Lemma Arriving_settle_obs p (s : St) :
  Waiting p true s.1 → createCleanup s.1 = None →
  obs (settle s) =
  obsLog [UpdateOptions 0 (readOnly p)]
  (obsLanguage 0 (language p)
  (obsLog [EditorLayout 0 true; EditorLayout 0 false]
  (obsSync 0 (value p) []
  (obsCreate (obsLog [OnLoad (onLoad p)] (obs s)))))).
Proof.
  intros HW Hcl. unfold settle.
  change (flush 4 s) with
    (match prev s.1 with
     | Some r => if dirty s.1 then flush 3 (render (r_props r) s) else s
     | None => s
     end).
  rewrite (wt_prev _ _ _ HW).
  assert (dirty s.1 = true) as ->.
  { unfold dirty. by rewrite (wt_nextMonaco _ _ _ HW). }
  destruct s as [i w]. cbn [r_props snapshot fst] in *.
  pose proof (Waiting_render p true i w p HW) as HC. cbn iota in HC.
  pose proof (Waiting_render_obs p true i w p HW Hcl) as Hobs.
  cbn zeta in Hobs.
  rewrite (changed_same depsSyntaxError), (changed_true depsLoad) in Hobs.
  - cbn [obsWhen] in Hobs. rewrite <- Hobs.
    assert (flush 3 (render p (i, w)) = flush 4 (render p (i, w))) as ->.
    { rewrite !(flush_S _ (render p (i, w))), (cr_prev _ _ HC).
      destruct (dirty (render p (i, w)).1); [|done].
      cbn [r_props snapshot].
      pose proof (Created_render p _ (render p (i, w)).2 p HC) as HL.
      rewrite <- surjective_pairing in HL.
      by rewrite !flush_clean by (by rewrite (Live_dirty _ _ _ _ HL)). }
    by apply (Created_settle_obs p).
  - unfold depsLoad. simpl.
    rewrite (wt_monaco _ _ _ HW), (wt_nextMonaco _ _ _ HW). by intros [=].
  - unfold depsSyntaxError. simpl. by rewrite (wt_nextErrors _ _ _ HW).
Qed.

Lemma mount_obs (p : Props) (w : World) :
  obs (mount p w) =
  if windowMonaco w then
    {| o_trace := trace w ++
         [OnLoad (onLoad p); EditorCreate 0 (value p);
          OnSyntaxError (onSyntaxError p) [];
          EditorLayout 0 true; EditorLayout 0 false;
          SetModelLanguage 0 (language p); UpdateOptions 0 (readOnly p)];
       o_valueRef := value p;
       o_faces := [(value p, 0%nat, language p)] |}
  else
    {| o_trace := trace w ++ [LoadCSS; OnSyntaxError (onSyntaxError p) []];
       o_valueRef := value p;
       o_faces := [] |}.
Proof.
  unfold mount.
  pose proof (initial_render p w) as H.
  pose proof (initial_render_obs p w) as Hobs.
  destruct (windowMonaco w).
  - rewrite (Created_settle_obs p _ H), Hobs.
    unfold obsSync, obsCreate, obsLog, obsLanguage, obsWhen, obs.
    cbn [o_trace o_valueRef o_faces initial valueRef editors fst snd fmap
         list_fmap length].
    rewrite String.eqb_refl. cbn [o_trace o_valueRef o_faces].
    rewrite <- !app_assoc. done.
  - unfold settle. rewrite flush_clean.
    + rewrite Hobs. unfold obsLog, obsWhen, obs.
      cbn [o_trace o_valueRef o_faces initial valueRef editors fst snd].
      by rewrite <- app_assoc.
    + unfold dirty.
      by rewrite (wt_nextMonaco _ _ _ H), (wt_nextEditor _ _ _ H),
        (wt_nextErrors _ _ _ H).
Qed.


(** X7.  Mounting where the library is loaded signals readiness with
    [onLoad], creates one widget with the [value] prop as its content,
    reports the empty marker list, lays the widget out and sets its
    language and its read-only option, in this order; mounting where the
    library is absent only starts a load, with the style sheet, and
    reports the empty marker list.  In both cases [valueRef.current] holds
    the [value] prop. *)
Theorem mount_trace (p : Props) (w : World) :
  trace (mount p w).2 =
    trace w ++
      (if windowMonaco w then
         [OnLoad (onLoad p); EditorCreate 0 (value p);
          OnSyntaxError (onSyntaxError p) [];
          EditorLayout 0 true; EditorLayout 0 false;
          SetModelLanguage 0 (language p); UpdateOptions 0 (readOnly p)]
       else [LoadCSS; OnSyntaxError (onSyntaxError p) []]) ∧
  valueRef (mount p w).1 = value p ∧
  face <$> editors (mount p w).1 =
    if windowMonaco w then [(value p, 0%nat, language p)] else [].
Proof.
  rewrite (obs_trace (mount p w)), (obs_valueRef (mount p w)),
    (obs_faces (mount p w)), mount_obs.
  by destruct (windowMonaco w).
Qed.

Lemma view_valueRef (s : St) : v_valueRef (view s) = valueRef s.1.
Proof. done. Qed.

Lemma execution_valueRef p w es :
  editors (execution p w es).1 = [] → valueRef (execution p w es).1 = value p.
Proof.
  intros He.
  assert (SeededAtMount (value p) (creates (trace w))
            (view (execution p w es))) as [_ _ Hv _].
  { apply SeededAtMount_run. unfold mount, settle.
    apply SeededAtMount_flush, SeededAtMount_render_St,
      SeededAtMount_initial. }
  rewrite view_valueRef, view_size in Hv. apply Hv. by rewrite He.
Qed.

(** X8.  When the last resource of the load arrives at a mounted
    component, readiness is signalled with the [onLoad] of the last render
    and one widget is created, with the [value] of the first render as its
    content; the [value] of the last render, if it differs, is written
    next, before the layout, the language and the read-only option.
    [valueRef.current] still holds the first value afterwards. *)
Theorem library_arrival_creates_widget
    (p : Props) (w : World) (es : list Event) (j : nat) :
  mounted (execution p w es).1 = true →
  monaco (execution p w es).1 = false →
  loading (execution p w es).1 !! j = Some 3%nat →
  ∃ p0,
    r_props <$> prev (execution p w es).1 = Some p0 ∧
    trace (step (execution p w es) (ResourceLoaded j)).2 =
      trace (execution p w es).2 ++
        [OnLoad (onLoad p0); EditorCreate 0 (value p)] ++
        (if String.eqb (value p) (value p0) then []
         else [EditorSetValue 0 (value p0)]) ++
        [EditorLayout 0 true; EditorLayout 0 false;
         SetModelLanguage 0 (language p0); UpdateOptions 0 (readOnly p0)] ∧
    valueRef (step (execution p w es) (ResourceLoaded j)).1 = value p ∧
    face <$> editors (step (execution p w es) (ResourceLoaded j)).1 =
      [(value p0, 0%nat, language p0)].
Proof.
  intros Hm Hmo Hj.
  destruct (execution_waiting p w es Hm Hmo) as (p0 & HW & Hcl).
  pose proof (execution_valueRef p w es (wt_editors _ _ _ HW)) as Href.
  exists p0. split; [by rewrite (wt_prev _ _ _ HW)|].
  set (s := execution p w es) in *. clearbody s.
  set (s1 := resourceLoaded j s).
  assert (Waiting p0 true s1.1 ∧ createCleanup s1.1 = None ∧ obs s1 = obs s)
    as (HW1 & Hcl1 & Hobs1).
  { subst s1. unfold resourceLoaded, setMonaco. rewrite Hj. cbn [fst].
    cbn [mounted monaco setLoading].
    rewrite (wt_mounted _ _ _ HW), (wt_monaco _ _ _ HW).
    cbn [negb orb Bool.eqb]. split; [|done].
    destruct HW. split; simpl; try done.
    rewrite wt_prev0. unfold snapshot. simpl. by rewrite wt_monaco0. }
  cbn [step]. fold s1.
  rewrite (obs_trace (settle s1)), (obs_valueRef (settle s1)),
    (obs_faces (settle s1)).
  rewrite (Arriving_settle_obs p0 s1 HW1 Hcl1), Hobs1.
  unfold obsSync, obsCreate, obsLog, obsLanguage, obs.
  cbn [o_trace o_valueRef o_faces].
  rewrite (wt_editors _ _ _ HW), Href.
  cbn [fmap list_fmap length app].
  destruct (String.eqb (value p) (value p0)) eqn:Heq;
    cbn [o_trace o_valueRef o_faces]; rewrite <- !app_assoc.
  - apply String.eqb_eq in Heq. by rewrite Heq.
  - done.
Qed.

End ObservationFacts.

(** ** The readiness signal *)

Module LifecycleFacts.
Import MarkerDiff Monaco MonacoFacts Observation ObservationFacts.

Lemma onLoads_app t1 t2 : onLoads (t1 ++ t2) = onLoads t1 ++ onLoads t2.
Proof. unfold onLoads. apply omap_app. Qed.

Lemma onLoads_rerenderTrace k ref errs p p' :
  onLoads (rerenderTrace k ref errs p p') =
  if bool_decide (onLoad p = onLoad p') then [] else [onLoad p'].
Proof.
  unfold rerenderTrace. rewrite !onLoads_app.
  by repeat (destruct (bool_decide _) || destruct (String.eqb _ _)).
Qed.

Lemma Waiting_clean p (s : St) : Waiting p false s.1 → dirty s.1 = false.
Proof.
  intros HW. unfold dirty.
  by rewrite (wt_nextMonaco _ _ _ HW), (wt_nextEditor _ _ _ HW),
    (wt_nextErrors _ _ _ HW).
Qed.

Lemma Live_settle (p : Props) k queued (s : St) :
  Live p k queued s.1 →
  onLoads (trace (settle s).2) = onLoads (trace s.2) ∧
  monaco (settle s).1 = true.
Proof.
  intros HL.
  pose proof (flush_Live p k queued 3 s HL) as HL'. fold (settle s) in HL'.
  split; [|apply (lv_monaco _ _ _ _ HL')].
  destruct queued as [markers|].
  - destruct (Live_flush_errors p k markers s HL) as [Hobs _].
    rewrite (obs_trace (settle s)), Hobs. simpl.
    by rewrite onLoads_app, app_nil_r.
  - unfold settle. rewrite flush_clean; [done|].
    by rewrite (Live_dirty _ _ _ _ HL).
Qed.

(** Events other than a render, for a component that drives its widget. *)
Lemma Live_event_onLoads p k (s : St) e :
  Live p k None s.1 → Tuned p k s.1 →
  match e with Rerender _ => False | _ => True end →
  onLoads (trace (step s e).2) = onLoads (trace s.2).
Proof.
  intros HL HT He.
  destruct e as [p'|j|k' content pos|k' markers|]; [done|..]; cbn [step].
  - destruct (Live_settle p k None _ (resourceLoaded_Live p k j s HL)) as [-> _].
    rewrite <- !view_onLoads.
    by destruct (resourceLoaded_view j s) as [-> |[_ ->]].
  - destruct (Live_settle p k None _ (edit_Live p k k' content pos s HL))
      as [-> _].
    rewrite <- !view_onLoads.
    by destruct (edit_view k' content pos s) as (x & _ & ->).
  - destruct (emitDecorations_Live p k k' markers s HL) as [q HL'].
    destruct (Live_settle p k q _ HL') as [-> _].
    rewrite <- !view_onLoads.
    by destruct (emitDecorations_view k' markers s) as [-> |[_ ->]].
  - rewrite <- !view_onLoads.
    by destruct (unmount_view s) as [-> | ->].
Qed.

Lemma Waiting_rerender p (s : St) p' :
  Waiting p false s.1 → createCleanup s.1 = None →
  onLoads (trace (step s (Rerender p')).2) = onLoads (trace s.2).
Proof.
  intros HW Hcl. destruct s as [i w]. cbn [fst snd step] in *.
  pose proof (Waiting_render p false i w p' HW) as HW'. cbn iota in HW'.
  unfold settle. rewrite flush_clean by (by apply (Waiting_clean p')).
  rewrite (obs_trace (render p' (i, w))),
    (Waiting_render_obs p false i w p' HW Hcl).
  cbn zeta. rewrite o_trace_log. cbn [obsWhen]. rewrite o_trace_log.
  rewrite !onLoads_app. cbn [obs o_trace snd].
  by repeat (destruct (changed _ _ _)); rewrite ?app_nil_r.
Qed.

Lemma Waiting_resourceLoaded p (s : St) j :
  Waiting p false s.1 → createCleanup s.1 = None →
  onLoads (trace (step s (ResourceLoaded j)).2) =
    onLoads (trace s.2) ++
      if monaco (step s (ResourceLoaded j)).1 then [onLoad p] else [].
Proof.
  intros HW Hcl. cbn [step].
  destruct (loading s.1 !! j) as [stage|] eqn:Hj.
  2: { assert (resourceLoaded j s = s) as ->.
       { unfold resourceLoaded. by rewrite Hj. }
       unfold settle. rewrite flush_clean by (by apply (Waiting_clean p)).
       by rewrite (wt_monaco _ _ _ HW), app_nil_r. }
  destruct (decide (stage = 3%nat)) as [->|Hstage].
  - set (s1 := resourceLoaded j s).
    assert (Waiting p true s1.1 ∧ createCleanup s1.1 = None ∧ obs s1 = obs s)
      as (HW1 & Hcl1 & Hobs1).
    { subst s1. unfold resourceLoaded, setMonaco. rewrite Hj. cbn [fst].
      cbn [mounted monaco setLoading].
      rewrite (wt_mounted _ _ _ HW), (wt_monaco _ _ _ HW).
      cbn [negb orb Bool.eqb]. split; [|done].
      destruct HW. split; simpl; try done.
      rewrite wt_prev0. unfold snapshot. simpl. by rewrite wt_monaco0. }
    pose proof (flush_Waiting p true 2 s1 HW1) as HL. cbn iota in HL.
    change (flush (2 + 2) s1) with (settle s1) in HL.
    rewrite (lv_monaco _ _ _ _ HL).
    rewrite (obs_trace (settle s1)), (Arriving_settle_obs p s1 HW1 Hcl1), Hobs1.
    unfold obsSync, obsCreate, obsLog, obsLanguage.
    cbn [o_trace o_valueRef o_faces obs].
    destruct (String.eqb _ _); cbn [o_trace]; rewrite !onLoads_app;
      cbn [onLoads omap list_omap fmap list_fmap app]; by rewrite ?app_nil_r.
  - assert (Waiting p false (resourceLoaded j s).1 ∧
            onLoads (trace (resourceLoaded j s).2) = onLoads (trace s.2))
      as [HW1 Ht].
    { unfold resourceLoaded. rewrite Hj.
      destruct stage as [|[|[|[|n]]]]; try done; cbn [fst snd];
        (split; [apply (Waiting_same p false s.1); [by repeat split|done]|]);
        cbn [log trace]; by rewrite onLoads_app, app_nil_r. }
    unfold settle. rewrite flush_clean by (by apply (Waiting_clean p)).
    by rewrite Ht, (wt_monaco _ _ _ HW1), app_nil_r.
Qed.

(** C6 (as amended).  Over every execution in which the renders keep
    passing the same [onLoad] function, that function is invoked exactly
    once if the component has the library (it was present at mount, or the
    load has completed since) and not at all before that.  In general, for
    a mounted component whose last render had props [p0], an event invokes
    [onLoad] in two cases only: a re-render that passes another [onLoad]
    function while the component has the library invokes the new function,
    once; and the event with which the component gets the library invokes
    the [onLoad] of [p0], once.  While the library is absent no render
    invokes [onLoad], whatever function it passes. *)
Theorem onLoad_follows_library_and_callback
    (p : Props) (w : World) (es : list Event) :
  (Forall (keepsOnLoad (onLoad p)) es →
   onLoads (trace (execution p w es).2) =
     onLoads (trace w) ++
       if monaco (execution p w es).1 then [onLoad p] else []) ∧
  (mounted (execution p w es).1 = true →
   ∃ p0,
     r_props <$> prev (execution p w es).1 = Some p0 ∧
     ∀ e,
       onLoads (trace (step (execution p w es) e).2) =
         onLoads (trace (execution p w es).2) ++
           match e with
           | Rerender p' =>
               if monaco (execution p w es).1
                  && negb (bool_decide (onLoad p' = onLoad p0))
               then [onLoad p'] else []
           | _ =>
               if negb (monaco (execution p w es).1)
                  && monaco (step (execution p w es) e).1
               then [onLoad p0] else []
           end).
Proof.
  split.
  - apply onLoads_while_callback_kept.
  - intros Hm.
    destruct (execution_Settled p w es)
      as [[Hu _]|(p0 & [[HW Hcl]|(k & HL & HT)])]; [congruence|..].
    + exists p0. split; [by rewrite (wt_prev _ _ _ HW)|].
      set (s := execution p w es) in *. clearbody s.
      rewrite (wt_monaco _ _ _ HW). cbn [negb andb].
      intros [p'|j|k content pos|k markers|].
      * by rewrite (Waiting_rerender p0), app_nil_r.
      * by apply Waiting_resourceLoaded.
      * cbn [step]. rewrite (edit_Waiting p0) by done.
        unfold settle. rewrite flush_clean by (by apply (Waiting_clean p0)).
        by rewrite (wt_monaco _ _ _ HW), app_nil_r.
      * cbn [step]. rewrite (emitDecorations_Waiting p0) by done.
        unfold settle. rewrite flush_clean by (by apply (Waiting_clean p0)).
        by rewrite (wt_monaco _ _ _ HW), app_nil_r.
      * destruct (unmount_Waiting p0 s HW Hcl) as [_ Ht]. cbn [step].
        rewrite Ht. unfold unmount. rewrite (wt_mounted _ _ _ HW).
        cbn [negb withInst fst setUnmounted monaco].
        unfold createCleanupRun. rewrite Hcl.
        unfold changeCleanupRun. rewrite (wt_change _ _ _ HW).
        unfold decorationsCleanupRun. rewrite (wt_decorations _ _ _ HW).
        by rewrite (wt_monaco _ _ _ HW), app_nil_r.
    + exists p0. split; [apply (Live_props _ _ _ _ HL)|].
      set (s := execution p w es) in *. clearbody s.
      rewrite (lv_monaco _ _ _ _ HL). cbn [negb andb].
      intros e. destruct e as [p'|j|k' content pos|k' markers|];
        try (rewrite (Live_event_onLoads p0 k s) by done;
             by rewrite app_nil_r).
      rewrite (Live_rerender_trace p0 k s p' HL), onLoads_app,
        onLoads_rerenderTrace.
      rewrite (bool_decide_ext (onLoad p' = onLoad p0) (onLoad p0 = onLoad p'))
        by (split; congruence).
      by destruct (bool_decide _).
Qed.

End LifecycleFacts.

(** ** Unmounting, and the content reference *)

Module UnmountFacts.
Import MarkerDiff Monaco MonacoFacts Observation ObservationFacts.

(** *** Unmounting *)

Lemma unmounted_step (s : St) e :
  mounted s.1 = false → Forall gone (editors s.1) →
  ∃ scripts,
    trace (step s e).2 = trace s.2 ++ (LoadScript <$> scripts) ∧
    editors (step s e).1 = editors s.1 ∧
    valueRef (step s e).1 = valueRef s.1 ∧
    mounted (step s e).1 = false.
Proof.
  intros Hm Hall.
  destruct e as [p'|j|k content pos|k markers|]; cbn [step]; unfold settle.
  - exists []. rewrite render_unmounted, flush_unmounted_id by done.
    by rewrite app_nil_r.
  - destruct (resourceLoaded_editors j s) as (He & _ & Hm').
    rewrite flush_unmounted_id by congruence.
    unfold resourceLoaded, setMonaco in *.
    destruct (loading s.1 !! j) as [stage|]; [|exists []; by rewrite app_nil_r].
    destruct (decide (stage = 3%nat)) as [->|Hne].
    + exists []. cbn [fst snd mounted setLoading]. rewrite Hm.
      cbn [negb orb trace valueRef setLoading editors mounted].
      by rewrite app_nil_r.
    + exists [stage].
      destruct stage as [|[|[|[|n]]]]; try done.
  - exists []. rewrite edit_gone, flush_unmounted_id by done.
    by rewrite app_nil_r.
  - exists []. rewrite emitDecorations_gone, flush_unmounted_id by done.
    by rewrite app_nil_r.
  - exists []. unfold unmount. rewrite Hm. by rewrite app_nil_r.
Qed.

(** X9.  Unmounting a mounted component disposes of the widget it drives,
    if it drives one, and does nothing else that can be observed;
    afterwards every widget of the component is disposed of and has no
    listener left. *)
Theorem unmount_disposes_widget
    (p : Props) (w : World) (es : list Event) :
  mounted (execution p w es).1 = true →
  trace (step (execution p w es) Unmount).2 =
    trace (execution p w es).2 ++
      match editor (execution p w es).1 with
      | Some k => [EditorDispose k]
      | None => []
      end ∧
  mounted (step (execution p w es) Unmount).1 = false ∧
  Forall gone (editors (step (execution p w es) Unmount).1).
Proof.
  intros Hm.
  destruct (execution_Settled p w es)
    as [[Hu _]|(p0 & [[HW Hcl]|(k & HL & HT)])]; [congruence|..];
    cbn [step].
  - destruct (unmount_Waiting p0 _ HW Hcl) as [Hall Ht].
    rewrite Ht, (wt_editor _ _ _ HW), app_nil_r.
    split; [done|]. split; [apply unmount_unmounted|done].
  - destruct (unmount_Live p0 k _ HL HT) as [Hall Ht].
    rewrite Ht, (lv_editor _ _ _ _ HL).
    split; [done|]. split; [apply unmount_unmounted|done].
Qed.

(** X10.  After the unmount no event makes the component call a callback
    or touch a widget: a load that is still running may request its
    scripts, and nothing else is added to the trace; the widgets and
    [valueRef.current] stay as they are. *)
Theorem unmounted_component_is_silent
    (p : Props) (w : World) (es es' : list Event) :
  mounted (execution p w es).1 = false →
  ∃ scripts,
    trace (run es' (execution p w es)).2 =
      trace (execution p w es).2 ++ (LoadScript <$> scripts) ∧
    editors (run es' (execution p w es)).1 = editors (execution p w es).1 ∧
    valueRef (run es' (execution p w es)).1 = valueRef (execution p w es).1.
Proof.
  intros Hm.
  assert (Forall gone (editors (execution p w es).1)) as Hall.
  { destruct (execution_Settled p w es)
      as [[_ Hall]|(p0 & [[HW _]|(k & HL & _)])]; [done|..].
    - pose proof (wt_mounted _ _ _ HW). congruence.
    - pose proof (lv_mounted _ _ _ _ HL). congruence. }
  set (s := execution p w es) in *. clearbody s. revert s Hm Hall.
  induction es' as [|e es' IH]; intros s Hm Hall.
  - exists []. by rewrite app_nil_r.
  - rewrite run_cons.
    destruct (unmounted_step s e Hm Hall) as (l1 & Ht & He & Hv & Hm').
    destruct (IH (step s e) Hm') as (l2 & Ht2 & He2 & Hv2).
    { by rewrite He. }
    exists (l1 ++ l2).
    rewrite Ht2, Ht, He2, He, Hv2, Hv, fmap_app, app_assoc. done.
Qed.

(** *** [valueRef.current] and the content of the widget *)














End UnmountFacts.

(** ** The render signal *)

Module RenderSignalFacts.
Import RenderSignal.

Lemma foldl_increments (l : list (Z → Z)) (v : Z) :
  Forall (λ f, ∀ x, f x = x + 1) l →
  foldl (λ v f, f v) v l = v + Z.of_nat (length l).
Proof.
  intros Hall. revert v.
  induction Hall as [|f l Hf _ IH]; intros v; simpl; [lia|].
  rewrite IH, Hf. lia.
Qed.

Lemma forces_Force (es : list Event) : forces (Force :: es) = S (forces es).
Proof. done. Qed.

Lemma forces_Render (es : list Event) : forces (Render :: es) = forces es.
Proof. done. Qed.

Lemma run_signal (es : list Event) (h : Hook) :
  Forall (λ f, ∀ x, f x = x + 1) (queued h) →
  Forall (λ f, ∀ x, f x = x + 1) (queued (run es h)) ∧
  value (run es h) + Z.of_nat (length (queued (run es h))) =
    value h + Z.of_nat (length (queued h)) + Z.of_nat (forces es).
Proof.
  revert h. induction es as [|e es IH]; intros h Hq.
  - split; [done|]. simpl. lia.
  - change (run (e :: es) h) with (run es (step h e)).
    destruct e.
    + destruct (IH (forceRerender h)) as [Hq' Hv].
      { simpl. apply Forall_app. split; [done|]. by repeat constructor. }
      split; [done|]. rewrite forces_Force.
      cbn [step]. rewrite Hv. cbn [forceRerender value queued].
      rewrite length_app. simpl. lia.
    + destruct (IH (render h)) as [Hq' Hv]; [by constructor|].
      split; [done|]. rewrite forces_Render.
      cbn [step]. rewrite Hv. cbn [render value queued].
      rewrite foldl_increments by done. simpl. lia.
Qed.

(** X13.  At a render the signal is the number of [forceRerender] calls
    made so far: calls made between two renders are all counted, and a
    render that follows [n] calls sees the signal grown by [n], so that it
    differs from the previous one whenever [n] is positive. *)
Theorem signal_counts_forced_renders (es : list Event) :
  value (run (es ++ [Render]) init) = Z.of_nat (forces es) ∧
  ∀ n : nat,
    value (render (Nat.iter n forceRerender (run (es ++ [Render]) init))) =
    value (run (es ++ [Render]) init) + Z.of_nat n.
Proof.
  assert (∀ es, Forall (λ f, ∀ x, f x = x + 1) (queued (run es init)) ∧
                value (run es init) + Z.of_nat (length (queued (run es init))) =
                  Z.of_nat (forces es)) as Hrun.
  { intros es'. destruct (run_signal es' init) as [Hq Hv]; [done|].
    split; [done|]. rewrite Hv. simpl. lia. }
  assert (∀ es, value (run (es ++ [Render]) init) = Z.of_nat (forces es) ∧
                queued (run (es ++ [Render]) init) = []) as Hrender.
  { intros es'. unfold run. rewrite foldl_app. simpl.
    destruct (Hrun es') as [Hq Hv]. fold (run es' init).
    rewrite foldl_increments by done. split; [lia|done]. }
  split; [apply Hrender|].
  intros n. destruct (Hrender es) as [_ Hq].
  set (h := run (es ++ [Render]) init) in *. clearbody h.
  assert (value (Nat.iter n forceRerender h) = value h ∧
          Forall (λ f, ∀ x, f x = x + 1) (queued (Nat.iter n forceRerender h)) ∧
          length (queued (Nat.iter n forceRerender h)) = n) as (Hv & Hall & Hl).
  { induction n as [|n (IH1 & IH2 & IH3)]; simpl.
    - rewrite Hq. by repeat split.
    - rewrite IH1. split; [done|]. split.
      + apply Forall_app. split; [done|]. by repeat constructor.
      + rewrite length_app, IH3. simpl. lia. }
  simpl. rewrite foldl_increments, Hv, Hl by done. done.
Qed.

End RenderSignalFacts.

(** ** The selection cache *)

Module JsonEditorAppFacts.
Import JsonEditorApp.

Lemma selection_run_cons e es (s : State) : run (e :: es) s = run es (step s e).
Proof. done. Qed.

(** X14.  The first record of a selection stays the cached record
    through any number of selection changes that name no record, and the
    first field stays the cached field through any number that name no
    field. *)
Theorem selection_survives_deselection
    (s : State) (c : Cursor) (es : list Event) :
  (∀ r rest, selectedRecordIds c = r :: rest →
     Forall keepsRecord es →
     selectedRecordId (run es (step s (SelectionChanged c))) = Some r) ∧
  (∀ f rest, selectedFieldIds c = f :: rest →
     Forall keepsField es →
     selectedFieldId (run es (step s (SelectionChanged c))) = Some f).
Proof.
  split.
  - intros r rest Hc Hall.
    assert (selectedRecordId (step s (SelectionChanged c)) = Some r) as Hs.
    { simpl. by rewrite Hc. }
    revert Hs. generalize (step s (SelectionChanged c)). intros s'. revert s'.
    induction Hall as [|e es He _ IH]; intros s' Hs; [done|].
    rewrite selection_run_cons. apply IH. destruct e as [c'|]; [|done].
    simpl in *. by rewrite He.
  - intros f rest Hc Hall.
    assert (selectedFieldId (step s (SelectionChanged c)) = Some f) as Hs.
    { simpl. by rewrite Hc. }
    revert Hs. generalize (step s (SelectionChanged c)). intros s'. revert s'.
    induction Hall as [|e es He _ IH]; intros s' Hs; [done|].
    rewrite selection_run_cons. apply IH. destruct e as [c'|]; [|done].
    simpl in *. by rewrite He.
Qed.

(** X15.  A change of the active table or view clears both cached ids,
    and they stay cleared until a selection names a record or a field: the
    editor guard is rendered without record and field. *)
Theorem switch_forgets_selection {Table}
    (s : State) (es : list Event) (table : option Table) :
  Forall selectsNothing es →
  run es (step s ActiveChanged) = initial ∧
  render table (run es (step s ActiveChanged)) =
    (λ t, (t, None, None)) <$> table.
Proof.
  intros Hall.
  assert (run es (step s ActiveChanged) = initial) as ->.
  { change (step s ActiveChanged) with initial.
    induction Hall as [|e es He _ IH]; [done|].
    rewrite selection_run_cons. destruct e as [c|]; [|done].
    destruct He as [Hr Hf]. unfold step, onSelectionChange.
    by rewrite Hr, Hf. }
  split; [done|]. by destruct table.
Qed.

End JsonEditorAppFacts.

(** * The properties on sample executions *)

Module SampleFacts.
Import Samples.

(** ** MarkerDiff *)

Section Markers.
Import MarkerDiff.

(** Two lists built separately from markers that agree on the five
    attributes match, whatever their other attributes. *)
Example markersMatch_same_fields :
  markersMatch [unexpectedToken; trailingComma]
               [unexpectedTokenAgain; trailingComma] = Some true.
Proof. reflexivity. Qed.

(** One differing attribute at one index is a mismatch. *)
Example markersMatch_one_field :
  markersMatch [unexpectedToken; trailingComma]
               [unexpectedToken; trailingCommaMoved] = Some false.
Proof. reflexivity. Qed.

(** The same markers in another order are a mismatch. *)
Example markersMatch_reordered :
  markersMatch [unexpectedToken; trailingComma]
               [trailingComma; unexpectedToken] = Some false.
Proof. reflexivity. Qed.

(** Lists of different lengths are a mismatch. *)
Example markersMatch_lengths :
  markersMatch [unexpectedToken] [unexpectedToken; trailingComma] = Some false.
Proof. reflexivity. Qed.

End Markers.

(** ** DebounceGate *)

Section Debounce.
Import DebounceGate DebounceGateFacts.

(** The first generation, superseded by a render with a changed
    dependency, has a call scheduled; when it runs nothing happens. *)
Lemma superseded_call_is_silent_witness :
  id firstGeneration ≠ count (run superseding init) ∧
  inner firstGeneration "a" (run superseding init) = run superseding init ∧
  ∀ t, fire t (run superseding init) firstGeneration = run superseding init.
Proof.
  apply (superseded_call_is_silent superseding 0 firstGeneration "a").
  - reflexivity.
  - vm_compute. lia.
Defined.

(** The second function, created around function 2, has delivered one
    call.  The user then types "a" and "ab" 100 ms apart while the owner
    renders: function 2 is invoked once more, with "ab", when 500 ms have
    passed since the second keystroke and not a millisecond earlier; and
    not at all when the owner renders with another dependency 200 ms after
    the second keystroke. *)
Lemma burst_delivers_last_once_witness :
  invoked (run (typingAndRendering ++ [Advance 1300])
             (run afterFirstCall
                (useDebounced 2%nat 500 [1%nat] (run firstRender init)).1))
    = [(2%nat, "x"); (2%nat, "ab")] ∧
  invoked (run (typingAndRendering ++ [Advance 1299])
             (run afterFirstCall
                (useDebounced 2%nat 500 [1%nat] (run firstRender init)).1))
    = [(2%nat, "x")] ∧
  invoked (run ((typingAndRendering ++ [Advance 1000])
                  ++ [Render 7%nat 500 [2%nat]; Advance 5000])
             (run afterFirstCall
                (useDebounced 2%nat 500 [1%nat] (run firstRender init)).1))
    = [(2%nat, "x")].
Proof.
  destruct (burst_delivers_last_once
              firstRender 2%nat 500 [1%nat]
              (useDebounced 2%nat 500 [1%nat] (run firstRender init)).1
              1%nat afterFirstCall typingLater 800 "ab") as [Hdue Hdrop].
  - reflexivity.
  - reflexivity.
  - repeat constructor.
  - reflexivity.
  - simpl. lia.
  - simpl. lia.
  - reflexivity.
  - split; [|split].
    + apply (Hdue (typingAndRendering ++ [Advance 1300]) 1300);
        [repeat constructor|reflexivity].
    + apply (Hdue (typingAndRendering ++ [Advance 1299]) 1299);
        [repeat constructor|reflexivity].
    + apply (Hdrop (typingAndRendering ++ [Advance 1000]) 1000 7%nat 500
               [2%nat] 5000);
        [repeat constructor|reflexivity|lia|reflexivity|congruence].
Defined.

(** C7, counterexample.  The function that the first render obtained is
    called twice, 100 ms apart, under a delay of 500 ms; the owner then
    renders with another dependency.  The wrapped function is never
    invoked, however long one waits. *)
Lemma changed_dependency_discards_burst :
  (useDebounced 1%nat 500 [0%nat] (@init string nat)).2 = 0%nat ∧
  invoked (run (firstRender ++ burst 0 typing
                  ++ [Render 2%nat 500 [1%nat]; Advance 600; Advance 100000])
             init) = [].
Proof. vm_compute. done. Qed.

(** The second function is returned again by a render that passes
    function 9 with the same delay and dependency, and it still wraps
    function 2. *)
Lemma same_inputs_return_same_function_witness :
  useDebounced 9%nat 500 [1%nat]
    (run afterFirstCall
       (useDebounced 2%nat 500 [1%nat] (run firstRender init)).1) =
    (run afterFirstCall
       (useDebounced 2%nat 500 [1%nat] (run firstRender init)).1, 1%nat) ∧
  fn <$> fns (run afterFirstCall
                (useDebounced 2%nat 500 [1%nat] (run firstRender init)).1)
           !! 1%nat =
  fn <$> fns (useDebounced 2%nat 500 [1%nat] (run firstRender init)).1
           !! 1%nat.
Proof.
  apply (same_inputs_return_same_function firstRender 2%nat 500 [1%nat]
           (useDebounced 2%nat 500 [1%nat] (run firstRender init)).1
           1%nat afterFirstCall 9%nat).
  - reflexivity.
  - repeat constructor.
Defined.

End Debounce.

(** ** EditorGuard *)

Section Guard.
Import EditorGuard EditorGuardFacts.

Lemma onChange_guard_witness :
  (("{}" : string) = "{}" →
   onChange (Some "rec1") (Some "fld1") "{}" base = Some base) ∧
  (("{}" : string) ≠ "{}" →
   onChange (Some "rec1") (Some "fld1") "{}" base =
     Some (updateRecordAsync base "rec1" "fld1" "{}")) ∧
  ∀ b', onChange (Some "rec1") (Some "fld1") "{}" base = Some b' →
        (updates b' = updates base ∧ ("{}" : string) = "{}") ∨
        (updates b' = updates base ++ [("rec1", "fld1", "{}")] ∧
         ("{}" : string) ≠ "{}").
Proof.
  apply (onChange_guard base "rec1" "fld1" "{}" "{}").
  vm_compute. reflexivity.
Defined.

(** A value that differs from the cell is sent to the base. *)
Example onChange_sends_new_value :
  updates <$> onChange (Some "rec1") (Some "fld1") "{}x" base =
  Some [("rec1", "fld1", "{}x")].
Proof. vm_compute. reflexivity. Qed.


End Guard.

(** ** EditorSync *)

Section Sync.
Import MarkerDiff Monaco MonacoFacts Observation ObservationFacts.
Import LifecycleFacts UnmountFacts.

(** What a mount does when the library is loaded. *)
Example mount_ready_trace :
  trace ready.2 =
  [OnLoad 2%nat; EditorCreate 0 "a"; OnSyntaxError 3%nat [];
   EditorLayout 0 true; EditorLayout 0 false; SetModelLanguage 0 "json";
   UpdateOptions 0 false].
Proof. vm_compute. reflexivity. Qed.

Lemma sync_equal_value_is_noop_witness :
  syncEffect (snapshot props ready.1) ready = ready ∧
  trace (syncEffect (snapshot props ready.1) ready).2 = trace ready.2 ∧
  editors (syncEffect (snapshot props ready.1) ready).1 !! 0%nat =
    Some mountedEditor.
Proof.
  apply (sync_equal_value_is_noop (snapshot props ready.1) ready 0
           mountedEditor).
  - vm_compute. reflexivity.
  - vm_compute. reflexivity.
  - vm_compute. reflexivity.
Defined.

(** An edit that comes back unchanged through the owner does not re-enter
    the widget: the cursor stays where the user left it. *)
Example round_trip_keeps_cursor :
  (λ e, (buffer e, cursor e)) <$>
    editors (run [Edit 0 "ab" 2; Rerender (withValue "ab" props)] ready).1
      !! 0%nat = Some ("ab", 2%nat) ∧
  trace (run [Edit 0 "ab" 2; Rerender (withValue "ab" props)] ready).2 =
    trace ready.2 ++ [OnChange 1%nat "ab"].
Proof. vm_compute. done. Qed.

(** Five decoration events in a row with markers that match the reported
    ones: nothing is reported again. *)
Lemma unchanged_markers_are_silent_witness :
  run (Decorations 0 <$> replicate 5 [unexpectedTokenAgain])
      (execution props readyWorld [Decorations 0 [unexpectedToken]])
    = execution props readyWorld [Decorations 0 [unexpectedToken]] ∧
  trace (run (Decorations 0 <$> replicate 5 [unexpectedTokenAgain])
           (execution props readyWorld [Decorations 0 [unexpectedToken]])).2
    = trace (execution props readyWorld [Decorations 0 [unexpectedToken]]).2.
Proof.
  apply (unchanged_markers_are_silent props readyWorld
           [Decorations 0 [unexpectedToken]] 0
           (replicate 5 [unexpectedTokenAgain])).
  - vm_compute. reflexivity.
  - vm_compute. reflexivity.
  - vm_compute. repeat constructor.
Defined.

(** A changed marker list is reported, once. *)
Example changed_markers_are_reported :
  trace reporting.2 = trace ready.2 ++ [OnSyntaxError 3%nat [unexpectedToken]].
Proof. vm_compute. reflexivity. Qed.

(** Typing "ab" and then "abc" reaches the owner as two calls, in order. *)
Example typing_reaches_owner :
  trace (run [Edit 0 "ab" 2; Edit 0 "abc" 3] ready).2 =
  trace ready.2 ++ [OnChange 1%nat "ab"; OnChange 1%nat "abc"].
Proof. vm_compute. reflexivity. Qed.

(** C8, failing input.  The component mounts with value "a" while the
    library is absent, is rendered with value "b" and then gets the
    library.  In the commit in which the [editor] state first holds the
    widget, the layout effect writes "b" with [setValue] before the third
    effect has subscribed its listener: the content change event of that
    write reaches no handler, [onChange] is not invoked and
    [valueRef.current] still holds "a" while the widget shows "b".  A later
    render with value "a" therefore leaves "b" in the widget.  The same
    write in a later commit does reach the listener. *)
Theorem first_sync_change_reaches_no_listener :
  trace (run lateValue (mount props freshWorld)).2 =
    [LoadCSS; OnSyntaxError 3%nat []; LoadScript 0; LoadScript 1;
     LoadScript 2; OnLoad 2%nat; EditorCreate 0 "a"; EditorSetValue 0 "b";
     EditorLayout 0 true; EditorLayout 0 false; SetModelLanguage 0 "json";
     UpdateOptions 0 false] ∧
  valueRef (run lateValue (mount props freshWorld)).1 = "a" ∧
  buffer <$> editors (run lateValue (mount props freshWorld)).1 !! 0%nat
    = Some "b" ∧
  changeListeners
    <$> editors (run lateValue (mount props freshWorld)).1 !! 0%nat
    = Some [(0%nat, 1%nat)] ∧
  trace (run (lateValue ++ [Rerender props]) (mount props freshWorld)).2 =
    trace (run lateValue (mount props freshWorld)).2 ∧
  buffer <$> editors (run (lateValue ++ [Rerender props])
                        (mount props freshWorld)).1 !! 0%nat
    = Some "b" ∧
  trace (run [Rerender (withValue "b" props)] ready).2 =
    trace ready.2 ++ [EditorSetValue 0 "b"; OnChange 1%nat "b"].
Proof. vm_compute. done. Qed.

(** C4, counterexample.  Two components mount one after the other while
    the library is absent: the load of the first is still waiting for its
    style sheet when the second starts another one. *)
Lemma concurrent_mounts_load_twice :
  loading (mount props freshWorld).1 = [0%nat] ∧
  loadCalls (mount props freshWorld).2 = 1%nat ∧
  loadCalls (mount (withValue "b" props) (mount props freshWorld).2).2 = 2%nat ∧
  trace (mount (withValue "b" props) (mount props freshWorld).2).2 =
    [LoadCSS; OnSyntaxError 3%nat []; LoadCSS; OnSyntaxError 3%nat []].
Proof. vm_compute. done. Qed.

(** A component that mounts after the load has completed uses the
    library that is there. *)
Example mount_after_load_reuses :
  loadCalls (mount (withValue "b" props)
               (run loadCompletes (mount props freshWorld)).2).2 = 1%nat.
Proof. vm_compute. reflexivity. Qed.

(** C5, counterexample.  The component mounts with value "a" while the
    library is absent and is rendered with value "b" before the load
    completes: the widget is created with "a", the value of the first
    render, and only the following synchronisation writes "b". *)
Lemma widget_seeded_with_first_value :
  (value ∘ r_props <$>
     prev (run [Rerender (withValue "b" props)] (mount props freshWorld)).1)
    = Some "b" ∧
  editors (run [Rerender (withValue "b" props)] (mount props freshWorld)).1
    = [] ∧
  trace (run lateValue (mount props freshWorld)).2 =
    [LoadCSS; OnSyntaxError 3%nat []; LoadScript 0; LoadScript 1;
     LoadScript 2; OnLoad 2%nat; EditorCreate 0 "a"; EditorSetValue 0 "b";
     EditorLayout 0 true; EditorLayout 0 false; SetModelLanguage 0 "json";
     UpdateOptions 0 false].
Proof. vm_compute. done. Qed.

(** C6, counterexample.  The owner renders the mounted component again
    and, as [EditorGuard] does on each of its renders, passes a new
    function as [onLoad]: readiness is signalled a second time. *)
Lemma new_onLoad_is_called_again :
  onLoads (trace ready.2) = [2%nat] ∧
  onLoads (trace (run [Rerender (withOnLoad 7%nat props)] ready).2) =
    [2%nat; 7%nat].
Proof. vm_compute. done. Qed.

Lemma onLoad_follows_library_and_callback_witness :
  onLoads (trace (execution props freshWorld
                    (lateValue ++ [Rerender (withValue "c" props)])).2)
    = [2%nat] ∧
  onLoads (trace (step (execution props readyWorld [])
                    (Rerender (withOnLoad 7%nat props))).2)
    = [2%nat; 7%nat] ∧
  onLoads (trace (step (execution props freshWorld [])
                    (Rerender (withOnLoad 7%nat props))).2)
    = [] ∧
  onLoads (trace (step (execution props freshWorld (take 3 loadCompletes))
                    (ResourceLoaded 0)).2)
    = [2%nat].
Proof.
  split; [|split; [|split]].
  - destruct (onLoad_follows_library_and_callback props freshWorld
                (lateValue ++ [Rerender (withValue "c" props)])) as [Hkept _].
    rewrite Hkept; [reflexivity|]. vm_compute. repeat constructor.
  - destruct (onLoad_follows_library_and_callback props readyWorld [])
      as [_ Hstep].
    destruct (Hstep eq_refl) as (p0 & Hp0 & ->).
    vm_compute in Hp0. injection Hp0 as <-. reflexivity.
  - destruct (onLoad_follows_library_and_callback props freshWorld [])
      as [_ Hstep].
    destruct (Hstep eq_refl) as (p0 & Hp0 & ->).
    vm_compute in Hp0. injection Hp0 as <-. reflexivity.
  - destruct (onLoad_follows_library_and_callback props freshWorld
                (take 3 loadCompletes)) as [_ Hstep].
    destruct (Hstep eq_refl) as (p0 & Hp0 & ->).
    vm_compute in Hp0. injection Hp0 as <-. reflexivity.
Defined.

(** In that execution the library arrives and readiness is signalled
    exactly once. *)
Example onLoad_after_load :
  onLoads (trace (run (lateValue ++ [Rerender (withValue "c" props)])
                    (mount props freshWorld)).2) = [2%nat].
Proof. vm_compute. reflexivity. Qed.

(** The owner changes four props at once: the write comes first, then
    the layout, the language and the read-only option. *)
Lemma rerender_runs_changed_effects_witness :
  trace (step (execution props readyWorld []) (Rerender restyled)).2 =
    trace (execution props readyWorld []).2 ++
      [EditorSetValue 0 "b"; OnChange 1%nat "b";
       EditorLayout 0 true; EditorLayout 0 false;
       SetModelLanguage 0 "plaintext"; UpdateOptions 0 true].
Proof.
  destruct (rerender_runs_changed_effects props readyWorld [] 0 restyled)
    as (p0 & Hp0 & ->).
  - vm_compute. reflexivity.
  - vm_compute. reflexivity.
  - vm_compute in Hp0. injection Hp0 as <-. reflexivity.
Defined.

Lemma external_value_reaches_widget_witness :
  valueRef (step (execution props readyWorld [])
              (Rerender (withValue "b" props))).1 = "b" ∧
  (λ e, (buffer e, cursor e))
    <$> editors (step (execution props readyWorld [])
                   (Rerender (withValue "b" props))).1 !! 0%nat =
    Some ("b", 0%nat) ∧
  ∃ rest,
    trace (step (execution props readyWorld [])
             (Rerender (withValue "b" props))).2 =
    trace (execution props readyWorld []).2 ++
      EditorSetValue 0 "b" :: OnChange 1%nat "b" :: rest.
Proof.
  destruct (external_value_reaches_widget props readyWorld [] 0
              (withValue "b" props)) as (p0 & Hp0 & Hsync).
  - vm_compute. reflexivity.
  - vm_compute. reflexivity.
  - vm_compute in Hp0. injection Hp0 as <-.
    apply Hsync; vm_compute; discriminate.
Defined.

Lemma changed_markers_are_reported_once_witness :
  trace (step (execution props readyWorld [])
           (Decorations 0 [unexpectedToken])).2 =
    trace (execution props readyWorld []).2 ++
      [OnSyntaxError 3%nat [unexpectedToken]] ∧
  errors (step (execution props readyWorld [])
            (Decorations 0 [unexpectedToken])).1 = [unexpectedToken] ∧
  valueRef (step (execution props readyWorld [])
              (Decorations 0 [unexpectedToken])).1 =
    valueRef (execution props readyWorld []).1.
Proof.
  destruct (changed_markers_are_reported_once props readyWorld [] 0
              [unexpectedToken]) as (p0 & Hp0 & Hreport).
  - vm_compute. reflexivity.
  - vm_compute. reflexivity.
  - vm_compute in Hp0. injection Hp0 as <-.
    apply Hreport; vm_compute; reflexivity.
Defined.

(** After a render with the plain text language and the read-only flag,
    decoration events and input events change nothing. *)
Lemma other_languages_report_nothing_witness :
  run (Decorations 0 <$> [[unexpectedToken]; []; [trailingComma]])
      (execution props readyWorld [Rerender restyled])
    = execution props readyWorld [Rerender restyled].
Proof.
  apply (other_languages_report_nothing props readyWorld [Rerender restyled]
           restyled 0 [[unexpectedToken]; []; [trailingComma]]).
  - vm_compute. reflexivity.
  - discriminate.
Defined.

Lemma read_only_blocks_edits_witness :
  run ((λ c : string * nat, Edit 0 c.1 c.2) <$> [("bc", 2%nat); ("bcd", 3%nat)])
      (execution props readyWorld [Rerender restyled])
    = execution props readyWorld [Rerender restyled].
Proof.
  apply (read_only_blocks_edits props readyWorld [Rerender restyled]
           restyled 0 [("bc", 2%nat); ("bcd", 3%nat)]).
  - vm_compute. reflexivity.
  - reflexivity.
Defined.

Lemma widget_follows_props_witness :
  ∃ p0 e,
    r_props <$> prev (execution props readyWorld [Rerender restyled]).1
      = Some p0 ∧
    0%nat = 0%nat ∧
    editors (execution props readyWorld [Rerender restyled]).1 = [e] ∧
    disposed e = false ∧
    modeId e = language p0 ∧ readOnlyOption e = readOnly p0.
Proof.
  apply (widget_follows_props props readyWorld [Rerender restyled] 0).
  - vm_compute. reflexivity.
  - vm_compute. reflexivity.
Defined.

(** The fourth resource arrives: the widget is created with "a", the
    value of the first render, and "b" is written next. *)
Lemma library_arrival_creates_widget_witness :
  trace (step (execution props freshWorld loadAlmostComplete)
           (ResourceLoaded 0)).2 =
    trace (execution props freshWorld loadAlmostComplete).2 ++
      [OnLoad 2%nat; EditorCreate 0 "a"; EditorSetValue 0 "b";
       EditorLayout 0 true; EditorLayout 0 false;
       SetModelLanguage 0 "json"; UpdateOptions 0 false] ∧
  valueRef (step (execution props freshWorld loadAlmostComplete)
              (ResourceLoaded 0)).1 = "a" ∧
  face <$> editors (step (execution props freshWorld loadAlmostComplete)
                      (ResourceLoaded 0)).1 = [("b", 0%nat, "json")].
Proof.
  destruct (library_arrival_creates_widget props freshWorld
              loadAlmostComplete 0) as (p0 & Hp0 & -> & -> & ->).
  - vm_compute. reflexivity.
  - vm_compute. reflexivity.
  - vm_compute. reflexivity.
  - vm_compute in Hp0. injection Hp0 as <-. vm_compute. done.
Defined.

Lemma unmount_disposes_widget_witness :
  trace (step (execution props readyWorld []) Unmount).2 =
    trace (execution props readyWorld []).2 ++
      match editor (execution props readyWorld []).1 with
      | Some k => [EditorDispose k]
      | None => []
      end ∧
  mounted (step (execution props readyWorld []) Unmount).1 = false ∧
  Forall gone (editors (step (execution props readyWorld []) Unmount).1).
Proof.
  apply (unmount_disposes_widget props readyWorld []).
  vm_compute. reflexivity.
Defined.

(** The unmounted widget is the one that was driven. *)
Example unmount_disposes_driven_widget :
  trace (step (execution props readyWorld []) Unmount).2 =
    trace (execution props readyWorld []).2 ++ [EditorDispose 0].
Proof. vm_compute. reflexivity. Qed.

(** A component is unmounted while its load is running; the load goes on,
    and the owner's callbacks are not called again. *)
Lemma unmounted_component_is_silent_witness :
  ∃ scripts,
    trace (run (loadCompletes ++ [Rerender restyled; Edit 0 "x" 1])
             (execution props freshWorld [Unmount])).2 =
      trace (execution props freshWorld [Unmount]).2
        ++ (LoadScript <$> scripts) ∧
    editors (run (loadCompletes ++ [Rerender restyled; Edit 0 "x" 1])
               (execution props freshWorld [Unmount])).1 =
      editors (execution props freshWorld [Unmount]).1 ∧
    valueRef (run (loadCompletes ++ [Rerender restyled; Edit 0 "x" 1])
                (execution props freshWorld [Unmount])).1 =
      valueRef (execution props freshWorld [Unmount]).1.
Proof.
  apply (unmounted_component_is_silent props freshWorld [Unmount]
           (loadCompletes ++ [Rerender restyled; Edit 0 "x" 1])).
  vm_compute. reflexivity.
Defined.

Example unmounted_load_goes_on :
  trace (run (loadCompletes ++ [Rerender restyled; Edit 0 "x" 1])
           (execution props freshWorld [Unmount])).2 =
    [LoadCSS; OnSyntaxError 3%nat []; LoadScript 0; LoadScript 1;
     LoadScript 2].
Proof. vm_compute. reflexivity. Qed.


End Sync.

(** ** The render signal and the selection cache *)

Section Owner.
Import RenderSignal RenderSignalFacts JsonEditorApp JsonEditorAppFacts.

(** Three calls of [forceRerender] between two renders are all counted. *)
Example signal_counts_batched_calls :
  value (RenderSignal.run [Force; Render; Force; Force; Force; Render]
           RenderSignal.init) = 4.
Proof. reflexivity. Qed.

(** The record stays cached through two clicks that select nothing. *)
Example cached_record_survives_clicks :
  render (Some tt)
    (JsonEditorApp.run
       [SelectionChanged selected; SelectionChanged deselected;
        SelectionChanged deselected] initial) =
  Some (tt, Some "rec1", Some "fld1").
Proof. reflexivity. Qed.

Lemma switch_forgets_selection_witness :
  JsonEditorApp.run [SelectionChanged deselected; ActiveChanged]
    (JsonEditorApp.step (JsonEditorApp.step initial (SelectionChanged selected))
       ActiveChanged) = initial ∧
  render (Some tt)
    (JsonEditorApp.run [SelectionChanged deselected; ActiveChanged]
       (JsonEditorApp.step
          (JsonEditorApp.step initial (SelectionChanged selected))
          ActiveChanged)) =
    (λ t, (t, None, None)) <$> Some tt.
Proof.
  apply (switch_forgets_selection
           (JsonEditorApp.step initial (SelectionChanged selected))
           [SelectionChanged deselected; ActiveChanged] (Some tt)).
  repeat constructor.
Defined.

End Owner.

End SampleFacts.
